(** * Spacezine: the content and image synchronisation pipeline

    A shallow embedding of the build-time scripts of the repository
    (scripts/sync-images.js, scripts/sync-data.js and src/lib/wordpress.js)
    and of the modules that serve their output (src/data/posts-static.js
    and src/pages/rss.xml.js), and the properties of the pipeline stated
    over it.

    Conventions of the embedding.
    - JavaScript strings are [string]: sequences of code units below 256.
      The patterns of the scripts only inspect ASCII characters, white space
      and the double quote, so wider code units would behave as any other
      inert character.
    - The platform (URL parser, network, cwebp, sharp, node-vibrant, JSON
      printer) is a record of functions, [Platform]; every theorem holds for
      all platforms unless it says otherwise.
    - The file system and the trace of performed effects are threaded
      explicitly through a small state-and-exception monad, [M].
    - Paths are written relative to the repository root, which is what
      path.join(__dirname, '..', ...) denotes in the scripts.
    - Console output is not modelled. *)

From Stdlib Require Import String Ascii ZArith List Lia Bool.
From stdpp Require Import base option strings gmap.

#[local] Arguments String.append !_ _ / : simpl nomatch.
#[local] Open Scope Z_scope.

(** ** JavaScript text primitives *)

Module Text.

(** The double quote character (code 34). *)
Definition dquote : ascii := Ascii false true false false false true false false.

(** A one-character string holding the double quote. *)
Definition DQ : string := String dquote EmptyString.

(** The line feed character (code 10), as JSON.stringify emits it. *)
Definition LF : string := String (Ascii false true false true false false false false) EmptyString.

(** ASCII case folding, as the [i] flag of a regular expression compares
    characters: only A-Z and a-z are identified. *)
Definition lower (c : ascii) : ascii :=
  let n := nat_of_ascii c in
  if (Nat.leb 65 n && Nat.leb n 90)%bool then ascii_of_nat (n + 32) else c.

Definition eqb_ci (a b : ascii) : bool := Ascii.eqb (lower a) (lower b).

(** The class \s restricted to code units below 256. *)
Definition is_ws (c : ascii) : bool :=
  let n := nat_of_ascii c in
  (Nat.eqb n 9 || Nat.eqb n 10 || Nat.eqb n 11 || Nat.eqb n 12 || Nat.eqb n 13
   || Nat.eqb n 32 || Nat.eqb n 160)%bool.

(** [strip_prefix p s] is the rest of [s] after the literal prefix [p]. *)
Fixpoint strip_prefix (p s : string) : option string :=
  match p with
  | EmptyString => Some s
  | String a p' =>
      match s with
      | String b s' => if Ascii.eqb a b then strip_prefix p' s' else None
      | EmptyString => None
      end
  end.

(** The same, comparing characters up to ASCII case. *)
Fixpoint strip_prefix_ci (p s : string) : option string :=
  match p with
  | EmptyString => Some s
  | String a p' =>
      match s with
      | String b s' => if eqb_ci a b then strip_prefix_ci p' s' else None
      | EmptyString => None
      end
  end.

(** Whole-string comparison up to ASCII case. *)
Fixpoint equal_ci (p s : string) : bool :=
  match p, s with
  | EmptyString, EmptyString => true
  | String a p', String b s' => eqb_ci a b && equal_ci p' s'
  | _, _ => false
  end.

(** String.prototype.includes. *)
Fixpoint includes (needle s : string) : bool :=
  match strip_prefix needle s with
  | Some _ => true
  | None => match s with
            | EmptyString => false
            | String _ s' => includes needle s'
            end
  end.

(** Truthiness of a value that is null, undefined or a string. *)
Definition truthy (v : option string) : bool :=
  match v with
  | Some s => negb (String.eqb s EmptyString)
  | None => false
  end.

(** [take n s] and [drop n s]: the two halves of s.slice. *)
Fixpoint take (n : nat) (s : string) : string :=
  match n, s with
  | S k, String c s' => String c (take k s')
  | _, _ => EmptyString
  end.

Fixpoint drop (n : nat) (s : string) : string :=
  match n, s with
  | S k, String _ s' => drop k s'
  | _, _ => s
  end.

(** The longest prefix without double quote, when a double quote follows it:
    the value and what comes after the closing quote.  This is how
    [[^dq]*dq] matches: the star cannot step over a quote. *)
Fixpoint until_quote (s : string) : option (string * string) :=
  match s with
  | EmptyString => None
  | String c s' =>
      if Ascii.eqb c dquote then Some (EmptyString, s')
      else match until_quote s' with
           | Some (v, r) => Some (String c v, r)
           | None => None
           end
  end.

(** Skips the white space [\s*] takes greedily. *)
Fixpoint skip_ws (s : string) : string :=
  match s with
  | String c s' => if is_ws c then skip_ws s' else s
  | EmptyString => EmptyString
  end.

(** String.prototype.trim. *)
Definition trim (s : string) : string :=
  String.rev (skip_ws (String.rev (skip_ws s))).

(** Number.prototype.toString(16) on an integer. *)
Definition hex_digit (d : Z) : ascii :=
  if d <? 10 then ascii_of_nat (Z.to_nat (48 + d)) else ascii_of_nat (Z.to_nat (87 + d)).

Fixpoint hex_digits (fuel : nat) (n : Z) (acc : string) : string :=
  match fuel with
  | O => acc
  | S f =>
      let acc' := String (hex_digit (n mod 16)) acc in
      if n / 16 =? 0 then acc' else hex_digits f (n / 16) acc'
  end.

Definition toString16 (x : Z) : string :=
  if x <? 0
  then String "-"%char (hex_digits (S (Z.to_nat (Z.log2 (- x)))) (- x) EmptyString)
  else hex_digits (S (Z.to_nat (Z.log2 x))) x EmptyString.

(** The substitution patterns String.prototype.replace expands in its
    replacement text when the pattern is a string (no capture groups):
    $$, $&, $` and $'. *)
Fixpoint expand_dollar (matched before after rep : string) : string :=
  match rep with
  | EmptyString => EmptyString
  | String c r =>
      if Ascii.eqb c "$"%char then
        match r with
        | String d r' =>
            if Ascii.eqb d "$"%char then String "$"%char (expand_dollar matched before after r')
            else if Ascii.eqb d "&"%char then matched +:+ expand_dollar matched before after r'
            else if Ascii.eqb d "`"%char then before +:+ expand_dollar matched before after r'
            else if Ascii.eqb d "'"%char then after +:+ expand_dollar matched before after r'
            else String c (expand_dollar matched before after r)
        | EmptyString => String c EmptyString
        end
      else String c (expand_dollar matched before after r)
  end.

(** [find_first pat s]: the text before and after the first occurrence of
    [pat] in [s]. *)
Fixpoint find_first (pat s : string) : option (string * string) :=
  match strip_prefix pat s with
  | Some r => Some (EmptyString, r)
  | None =>
      match s with
      | EmptyString => None
      | String c s' =>
          match find_first pat s' with
          | Some (b, a) => Some (String c b, a)
          | None => None
          end
      end
  end.

(** String.prototype.replace(pattern, replacement) with a string pattern:
    the first occurrence only. *)
Definition replace_first (pat rep s : string) : string :=
  match find_first pat s with
  | Some (b, a) => b +:+ expand_dollar pat b a rep +:+ a
  | None => s
  end.

End Text.

(** ** Paths (Node's path module on a POSIX host) *)

Module Path.

Definition is_slash (c : ascii) : bool := Ascii.eqb c "/"%char.

Fixpoint drop_slashes (s : string) : string :=
  match s with
  | String c s' => if is_slash c then drop_slashes s' else s
  | EmptyString => EmptyString
  end.

Fixpoint until_slash (s : string) : string :=
  match s with
  | String c s' => if is_slash c then EmptyString else String c (until_slash s')
  | EmptyString => EmptyString
  end.

Fixpoint after_slash (s : string) : string :=
  match s with
  | String c s' => if is_slash c then s' else after_slash s'
  | EmptyString => EmptyString
  end.

(** path.basename: trailing slashes are ignored, then the part after the
    last slash is returned. *)
Definition basename (p : string) : string :=
  String.rev (until_slash (drop_slashes (String.rev p))).

(** The parent of a directory path that holds a slash. *)
Definition parent (d : string) : string :=
  String.rev (after_slash (String.rev d)).

(** path.join(dir, name) for a name without slash: an empty or dot name
    denotes the directory itself, two dots its parent. *)
Definition join (dir name : string) : string :=
  if (String.eqb name EmptyString || String.eqb name ".")%bool then dir
  else if String.eqb name ".." then parent dir
  else dir +:+ "/" +:+ name.

(** A directory and all the directories above it, as
    mkdirSync(dir, {recursive: true}) creates them. *)
Fixpoint chain_from (seen rest : string) : list string :=
  match rest with
  | EmptyString => [String.rev seen]
  | String c rest' =>
      if is_slash c
      then String.rev seen :: chain_from (String c seen) rest'
      else chain_from (String c seen) rest'
  end.

Definition chain (dir : string) : list string := chain_from EmptyString dir.

Definition publicImagesDir : string := "public/images".
Definition distImagesDir : string := "dist/images".
Definition metaDir : string := "public/images/meta".
Definition dataDir : string := "src/data".

End Path.

(** ** The platform and the state of a run *)

(** Outcome of fetch(url) on an asset. *)
Inductive FetchResult : Type :=
  | FetchThrows
  | FetchResponse (ok : bool) (body : string).

(** The four swatches downloadImage consults, each with the hex text
    node-vibrant reports for it, or None when the swatch is missing. *)
Record Palette : Type := mkPalette {
  Vibrant : option string;
  DarkVibrant : option string;
  Muted : option string;
  DarkMuted : option string
}.

(** Posts as the GraphQL query returns them; a field the query result lacks
    or holds null for is None. *)
Record MediaDetails : Type := mkMediaDetails {
  md_width : option Z;
  md_height : option Z
}.

Record MediaNode : Type := mkMediaNode {
  sourceUrl : option string;
  altText : option string;
  mediaDetails : option MediaDetails
}.

Record FeaturedImage : Type := mkFeaturedImage { fi_node : option MediaNode }.

Record Term : Type := mkTerm { term_name : string; term_slug : string }.

Record TermList : Type := mkTermList { term_nodes : option (list Term) }.

Record AuthorNode : Type := mkAuthorNode { author_name : option string }.

Record Author : Type := mkAuthor { author_node : option AuthorNode }.

Record WpPost : Type := mkWpPost {
  wp_id : string;
  wp_slug : string;
  wp_title : string;
  wp_content : option string;
  wp_excerpt : option string;
  wp_date : string;
  wp_featuredImage : option FeaturedImage;
  wp_author : option Author;
  wp_categories : option TermList;
  wp_tags : option TermList
}.

(** Outcome of the POST to the GraphQL endpoint. *)
Inductive QueryResult : Type :=
  | QueryThrows                        (* transport failure *)
  | QueryStatus                        (* response.ok is false *)
  | QueryErrors                        (* the body carries errors *)
  | QueryData (posts : option (list WpPost)).  (* data?.posts?.nodes *)

(** The record transformWordPressPost returns. *)
Record AstroData : Type := mkAstroData {
  title : string;
  description : string;
  pubDate : string;            (* the argument of new Date(...) *)
  heroImage : option string;
  imageWidth : option Z;
  imageHeight : option Z;
  dominantColor : option string;
  author : option string;
  categories : list Term;
  tags : list Term;
  wpId : string
}.

Record AstroPost : Type := mkAstroPost {
  id : string;
  slug : string;
  data : AstroData;
  content : option string
}.

(** Everything the scripts obtain from outside the repository.  Each tool is
    a function of its input. *)
Record Platform : Type := mkPlatform {
  (* new URL(u).pathname; None when the constructor throws *)
  url_pathname : string -> option string;
  (* fetch(u) followed by arrayBuffer() *)
  http_get : string -> FetchResult;
  (* cwebp -q 85 on the bytes of its input file; None on a failing exit *)
  cwebp : string -> option string;
  (* sharp(file).stats().dominant as r, g, b; None when sharp throws *)
  sharp_dominant : string -> option (Z * Z * Z);
  (* Vibrant.from(file).getPalette(); None when it throws *)
  vibrant_palette : string -> option Palette;
  (* the answer of the GraphQL endpoint *)
  graphql : QueryResult;
  (* JSON text of one transformed post inside the printed array *)
  json_post : AstroPost -> string
}.

Inductive Event : Type :=
  | EvQuery                           (* POST to the GraphQL endpoint *)
  | EvFetch (url : string)            (* fetch of an asset *)
  | EvMkdir (dir : string)
  | EvWrite (path : string)
  | EvUnlink (path : string)
  | EvExec (input output : string).   (* one cwebp invocation *)

Record State : Type := mkState {
  files : gmap string string;
  dirs : gset string;
  trace : list Event
}.

(** ** State and exceptions *)

Inductive Res (A : Type) : Type :=
  | Val (a : A)
  | Exn.
Arguments Val {A} a.
Arguments Exn {A}.

Definition M (A : Type) : Type := State -> Res A * State.

Definition ret {A : Type} (a : A) : M A := fun st => (Val a, st).

Definition throw {A : Type} : M A := fun st => (Exn, st).

Definition bind {A B : Type} (m : M A) (k : A -> M B) : M B :=
  fun st =>
    match m st with
    | (Val a, st') => k a st'
    | (Exn, st') => (Exn, st')
    end.

(** try { m } catch { h } *)
Definition try_catch {A : Type} (m h : M A) : M A :=
  fun st =>
    match m st with
    | (Val a, st') => (Val a, st')
    | (Exn, st') => h st'
    end.

Notation "'let*' x ':=' m 'in' k" := (bind m (fun x => k))
  (at level 10, x name, m at level 100, k at level 200).

Definition when (b : bool) (m : M unit) : M unit := if b then m else ret tt.

Definition log (e : Event) (st : State) : State :=
  mkState (files st) (dirs st) (trace st ++ [e]).

(** ** The file system calls of the scripts *)

Module Fs.

(** A file or a directory stands at [p]. *)
Definition exists_at (st : State) (p : string) : bool :=
  match files st !! p with
  | Some _ => true
  | None => bool_decide (p ∈ dirs st)
  end.

Definition existsSync (p : string) : M bool :=
  fun st => (Val (exists_at st p), st).

(** The state after mkdirSync(d, { recursive: true }). *)
Definition made (d : string) (st : State) : State :=
  mkState (files st) (list_to_set (Path.chain d) ∪ dirs st) (trace st ++ [EvMkdir d]).

Definition mkdirSync (d : string) : M unit :=
  fun st => (Val tt, made d st).

(** The state after a successful writeFileSync(p, data). *)
Definition written (p data : string) (st : State) : State :=
  mkState (<[p := data]> (files st)) (dirs st) (trace st ++ [EvWrite p]).

(** Writing onto a directory throws; every write of the scripts is preceded
    by the creation of its directory. *)
Definition writeFileSync (p data : string) : M unit :=
  fun st =>
    if bool_decide (p ∈ dirs st) then (Exn, st)
    else (Val tt, written p data st).

(** The state after a successful unlinkSync(p). *)
Definition unlinked (p : string) (st : State) : State :=
  mkState (delete p (files st)) (dirs st) (trace st ++ [EvUnlink p]).

(** Unlinking a path that holds no file throws. *)
Definition unlinkSync (p : string) : M unit :=
  fun st =>
    match files st !! p with
    | Some _ => (Val tt, unlinked p st)
    | None => (Exn, st)
    end.

Definition readFile (p : string) : M string :=
  fun st =>
    match files st !! p with
    | Some d => (Val d, st)
    | None => (Exn, st)
    end.

End Fs.

(** fetch(url): the call is recorded whatever its outcome. *)
Definition fetch (W : Platform) (url : string) : M (bool * string) :=
  fun st =>
    match http_get W url with
    | FetchThrows => (Exn, log (EvFetch url) st)
    | FetchResponse ok body => (Val (ok, body), log (EvFetch url) st)
    end.

(** The state after a cwebp run that wrote [w]. *)
Definition transcoded (input output w : string) (st : State) : State :=
  mkState (<[output := w]> (files st)) (dirs st) (trace st ++ [EvExec input output]).

(** execSync of one cwebp command line: reads the input file, writes the
    output file, throws when the tool fails. *)
Definition exec_cwebp (W : Platform) (input output : string) : M unit :=
  fun st =>
    match files st !! input with
    | Some d =>
        match cwebp W d with
        | Some w => (Val tt, transcoded input output w st)
        | None => (Exn, log (EvExec input output) st)
        end
    | None => (Exn, log (EvExec input output) st)
    end.

(** What resolve returns: { localPath, dominantColor }. *)
Record ImageResult : Type := mkImageResult {
  localPath : option string;
  resultColor : option string
}.

(** The test both scripts apply before touching a URL:
    !imageUrl || (!imageUrl.includes('.local') && !imageUrl.includes('localhost')) *)
Definition not_local (imageUrl : option string) : bool :=
  negb (Text.truthy imageUrl)
  || match imageUrl with
     | Some u => negb (Text.includes ".local" u) && negb (Text.includes "localhost" u)
     | None => true
     end.

(** ** The regular expressions of the scripts *)

Module Regex.

Import Text.

(** /\.(jpg|jpeg|png)$/i tried at the start of [s]. *)
Definition ext_here (s : string) : bool :=
  equal_ci ".jpg" s || equal_ci ".jpeg" s || equal_ci ".png" s.

(** fileName.replace(/\.(jpg|jpeg|png)$/i, '.webp'): the leftmost position
    where the pattern matches; the match runs to the end of the name. *)
Fixpoint replace_ext (s : string) : string :=
  match s with
  | EmptyString => EmptyString
  | String c s' => if ext_here s then ".webp" else String c (replace_ext s')
  end.

(** [s] ends with [p], up to ASCII case. *)
Fixpoint ends_ci (p s : string) : bool :=
  equal_ci p s
  || match s with
     | String _ s' => ends_ci p s'
     | EmptyString => false
     end.

(** \.(jpg|jpeg|png|gif|webp|JPG|JPEG|PNG|GIF|WEBP) at the end of the
    quoted value, under the [i] flag. *)
Definition has_image_ext (s : string) : bool :=
  ends_ci ".jpg" s || ends_ci ".jpeg" s || ends_ci ".png" s
  || ends_ci ".gif" s || ends_ci ".webp" s.

(** https?:\/\/[^dq]*\.(ext) against a whole quoted value. *)
Definition url_shape (x : string) : bool :=
  match strip_prefix_ci "https://" x with
  | Some r => has_image_ext r
  | None =>
      match strip_prefix_ci "http://" x with
      | Some r => has_image_ext r
      | None => false
      end
  end.

(** The image pattern tried at the start of [s]: the matched text, the
    captured URL and the text after the match. *)
Definition match_image (s : string) : option (string * string * string) :=
  match strip_prefix_ci ("src=" +:+ DQ) s with
  | Some r =>
      match until_quote r with
      | Some (x, rest) =>
          if url_shape x then Some (take 5 s +:+ x +:+ DQ, x, rest) else None
      | None => None
      end
  | None => None
  end.

(** Array.from(content.matchAll(imageRegex)) as pairs [fullMatch, imageUrl]. *)
Fixpoint matchAll_from (fuel : nat) (s : string) : list (string * string) :=
  match fuel with
  | O => []
  | S f =>
      match match_image s with
      | Some (full, url, rest) => (full, url) :: matchAll_from f rest
      | None =>
          match s with
          | EmptyString => []
          | String _ s' => matchAll_from f s'
          end
      end
  end.

Definition matchAll (s : string) : list (string * string) :=
  matchAll_from (String.length s) s.

(** text.replace(pattern, '') with the [g] flag, for a pattern that cannot
    match the empty text: [m] gives the text after a match at the start of
    its argument.  The scan goes left to right and resumes after each match. *)
Fixpoint delete_all_from (fuel : nat) (m : string -> option string) (s : string) : string :=
  match fuel with
  | O => s
  | S f =>
      match m s with
      | Some rest => delete_all_from f m rest
      | None =>
          match s with
          | EmptyString => EmptyString
          | String c s' => String c (delete_all_from f m s')
          end
      end
  end.

Definition delete_all (m : string -> option string) (s : string) : string :=
  delete_all_from (String.length s) m s.

(** /\s*NAME=dq[^dq]*dq/gi tried at the start of [s]: the text after the
    match. *)
Definition match_attr (name s : string) : option string :=
  match strip_prefix_ci (name +:+ "=" +:+ DQ) (skip_ws s) with
  | Some r =>
      match until_quote r with
      | Some (_, rest) => Some rest
      | None => None
      end
  | None => None
  end.

(** content.replace(/\s*NAME=dq[^dq]*dq/gi, ''). *)
Definition remove_attr (name s : string) : string := delete_all (match_attr name) s.

(** The text after the first [>]. *)
Fixpoint after_gt (s : string) : option string :=
  match s with
  | EmptyString => None
  | String c s' => if Ascii.eqb c ">"%char then Some s' else after_gt s'
  end.

(** /<[^>]*>/ tried at the start of [s]. *)
Definition match_tag (s : string) : option string :=
  match s with
  | String c s' => if Ascii.eqb c "<"%char then after_gt s' else None
  | EmptyString => None
  end.

(** excerpt.replace(/<[^>]*>/g, ''). *)
Definition strip_tags (s : string) : string := delete_all match_tag s.

End Regex.

(** ** scripts/sync-images.js, the revision that records colours *)

Module SyncImages.

Import Text.

(** x => { const hex = x.toString(16); return hex.length === 1 ? '0' + hex : hex } *)
Definition channel_hex (x : Z) : string :=
  let hex := toString16 x in
  if Nat.eqb (String.length hex) 1 then "0" +:+ hex else hex.

Definition rgb_hex (r g b : Z) : string :=
  "#" +:+ channel_hex r +:+ channel_hex g +:+ channel_hex b.

Definition extractDominantColor (W : Platform) (imagePath : string) : M (option string) :=
  try_catch
    (let* d := Fs.readFile imagePath in
     match sharp_dominant W d with
     | Some (r, g, b) => ret (Some (rgb_hex r g b))
     | None => throw
     end)
    (ret None).

(** JSON.stringify({ dominantColor }, null, 2).  The colours this script
    produces hold no character JSON escapes. *)
Definition json_meta (color : option string) : string :=
  "{" +:+ LF +:+ "  " +:+ DQ +:+ "dominantColor" +:+ DQ +:+ ": "
  +:+ match color with
      | Some c => DQ +:+ c +:+ DQ
      | None => "null"
      end
  +:+ LF +:+ "}".

(** fileName.replace(/\.(jpg|jpeg|png)$/i, '.webp') *)
Definition webpFileName (fileName : string) : string := Regex.replace_ext fileName.

Definition ensure_dir (d : string) : M unit :=
  let* ex := Fs.existsSync d in when (negb ex) (Fs.mkdirSync d).

(** The state after ensure_dir. *)
Definition ensured (d : string) (st : State) : State :=
  if Fs.exists_at st d then st else Fs.made d st.

Definition no_result : ImageResult := mkImageResult None None.

Definition downloadAndConvertImage (W : Platform) (imageUrl : option string) : M ImageResult :=
  if not_local imageUrl then ret (mkImageResult imageUrl None)
  else
    let u := default EmptyString imageUrl in
    try_catch
      (let* pathname := (match url_pathname W u with Some p => ret p | None => throw end) in
       let fileName := Path.basename pathname in
       let webpFileName := webpFileName fileName in
       let webpPublicPath := Path.join Path.publicImagesDir webpFileName in
       let webpDistPath := Path.join Path.distImagesDir webpFileName in
       let* cached := Fs.existsSync webpPublicPath in
       if cached then
         let* color := extractDominantColor W webpPublicPath in
         let* _ :=
           when (truthy color)
             (let* _ := ensure_dir Path.metaDir in
              Fs.writeFileSync (Path.join Path.metaDir (webpFileName +:+ ".json"))
                (json_meta color)) in
         ret (mkImageResult (Some ("/images/" +:+ webpFileName)) color)
       else
         let* response := fetch W u in
         if negb (fst response) then ret no_result
         else
           let imageData := snd response in
           let* _ := ensure_dir Path.publicImagesDir in
           let* _ := ensure_dir Path.distImagesDir in
           let* _ := ensure_dir Path.metaDir in
           let publicImagePath := Path.join Path.publicImagesDir fileName in
           let distImagePath := Path.join Path.distImagesDir fileName in
           let* _ := Fs.writeFileSync publicImagePath imageData in
           let* _ := Fs.writeFileSync distImagePath imageData in
           let* converted :=
             try_catch
               (let* _ := exec_cwebp W publicImagePath webpPublicPath in
                let* _ := exec_cwebp W distImagePath webpDistPath in
                let* _ := Fs.unlinkSync publicImagePath in
                let* _ := Fs.unlinkSync distImagePath in
                ret true)
               (ret false) in
           if negb converted
           then ret (mkImageResult (Some ("/images/" +:+ fileName)) None)
           else
             let* color := extractDominantColor W webpPublicPath in
             let* _ := Fs.writeFileSync (Path.join Path.metaDir (webpFileName +:+ ".json"))
                         (json_meta color) in
             ret (mkImageResult (Some ("/images/" +:+ webpFileName)) color))
      (ret no_result).

(** The script's own fetchWordPressPosts: every failure yields []. *)
Definition fetchWordPressPosts (W : Platform) : M (list WpPost) :=
  fun st =>
    (Val (match graphql W with
          | QueryData (Some posts) => posts
          | _ => []
          end), log EvQuery st).

Record Counters : Type := mkCounters { processed : Z; skipped : Z; failed : Z }.

(** The three-way tally of a hero image. *)
Definition tally (r : ImageResult) (c : Counters) : Counters :=
  if truthy (localPath r) && includes "/images/" (default EmptyString (localPath r))
  then mkCounters (processed c + 1) (skipped c) (failed c)
  else if truthy (localPath r)
  then mkCounters (processed c) (skipped c + 1) (failed c)
  else mkCounters (processed c) (skipped c) (failed c + 1).

Definition heroUrl (post : WpPost) : option string :=
  match wp_featuredImage post with
  | Some fi =>
      match fi_node fi with
      | Some n => sourceUrl n
      | None => None
      end
  | None => None
  end.

Fixpoint each_inline (W : Platform) (images : list (string * string)) : M unit :=
  match images with
  | [] => ret tt
  | (_, imageUrl) :: rest =>
      let* _ := downloadAndConvertImage W (Some imageUrl) in
      each_inline W rest
  end.

Fixpoint each_post (W : Platform) (posts : list WpPost) (c : Counters) : M Counters :=
  match posts with
  | [] => ret c
  | post :: rest =>
      let* c1 :=
        (if truthy (heroUrl post)
         then let* result := downloadAndConvertImage W (heroUrl post) in
              ret (tally result c)
         else ret c) in
      let* _ :=
        (if truthy (wp_content post)
         then each_inline W (Regex.matchAll (default EmptyString (wp_content post)))
         else ret tt) in
      each_post W rest c1
  end.

(** The exit code of the process and the tally, when the run reaches it. *)
Definition syncImages (W : Platform) : M (Z * option Counters) :=
  let* posts := fetchWordPressPosts W in
  if Nat.eqb (length posts) 0 then ret (1, None)
  else
    let* c := each_post W posts (mkCounters 0 0 0) in
    ret (0, Some c).

End SyncImages.

(** ** scripts/sync-images.js, the revision without colours

    The same resolution, returning the local path alone. *)

Module SyncImages0.

Import Text.

Definition downloadAndConvertImage (W : Platform) (imageUrl : option string) : M (option string) :=
  if not_local imageUrl then ret imageUrl
  else
    let u := default EmptyString imageUrl in
    try_catch
      (let* pathname := (match url_pathname W u with Some p => ret p | None => throw end) in
       let fileName := Path.basename pathname in
       let webpFileName := SyncImages.webpFileName fileName in
       let webpPublicPath := Path.join Path.publicImagesDir webpFileName in
       let webpDistPath := Path.join Path.distImagesDir webpFileName in
       let* cached := Fs.existsSync webpPublicPath in
       if cached then ret (Some ("/images/" +:+ webpFileName))
       else
         let* response := fetch W u in
         if negb (fst response) then ret None
         else
           let imageData := snd response in
           let* _ := SyncImages.ensure_dir Path.publicImagesDir in
           let* _ := SyncImages.ensure_dir Path.distImagesDir in
           let publicImagePath := Path.join Path.publicImagesDir fileName in
           let distImagePath := Path.join Path.distImagesDir fileName in
           let* _ := Fs.writeFileSync publicImagePath imageData in
           let* _ := Fs.writeFileSync distImagePath imageData in
           let* converted :=
             try_catch
               (let* _ := exec_cwebp W publicImagePath webpPublicPath in
                let* _ := exec_cwebp W distImagePath webpDistPath in
                let* _ := Fs.unlinkSync publicImagePath in
                let* _ := Fs.unlinkSync distImagePath in
                ret true)
               (ret false) in
           if negb converted
           then ret (Some ("/images/" +:+ fileName))
           else ret (Some ("/images/" +:+ webpFileName)))
      (ret None).

End SyncImages0.

(** ** src/lib/wordpress.js *)

Module WordPress.

Import Text.

(** a || b on values that are null or strings. *)
Definition js_or (a b : option string) : option string :=
  if truthy a then a else b.

(** n || null on a value that is null or a number. *)
Definition num_or_null (n : option Z) : option Z :=
  match n with
  | Some z => if z =? 0 then None else Some z
  | None => None
  end.

Definition palette_color (p : Palette) : option string :=
  js_or (Vibrant p) (js_or (DarkVibrant p) (js_or (Muted p) (js_or (DarkMuted p) None))).

Definition downloadImage (W : Platform) (imageUrl : option string) : M ImageResult :=
  if not_local imageUrl then ret (mkImageResult imageUrl None)
  else
    let u := default EmptyString imageUrl in
    try_catch
      (let* response := fetch W u in
       if negb (fst response) then ret SyncImages.no_result
       else
         let imageData := snd response in
         let* pathname := (match url_pathname W u with Some p => ret p | None => throw end) in
         let fileName := Path.basename pathname in
         let* _ := SyncImages.ensure_dir Path.publicImagesDir in
         let* _ := SyncImages.ensure_dir Path.distImagesDir in
         let publicImagePath := Path.join Path.publicImagesDir fileName in
         let distImagePath := Path.join Path.distImagesDir fileName in
         let* _ := Fs.writeFileSync publicImagePath imageData in
         let* _ := Fs.writeFileSync distImagePath imageData in
         let* color :=
           try_catch
             (let* d := Fs.readFile publicImagePath in
              match vibrant_palette W d with
              | Some p => ret (palette_color p)
              | None => throw
              end)
             (ret None) in
         ret (mkImageResult (Some ("/images/" +:+ fileName)) color))
      (ret SyncImages.no_result).

Definition fetchWordPressPosts (W : Platform) : M (list WpPost) :=
  fun st =>
    (Val (match graphql W with
          | QueryData (Some posts) => posts
          | _ => []
          end), log EvQuery st).

Definition mediaNode (post : WpPost) : option MediaNode :=
  match wp_featuredImage post with
  | Some fi => fi_node fi
  | None => None
  end.

Definition declared (dim : MediaDetails -> option Z) (post : WpPost) : option Z :=
  match mediaNode post with
  | Some n =>
      match mediaDetails n with
      | Some d => num_or_null (dim d)
      | None => None
      end
  | None => None
  end.

(** The loop over the matches: one resolution and one replace per match. *)
Fixpoint substitute (W : Platform) (images : list (string * string)) (content : string) : M string :=
  match images with
  | [] => ret content
  | (fullMatch, imageUrl) :: rest =>
      let* imageResult := downloadImage W (Some imageUrl) in
      let content' :=
        if truthy (localPath imageResult)
        then replace_first fullMatch
               ("src=" +:+ DQ +:+ default EmptyString (localPath imageResult) +:+ DQ) content
        else replace_first fullMatch ("src=" +:+ DQ +:+ DQ) content in
      substitute W rest content'
  end.

Definition strip_attrs (content : string) : string :=
  Regex.remove_attr "height"
    (Regex.remove_attr "width"
       (Regex.remove_attr "sizes"
          (Regex.remove_attr "srcset" content))).

(** The body of [if (content) { ... }]. *)
Definition rewrite (W : Platform) (content : string) : M string :=
  let* c := substitute W (Regex.matchAll content) content in
  ret (strip_attrs c).

Definition term_list (l : option TermList) : list Term :=
  match l with
  | Some t => default [] (term_nodes t)
  | None => []
  end.

Definition transformWordPressPost (W : Platform) (wpPost : WpPost) : M AstroPost :=
  let originalHeroImage :=
    js_or (match mediaNode wpPost with Some n => sourceUrl n | None => None end) None in
  let* imageResult :=
    (if truthy originalHeroImage then downloadImage W originalHeroImage
     else ret SyncImages.no_result) in
  let excerpt :=
    if truthy (wp_excerpt wpPost)
    then trim (Regex.strip_tags (default EmptyString (wp_excerpt wpPost)))
    else EmptyString in
  let* content :=
    (if truthy (wp_content wpPost)
     then let* c := rewrite W (default EmptyString (wp_content wpPost)) in ret (Some c)
     else ret (wp_content wpPost)) in
  ret (mkAstroPost (wp_slug wpPost) (wp_slug wpPost)
         (mkAstroData
            (wp_title wpPost)
            excerpt
            (wp_date wpPost)
            (localPath imageResult)
            (declared md_width wpPost)
            (declared md_height wpPost)
            (resultColor imageResult)
            (match wp_author wpPost with
             | Some a => match author_node a with Some n => author_name n | None => None end
             | None => None
             end)
            (term_list (wp_categories wpPost))
            (term_list (wp_tags wpPost))
            (wp_id wpPost))
         content).

(** Promise.all(wpPosts.map(transformWordPressPost)): the transformations
    are started in the order of the posts; the embedding runs each to its
    end before the next one starts. *)
Fixpoint transform_all (W : Platform) (posts : list WpPost) : M (list AstroPost) :=
  match posts with
  | [] => ret []
  | p :: rest =>
      let* t := transformWordPressPost W p in
      let* ts := transform_all W rest in
      ret (t :: ts)
  end.

Definition getWordPressPosts (W : Platform) : M (list AstroPost) :=
  let* wpPosts := fetchWordPressPosts W in
  transform_all W wpPosts.

End WordPress.

(** ** scripts/sync-data.js *)

Module SyncData.

Import Text.

Fixpoint join_lines (items : list string) : string :=
  match items with
  | [] => EmptyString
  | [x] => x
  | x :: rest => x +:+ "," +:+ LF +:+ join_lines rest
  end.

(** JSON.stringify(posts, null, 2) around the printed posts. *)
Definition json_posts (W : Platform) (posts : list AstroPost) : string :=
  match posts with
  | [] => "[]"
  | _ => "[" +:+ LF +:+ join_lines (map (json_post W) posts) +:+ LF +:+ "]"
  end.

Definition dataFile : string := Path.join Path.dataDir "posts.json".

(** The exit code of the process: 1 from the catch block, 0 otherwise. *)
Definition syncData (W : Platform) : M Z :=
  try_catch
    (let* posts := WordPress.getWordPressPosts W in
     let* _ := SyncImages.ensure_dir Path.dataDir in
     let* _ := Fs.writeFileSync dataFile (json_posts W posts) in
     ret 0)
    (ret 1).

End SyncData.

(** ** Vocabulary of the properties *)

(** A URL the Asset Cache works on: it holds '.local' or 'localhost'. *)
Definition eligible (u : string) : bool := negb (not_local (Some u)).

Fixpoint all_chars (P : ascii -> bool) (s : string) : bool :=
  match s with
  | EmptyString => true
  | String c s' => P c && all_chars P s'
  end.

Definition is_lower_hex (c : ascii) : bool :=
  let n := nat_of_ascii c in
  (Nat.leb 48 n && Nat.leb n 57) || (Nat.leb 97 n && Nat.leb n 102).

(** '#' followed by exactly six lowercase hexadecimal digits. *)
Definition is_hex_color (s : string) : bool :=
  match s with
  | String c r =>
      Ascii.eqb c "#"%char && Nat.eqb (String.length r) 6 && all_chars is_lower_hex r
  | EmptyString => false
  end.

(** A channel as two hexadecimal digits, zero-padded. *)
Definition hex2 (x : Z) : string :=
  String (Text.hex_digit (x / 16)) (String (Text.hex_digit (x mod 16)) EmptyString).

(** An 8-bit channel value, as sharp reports them. *)
Definition is_channel (x : Z) : Prop := 0 <= x < 256.

(** The colour sharp yields for the content of a file, if any. *)
Definition color_of (W : Platform) (content : option string) : option string :=
  match content with
  | Some d =>
      match sharp_dominant W d with
      | Some (r, g, b) => Some (SyncImages.rgb_hex r g b)
      | None => None
      end
  | None => None
  end.

(** The cache file and the sidecar of a final path segment. *)
Definition cache_path (fileName : string) : string :=
  Path.join Path.publicImagesDir (SyncImages.webpFileName fileName).

Definition meta_path (fileName : string) : string :=
  Path.join Path.metaDir (SyncImages.webpFileName fileName +:+ ".json").

(** The directories a resolution creates. *)
Definition cache_dirs : list string :=
  Path.chain Path.publicImagesDir ++ Path.chain Path.distImagesDir ++ Path.chain Path.metaDir.

(** No directory stands at [p], in the state or among the cache
    directories. *)
Definition not_a_dir (st : State) (p : string) : Prop :=
  (p ∉ dirs st) /\ ~ In p cache_dirs.

(** Network fetches and cwebp invocations recorded in a trace. *)
Fixpoint fetches (t : list Event) : nat :=
  match t with
  | [] => O
  | EvFetch _ :: t' => S (fetches t')
  | _ :: t' => fetches t'
  end.

Fixpoint execs (t : list Event) : nat :=
  match t with
  | [] => O
  | EvExec _ _ :: t' => S (execs t')
  | _ :: t' => execs t'
  end.

(** A text with A-Z folded to a-z. *)
Fixpoint lower_all (s : string) : string :=
  match s with
  | EmptyString => EmptyString
  | String c s' => String (Text.lower c) (lower_all s')
  end.

(** Modelled from the spec: the target filename of section 4.1, which
    replaces the extension of every known raster format (jpg, jpeg, png,
    gif, webp, in any case) with the compressed extension. *)
Fixpoint spec_target_name (s : string) : string :=
  match s with
  | EmptyString => EmptyString
  | String c s' =>
      if Regex.ext_here s || Text.equal_ci ".gif" s || Text.equal_ci ".webp" s
      then ".webp"
      else String c (spec_target_name s')
  end.

(** ** Platforms and states for the examples *)

Module Demo.

Import Text.

Fixpoint path_part (s : string) : string :=
  match s with
  | String c s' =>
      if Ascii.eqb c "?"%char || Ascii.eqb c "#"%char then EmptyString
      else String c (path_part s')
  | EmptyString => EmptyString
  end.

Fixpoint from_slash (s : string) : string :=
  match s with
  | String c s' => if Ascii.eqb c "/"%char then s else from_slash s'
  | EmptyString => "/"
  end.

(** The path of scheme://host/path?query#fragment, for URLs that need no
    normalisation. *)
Definition pathname (u : string) : option string :=
  match find_first "://" u with
  | Some (_, r) => Some (path_part (from_slash r))
  | None => None
  end.

(** Every tool answers. *)
Definition online : Platform :=
  mkPlatform pathname
    (fun _ => FetchResponse true "RAW")
    (fun d => Some ("WEBP:" +:+ d))
    (fun _ => Some (8, 136, 248))
    (fun _ => Some (mkPalette (Some "#112233") None None None))
    (QueryData (Some []))
    (fun _ => "{}").

(** The content source and the asset origin are unreachable. *)
Definition offline : Platform :=
  mkPlatform pathname
    (fun _ => FetchThrows)
    (fun _ => None)
    (fun _ => None)
    (fun _ => None)
    QueryThrows
    (fun _ => "{}").

(** Downloads succeed, cwebp is not installed. *)
Definition no_cwebp : Platform :=
  mkPlatform pathname
    (fun _ => FetchResponse true "RAW")
    (fun _ => None)
    (fun _ => Some (8, 136, 248))
    (fun _ => None)
    (QueryData (Some []))
    (fun _ => "{}").

Definition empty : State := mkState ∅ ∅ [].

(** The featured image of the end-to-end scenario. *)
Definition rocket : string := "http://spacezine.local/img/rocket.jpg".

(** A checkout in which an earlier run has left its posts. *)
Definition published : State :=
  mkState {[ "src/data/posts.json" := "[ earlier posts ]" ]} {[ "src/data" ]} [].

End Demo.

(** ** Matches of a pattern *)

(** A pattern matches at some position of a text. *)
Fixpoint occurs (m : string -> option string) (s : string) : bool :=
  match m s with
  | Some _ => true
  | None =>
      match s with
      | EmptyString => false
      | String _ s' => occurs m s'
      end
  end.

(** A pattern that matches only non-empty texts: what is left after a match
    is shorter than the text it was tried on. *)
Definition consuming (m : string -> option string) : Prop :=
  forall s r, m s = Some r -> (String.length r < String.length s)%nat.

(** ** Structured markup *)

(** The bodies for which the properties of the body rewrite are stated.
    Nothing in this module is taken from the scripts: a body is described as
    a list of double-quoted attributes, each with the text in front of it,
    and [render] gives the text that transformWordPressPost receives.
    [resolve] and [omit] say on attributes what the loop over the matches
    and the four removals do on text; the properties relate them to
    WordPress.substitute and WordPress.strip_attrs. *)

Module Markup.

Import Text.

(** One double-quoted attribute with the text that precedes it:
    pre, white space, name, equals sign, quoted value. *)
Record Item : Type := mkItem {
  pre : string;
  sep : string;
  name : string;
  value : string
}.

Definition render_item (i : Item) : string :=
  pre i +:+ sep i +:+ name i +:+ "=" +:+ DQ +:+ value i +:+ DQ.

(** A body: attributes in order, then the text after the last of them. *)
Fixpoint render (items : list Item) (tail : string) : string :=
  match items with
  | [] => tail
  | i :: rest => render_item i +:+ render rest tail
  end.

Definition not_quote (c : ascii) : bool := negb (Ascii.eqb c dquote).

Definition quote_free (s : string) : bool := all_chars not_quote s.

Definition all_ws (s : string) : bool := all_chars is_ws s.

Definition dollar_free (s : string) : bool :=
  all_chars (fun c => negb (Ascii.eqb c "$"%char)) s.

Fixpoint last_char (s : string) : option ascii :=
  match s with
  | EmptyString => None
  | String c EmptyString => Some c
  | String _ s' => last_char s'
  end.

Definition ends_ws (s : string) : bool :=
  match last_char s with
  | Some c => is_ws c
  | None => false
  end.

Definition ends_eq (s : string) : bool :=
  match last_char s with
  | Some c => Ascii.eqb c "="%char
  | None => false
  end.

(** A character of an attribute name: no white space, no double quote. *)
Definition name_char (c : ascii) : bool := negb (is_ws c) && not_quote c.

(** The attribute names the five patterns of transformWordPressPost end
    with. *)
Definition heads : list string := ["src"; "srcset"; "sizes"; "width"; "height"].

(** The four names whose attributes are removed. *)
Definition stripped : list string := ["srcset"; "sizes"; "width"; "height"].

(** A name is one of the five, in lower case, or ends with none of them in
    any letter case. *)
Definition name_ok (n : string) : bool :=
  all_chars name_char n
  && forallb (fun h => negb (Regex.ends_ci h n) || String.eqb n h) heads.

(** A value that is safe between double quotes and in a replacement text. *)
Definition plain (v : string) : bool :=
  quote_free v && dollar_free v && negb (ends_eq v).

(** The attribute is a reference the image pattern recognises. *)
Definition is_site (i : Item) : bool :=
  String.eqb (name i) "src" && Regex.url_shape (value i).

Definition wf_item (i : Item) : bool :=
  quote_free (pre i) && negb (ends_ws (pre i))
  && negb (String.eqb (sep i) EmptyString) && all_ws (sep i)
  && name_ok (name i)
  && quote_free (value i) && negb (ends_eq (value i))
  && (negb (is_site i) || dollar_free (value i)).

(** Double quotes only delimit attribute values. *)
Definition wf_body (items : list Item) (tail : string) : bool :=
  forallb wf_item items && quote_free tail.

(** The matches of the image pattern, as the attributes spell them. *)
Definition site_of (i : Item) : list (string * string) :=
  if is_site i then [("src=" +:+ DQ +:+ value i +:+ DQ, value i)] else [].

Definition sites (items : list Item) : list (string * string) := flat_map site_of items.

Definition set_value (i : Item) (v : string) : Item :=
  mkItem (pre i) (sep i) (name i) v.

(** The text the loop writes between the quotes of a reference. *)
Definition new_value (r : ImageResult) : string :=
  if truthy (localPath r) then default EmptyString (localPath r) else EmptyString.

(** The loop of transformWordPressPost on attributes: every recognised
    reference is resolved, in order, and takes the resolved value. *)
Fixpoint resolve (W : Platform) (items : list Item) : M (list Item) :=
  match items with
  | [] => ret []
  | i :: rest =>
      if is_site i
      then let* r := WordPress.downloadImage W (Some (value i)) in
           let* rest' := resolve W rest in
           ret (set_value i (new_value r) :: rest')
      else let* rest' := resolve W rest in
           ret (i :: rest')
  end.

(** Puts a text in front of a body. *)
Definition prepend (t : string) (b : list Item * string) : list Item * string :=
  match fst b with
  | [] => ([], t +:+ snd b)
  | j :: rest => (mkItem (t +:+ pre j) (sep j) (name j) (value j) :: rest, snd b)
  end.

(** Removes the attributes named [h], white space before them included. *)
Fixpoint omit (h : string) (items : list Item) (tail : string) : list Item * string :=
  match items with
  | [] => ([], tail)
  | i :: rest =>
      if String.eqb (name i) h
      then prepend (pre i) (omit h rest tail)
      else (i :: fst (omit h rest tail), snd (omit h rest tail))
  end.

Definition omit_all (b : list Item * string) : list Item * string :=
  let b1 := omit "srcset" (fst b) (snd b) in
  let b2 := omit "sizes" (fst b1) (snd b1) in
  let b3 := omit "width" (fst b2) (snd b2) in
  omit "height" (fst b3) (snd b3).

(** The attribute is no reference the Asset Cache would work on. *)
Definition settled (i : Item) : bool := negb (is_site i && eligible (value i)).

(** The file names the platform derives for the eligible references of a
    body are safe between double quotes and in a replacement text. *)
Definition names_plain (W : Platform) (items : list Item) : bool :=
  forallb (fun i => settled i
                    || match url_pathname W (value i) with
                       | Some p => plain (Path.basename p)
                       | None => true
                       end) items.

(** What the loop makes of one attribute: everything but the value is kept,
    and the value changes only for an eligible reference, to the local path
    of its final path segment or to the empty text. *)
Definition resolved (W : Platform) (i i' : Item) : Prop :=
  pre i' = pre i /\ sep i' = sep i /\ name i' = name i
  /\ (value i' = value i
      \/ (is_site i = true /\ eligible (value i) = true
          /\ (value i' = EmptyString
              \/ exists p, url_pathname W (value i) = Some p
                           /\ value i' = "/images/" +:+ Path.basename p))).

(** A found occurrence, with a text put in front of what precedes it. *)
Definition shifted (x : string) (o : option (string * string)) : option (string * string) :=
  match o with
  | Some (b, a) => Some (x +:+ b, a)
  | None => None
  end.

(** What the proofs use of the name in an attribute pattern. *)
Definition pattern_name (h : string) : Prop :=
  all_chars (fun p => name_char (Text.lower p)) (h +:+ "=") = true
  /\ (forall y, Regex.match_attr h (String "="%char y) = None)
  /\ (forall y, Regex.match_attr h (String Text.dquote y) = None)
  /\ (exists c h', h = String c h' /\ Text.is_ws c = false).

(** The parts of a well-formed attribute. *)
Record wf_parts (i : Item) : Prop := {
  wf_pre : quote_free (pre i) = true;
  wf_pre_end : ends_ws (pre i) = false;
  wf_sep : exists w s, sep i = String w s /\ Text.is_ws w = true;
  wf_sep_ws : all_ws (sep i) = true;
  wf_name : all_chars name_char (name i) = true;
  wf_name_head : forall h, In h heads -> Regex.ends_ci h (name i) = true -> name i = h;
  wf_value : quote_free (value i) = true;
  wf_value_end : ends_eq (value i) = false;
  wf_dollar : is_site i = true -> dollar_free (value i) = true
}.

End Markup.

(** ** Sample bodies *)

Module Sample.

Import Text Markup.

(** An image tag with a class, a reference to the origin and the four
    attributes of a responsive image. *)
Definition img : list Item :=
  [ mkItem "<p><img" " " "class" "x";
    mkItem EmptyString " " "src" "http://host.local/a.jpg";
    mkItem EmptyString " " "srcset" "http://host.local/a-300.jpg 300w";
    mkItem EmptyString " " "sizes" "100vw";
    mkItem EmptyString " " "width" "800";
    mkItem EmptyString " " "height" "600" ].

Definition close : string := "></p>".

(** What is left of the tag when the reference resolves to [v]. *)
Definition img_with (v : string) : string :=
  "<p><img class=" +:+ DQ +:+ "x" +:+ DQ +:+ " src=" +:+ DQ +:+ v +:+ DQ +:+ close.

(** A quoted value with an srcset attribute inside it. *)
Definition spliced : string :=
  "src=" +:+ DQ +:+ "http://x.local/a srcset=" +:+ DQ +:+ DQ +:+ ".jpg" +:+ DQ.

Definition src_of (v : string) : string := "src=" +:+ DQ +:+ v +:+ DQ.

(** A sizes attribute between the two halves of the name srcset. *)
Definition halved : string :=
  "<img srcs sizes=" +:+ DQ +:+ "1" +:+ DQ +:+ "et=" +:+ DQ +:+ "x" +:+ DQ +:+ ">".

Definition halved_out : string := "<img srcset=" +:+ DQ +:+ "x" +:+ DQ +:+ ">".

Definition once : Res string * State :=
  WordPress.rewrite Demo.online spliced Demo.empty.

End Sample.

(** ** src/data/posts-static.js *)

Module PostsStatic.

(** The value of new Date(text). *)
Inductive JsDate : Type := NewDate (text : string).

Section Stored.

(** The keys of a post and of its data that the functions of this file copy
    and never read. *)
Variables PostRest DataRest : Type.

(** post.data in posts.json ([D] is [string]) and in the posts the module
    serves ([D] is [JsDate]).  The key categories may be absent. *)
Record Data (D : Type) : Type := mkData {
  title : string;
  description : string;
  pubDate : D;
  categories : option (list Term);
  data_rest : DataRest
}.

Record Post (D : Type) : Type := mkPost {
  slug : string;
  data : Data D;
  post_rest : PostRest
}.

Arguments title {D} _.
Arguments description {D} _.
Arguments pubDate {D} _.
Arguments categories {D} _.
Arguments data_rest {D} _.
Arguments slug {D} _.
Arguments data {D} _.
Arguments post_rest {D} _.

(** String.prototype.toLowerCase on one code unit below 256: A-Z and the
    capital letters of Latin-1 (192-222 without the multiplication sign
    215) move up by 32. *)
Definition lower_unit (c : ascii) : ascii :=
  let n := nat_of_ascii c in
  if ((Nat.leb 65 n && Nat.leb n 90)
      || (Nat.leb 192 n && Nat.leb n 222 && negb (Nat.eqb n 215)))%bool
  then ascii_of_nat (n + 32) else c.

Fixpoint toLowerCase (s : string) : string :=
  match s with
  | EmptyString => EmptyString
  | String c s' => String (lower_unit c) (toLowerCase s')
  end.

(** postsData.map(post => ({ ...post, data: { ...post.data,
    pubDate: new Date(post.data.pubDate) } })) *)
Definition getStaticPosts (postsData : list (Post string)) : list (Post JsDate) :=
  map (fun post =>
         mkPost JsDate (slug post)
           (mkData JsDate (title (data post)) (description (data post))
              (NewDate (pubDate (data post)))
              (categories (data post)) (data_rest (data post)))
           (post_rest post))
      postsData.

(** post.data.categories?.some(cat =>
      cat.name.toLowerCase() === category.toLowerCase()),
    as the filter reads it: undefined counts as false. *)
Definition in_category (category : string) (post : Post JsDate) : bool :=
  match categories (data post) with
  | Some cats =>
      existsb (fun cat => String.eqb (toLowerCase (term_name cat)) (toLowerCase category)) cats
  | None => false
  end.

Definition getStaticPostsByCategory (postsData : list (Post string)) (category : string)
    : list (Post JsDate) :=
  List.filter (in_category category) (getStaticPosts postsData).

(** getStaticPosts().find(post => post.slug === slug) || null *)
Definition getStaticPostBySlug (postsData : list (Post string)) (s : string)
    : option (Post JsDate) :=
  List.find (fun post => String.eqb (slug post) s) (getStaticPosts postsData).

End Stored.

Arguments title {DataRest D} _.
Arguments description {DataRest D} _.
Arguments pubDate {DataRest D} _.
Arguments categories {DataRest D} _.
Arguments data_rest {DataRest D} _.
Arguments slug {PostRest DataRest D} _.
Arguments data {PostRest DataRest D} _.
Arguments post_rest {PostRest DataRest D} _.
Arguments mkData {DataRest D} _ _ _ _ _.
Arguments mkPost {PostRest DataRest D} _ _ _.
Arguments getStaticPosts {PostRest DataRest} _.
Arguments in_category {PostRest DataRest} _ _.
Arguments getStaticPostsByCategory {PostRest DataRest} _ _.
Arguments getStaticPostBySlug {PostRest DataRest} _ _.

End PostsStatic.

(** ** src/pages/rss.xml.js *)

(** The items GET hands to rss(): title, description and site are passed on
    from the constants of the site and from the request context, and the
    XML is the work of the rss package; neither is modelled. *)

Module Rss.

Record FeedItem (D : Type) : Type := mkFeedItem {
  item_title : string;
  item_description : string;
  item_pubDate : D;
  link : string
}.
Arguments mkFeedItem {D} _ _ _ _.
Arguments item_title {D} _.
Arguments item_description {D} _.
Arguments item_pubDate {D} _.
Arguments link {D} _.

(** `/archive/${post.slug}/` *)
Definition link_of (slug : string) : string := "/archive/" +:+ slug +:+ "/".

(** The revision that reads posts.json. *)
Definition items {PostRest DataRest : Type}
    (postsData : list (PostsStatic.Post PostRest DataRest string))
    : list (FeedItem PostsStatic.JsDate) :=
  map (fun post =>
         mkFeedItem (PostsStatic.title (PostsStatic.data post))
           (PostsStatic.description (PostsStatic.data post))
           (PostsStatic.pubDate (PostsStatic.data post))
           (link_of (PostsStatic.slug post)))
      (PostsStatic.getStaticPosts postsData).

(** The revision that asks WordPress on every request; the date is the
    argument of new Date, as in [AstroData]. *)
Definition live_items (W : Platform) : M (list (FeedItem string)) :=
  let* posts := WordPress.getWordPressPosts W in
  ret (map (fun post =>
              mkFeedItem (title (data post)) (description (data post)) (pubDate (data post))
                (link_of (slug post)))
           posts).

End Rss.

(** ** Vocabulary of the effects *)

(** Every run of [m], returning or throwing, takes a state to a state that
    [R] relates to it. *)
Definition keeps {A : Type} (R : State -> State -> Prop) (m : M A) : Prop :=
  forall st res st', m st = (res, st') -> R st st'.

(** The trace grows by events that satisfy [P]. *)
Definition adds (P : Event -> Prop) (st st' : State) : Prop :=
  exists evs, trace st' = trace st ++ evs /\ Forall P evs.

Definition no_slash (f : string) : bool := all_chars (fun c => negb (Path.is_slash c)) f.

(** A path path.join builds from one of the two image roots and a name
    without slash. *)
Definition in_images (p : string) : Prop :=
  exists f, no_slash f = true
            /\ (p = Path.join Path.publicImagesDir f \/ p = Path.join Path.distImagesDir f).

(** The same for the directory of the sidecars. *)
Definition in_meta (p : string) : Prop :=
  exists f, no_slash f = true /\ p = Path.join Path.metaDir f.

(** The events of wordpress.js after its query. *)
Definition wp_event (e : Event) : Prop :=
  match e with
  | EvFetch u => eligible u = true
  | EvMkdir d => d = Path.publicImagesDir \/ d = Path.distImagesDir
  | EvWrite p => in_images p
  | EvQuery | EvUnlink _ | EvExec _ _ => False
  end.

(** The events of sync-images.js after its query. *)
Definition sync_event (e : Event) : Prop :=
  match e with
  | EvFetch u => eligible u = true
  | EvMkdir d => d = Path.publicImagesDir \/ d = Path.distImagesDir \/ d = Path.metaDir
  | EvWrite p => in_images p \/ in_meta p
  | EvUnlink p => in_images p
  | EvExec input output => in_images input /\ in_images output
  | EvQuery => False
  end.

(** The directories wordpress.js creates. *)
Definition image_dirs : list string :=
  Path.chain Path.publicImagesDir ++ Path.chain Path.distImagesDir.

(** What a run of wordpress.js leaves of the file system: directories and
    files stay, new directories are image directories, and a file that
    path.join does not place under an image root keeps its content. *)
Definition wp_frame (st st' : State) : Prop :=
  (forall d, d ∈ dirs st -> d ∈ dirs st')
  /\ (forall d, d ∈ dirs st' -> d ∈ dirs st \/ In d image_dirs)
  /\ (forall p, is_Some (files st !! p) -> is_Some (files st' !! p))
  /\ (forall p, ~ in_images p -> files st' !! p = files st !! p).

(** The posts the content query delivers: none on any failure. *)
Definition answered (W : Platform) : list WpPost :=
  match graphql W with
  | QueryData (Some posts) => posts
  | _ => []
  end.

(** The posts with a featured image URL, which syncImages tallies. *)
Definition heroes (posts : list WpPost) : list WpPost :=
  List.filter (fun post => Text.truthy (SyncImages.heroUrl post)) posts.

Definition total (c : SyncImages.Counters) : Z :=
  SyncImages.processed c + SyncImages.skipped c + SyncImages.failed c.

(** No counter is negative. *)
Definition counted (c : SyncImages.Counters) : Prop :=
  0 <= SyncImages.processed c /\ 0 <= SyncImages.skipped c /\ 0 <= SyncImages.failed c.

(** What a transformed post carries over from the post it was made of. *)
Definition carries (wp : WpPost) (post : AstroPost) : Prop :=
  id post = wp_slug wp
  /\ slug post = wp_slug wp
  /\ title (data post) = wp_title wp
  /\ pubDate (data post) = wp_date wp
  /\ wpId (data post) = wp_id wp
  /\ categories (data post) = WordPress.term_list (wp_categories wp)
  /\ tags (data post) = WordPress.term_list (wp_tags wp)
  /\ imageWidth (data post) = WordPress.declared md_width wp
  /\ imageHeight (data post) = WordPress.declared md_height wp.

(** The description transformWordPressPost computes from an excerpt. *)
Definition clean_excerpt (excerpt : option string) : string :=
  if Text.truthy excerpt
  then Text.trim (Regex.strip_tags (default EmptyString excerpt))
  else EmptyString.

(** ** A site with one post, for the examples *)

Module Scene.

(** A published post with a featured image at the origin, an excerpt in
    markup and a body with one image tag. *)
Definition post : WpPost :=
  mkWpPost "cG9zdDox" "apollo" "Apollo"
    (Some (Markup.render Sample.img Sample.close))
    (Some "<p>First <b>steps</b></p> ")
    "2024-05-01T10:00:00"
    (Some (mkFeaturedImage (Some (mkMediaNode (Some Demo.rocket) None
                                    (Some (mkMediaDetails (Some 800) (Some 600)))))))
    (Some (mkAuthor (Some (mkAuthorNode (Some "jg")))))
    (Some (mkTermList (Some [mkTerm "Moon" "moon"])))
    None.

(** Every tool answers, and the content query delivers the post. *)
Definition site : Platform :=
  mkPlatform Demo.pathname
    (fun _ => FetchResponse true "RAW")
    (fun d => Some ("WEBP:" +:+ d))
    (fun _ => Some (8, 136, 248))
    (fun _ => Some (mkPalette (Some "#112233") None None None))
    (QueryData (Some [post]))
    (fun _ => "{}").

End Scene.

(** ** States of a resolution of sync-images.js *)

(** After the fetch of [u] and the creation of the three directories. *)
Definition prepared (u : string) (st : State) : State :=
  SyncImages.ensured Path.metaDir
    (SyncImages.ensured Path.distImagesDir
       (SyncImages.ensured Path.publicImagesDir (log (EvFetch u) st))).

(** After the download is written under both image roots. *)
Definition downloaded (n body : string) (st : State) : State :=
  Fs.written (Path.join Path.distImagesDir n) body
    (Fs.written (Path.join Path.publicImagesDir n) body st).

(** After the conversion block: two transcodings of [n] into [wn], then the
    deletion of the two files named [n]. *)
Definition converted (n wn w : string) (st : State) : State :=
  Fs.unlinked (Path.join Path.distImagesDir n)
    (Fs.unlinked (Path.join Path.publicImagesDir n)
       (transcoded (Path.join Path.distImagesDir n) (Path.join Path.distImagesDir wn) w
          (transcoded (Path.join Path.publicImagesDir n)
             (Path.join Path.publicImagesDir wn) w st))).

(** ** Two images of the origin, for the examples *)

Module Shots.

(** A name the extension pattern does not rewrite. *)
Definition badge : string := "http://spacezine.local/img/badge.gif".

(** The first resolution of the featured image in an empty checkout. *)
Definition first_run : Res ImageResult * State :=
  SyncImages.downloadAndConvertImage Demo.online (Some Demo.rocket) Demo.empty.

Definition badge_run : Res ImageResult * State :=
  SyncImages.downloadAndConvertImage Demo.online (Some badge) Demo.empty.

(** The same with the revision that returns the path alone. *)
Definition first_run0 : Res (option string) * State :=
  SyncImages0.downloadAndConvertImage Demo.online (Some Demo.rocket) Demo.empty.

(** The resolution of wordpress.js. *)
Definition plain_run : Res ImageResult * State :=
  WordPress.downloadImage Demo.online (Some Demo.rocket) Demo.empty.

End Shots.

(** A match of the image pattern: src= in any letter case, a double quote,
    the captured URL, a double quote; the URL holds no double quote, begins
    with http:// or https:// and ends with one of the five extensions. *)
Definition reference (fullMatch imageUrl : string) : Prop :=
  Regex.url_shape imageUrl = true
  /\ Markup.quote_free imageUrl = true
  /\ exists q, Text.equal_ci ("src=" +:+ Text.DQ) q = true
               /\ fullMatch = q +:+ imageUrl +:+ Text.DQ.

(** wpPost.featuredImage?.node?.sourceUrl *)
Definition featured_url (post : WpPost) : option string :=
  match WordPress.mediaNode post with
  | Some n => sourceUrl n
  | None => None
  end.

(** ** A post whose images are not at the origin *)

Module Abroad.

Definition body : string :=
  "<p><img src=" +:+ Text.DQ +:+ "https://cdn.example.com/moon.png" +:+ Text.DQ +:+ "></p>".

Definition post : WpPost :=
  mkWpPost "cG9zdDoy" "moon" "Moon"
    (Some body)
    (Some "The far side")
    "2024-06-01T09:00:00"
    (Some (mkFeaturedImage (Some (mkMediaNode (Some "https://cdn.example.com/moon.png")
                                    None None))))
    None None None.

End Abroad.

(** ** The main function of the revision of sync-images.js without colours *)

Module SyncImages0Main.

Import Text.

(** result && result.includes('/images/'), else result, else neither. *)
Definition tally (result : option string) (c : SyncImages.Counters) : SyncImages.Counters :=
  if truthy result && includes "/images/" (default EmptyString result)
  then SyncImages.mkCounters (SyncImages.processed c + 1) (SyncImages.skipped c)
         (SyncImages.failed c)
  else if truthy result
  then SyncImages.mkCounters (SyncImages.processed c) (SyncImages.skipped c + 1)
         (SyncImages.failed c)
  else SyncImages.mkCounters (SyncImages.processed c) (SyncImages.skipped c)
         (SyncImages.failed c + 1).

Fixpoint each_inline (W : Platform) (images : list (string * string)) : M unit :=
  match images with
  | [] => ret tt
  | (_, imageUrl) :: rest =>
      let* _ := SyncImages0.downloadAndConvertImage W (Some imageUrl) in
      each_inline W rest
  end.

Fixpoint each_post (W : Platform) (posts : list WpPost) (c : SyncImages.Counters)
    : M SyncImages.Counters :=
  match posts with
  | [] => ret c
  | post :: rest =>
      let* c1 :=
        (if truthy (SyncImages.heroUrl post)
         then let* result := SyncImages0.downloadAndConvertImage W (SyncImages.heroUrl post) in
              ret (tally result c)
         else ret c) in
      let* _ :=
        (if truthy (wp_content post)
         then each_inline W (Regex.matchAll (default EmptyString (wp_content post)))
         else ret tt) in
      each_post W rest c1
  end.

(** The exit code of the process and the tally, when the run reaches it. *)
Definition syncImages (W : Platform) : M (Z * option SyncImages.Counters) :=
  let* posts := SyncImages.fetchWordPressPosts W in
  if Nat.eqb (length posts) 0 then ret (1, None)
  else
    let* c := each_post W posts (SyncImages.mkCounters 0 0 0) in
    ret (0, Some c).

End SyncImages0Main.

(** * Properties *)

(** ** Helper lemmas on text *)

Lemma append_nil_r (s : string) : s +:+ EmptyString = s.
Proof. induction s as [|c s IH]; simpl; [reflexivity | now rewrite IH]. Qed.

Lemma append_assoc (a b c : string) : (a +:+ b) +:+ c = a +:+ (b +:+ c).
Proof. induction a as [|x a IH]; simpl; [reflexivity | now rewrite IH]. Qed.

Lemma length_append (a b : string) :
  String.length (a +:+ b) = (String.length a + String.length b)%nat.
Proof. induction a as [|x a IH]; simpl; [reflexivity | now rewrite IH]. Qed.

(** ** Colours *)

Lemma channel_hex_hex2 (x : Z) : is_channel x -> SyncImages.channel_hex x = hex2 x.
Proof.
  intros [Hlo Hhi].
  assert (Hall : forallb (fun n => String.eqb (SyncImages.channel_hex (Z.of_nat n))
                                     (hex2 (Z.of_nat n))) (seq 0 256) = true)
    by (vm_compute; reflexivity).
  rewrite forallb_forall in Hall.
  specialize (Hall (Z.to_nat x)).
  rewrite Z2Nat.id in Hall by lia.
  apply String.eqb_eq, Hall, in_seq. lia.
Qed.

Lemma hex2_digits (x : Z) :
  is_channel x -> String.length (hex2 x) = 2%nat /\ all_chars is_lower_hex (hex2 x) = true.
Proof.
  intros [Hlo Hhi]. split; [reflexivity|].
  assert (Hall : forallb (fun n => all_chars is_lower_hex (hex2 (Z.of_nat n))) (seq 0 256) = true)
    by (vm_compute; reflexivity).
  rewrite forallb_forall in Hall.
  specialize (Hall (Z.to_nat x)).
  rewrite Z2Nat.id in Hall by lia.
  apply Hall, in_seq. lia.
Qed.

Lemma all_chars_append (P : ascii -> bool) (a b : string) :
  all_chars P (a +:+ b) = all_chars P a && all_chars P b.
Proof.
  induction a as [|c a IH]; simpl; [reflexivity|].
  rewrite IH. now rewrite andb_assoc.
Qed.

Lemma rgb_hex_format (r g b : Z) :
  is_channel r -> is_channel g -> is_channel b ->
  SyncImages.rgb_hex r g b = "#" +:+ hex2 r +:+ hex2 g +:+ hex2 b
  /\ is_hex_color (SyncImages.rgb_hex r g b) = true.
Proof.
  intros Hr Hg Hb. unfold SyncImages.rgb_hex.
  rewrite !channel_hex_hex2 by assumption. split; [reflexivity|].
  destruct (hex2_digits r Hr) as [Lr Ar], (hex2_digits g Hg) as [Lg Ag],
    (hex2_digits b Hb) as [Lb Ab].
  change ("#" +:+ hex2 r +:+ hex2 g +:+ hex2 b)
    with (String "#"%char (hex2 r +:+ hex2 g +:+ hex2 b)).
  unfold is_hex_color.
  rewrite !length_append, Lr, Lg, Lb, !all_chars_append, Ar, Ag, Ab.
  reflexivity.
Qed.

(** The extractor never throws and never changes the state; a colour it
    returns is the rendering of what sharp reported for the file. *)
Lemma extractDominantColor_spec (W : Platform) (p : string) (st : State) :
  exists c, SyncImages.extractDominantColor W p st = (Val c, st)
    /\ (c = None
        \/ exists d r g b, files st !! p = Some d /\ sharp_dominant W d = Some (r, g, b)
                           /\ c = Some (SyncImages.rgb_hex r g b)).
Proof.
  unfold SyncImages.extractDominantColor, try_catch, bind, Fs.readFile, ret, throw.
  destruct (files st !! p) as [d|] eqn:Hd; [|eexists; split; [reflexivity | now left]].
  destruct (sharp_dominant W d) as [[[r g] b]|] eqn:Hs.
  - eexists; split; [reflexivity|]. right. now exists d, r, g, b.
  - eexists; split; [reflexivity | now left].
Qed.

(** ** Reasoning about runs *)

Lemma bind_val {A B : Type} (m : M A) (k : A -> M B) (st st1 : State) (a : A) :
  m st = (Val a, st1) -> bind m k st = k a st1.
Proof. unfold bind. now intros ->. Qed.

Lemma bind_exn {A B : Type} (m : M A) (k : A -> M B) (st st1 : State) :
  m st = (Exn, st1) -> bind m k st = (Exn, st1).
Proof. unfold bind. now intros ->. Qed.

Lemma bind_inv {A B : Type} (m : M A) (k : A -> M B) (st st' : State) (b : B) :
  bind m k st = (Val b, st') ->
  exists a st1, m st = (Val a, st1) /\ k a st1 = (Val b, st').
Proof.
  unfold bind. destruct (m st) as [[a|] st1]; [|discriminate].
  intros H. now exists a, st1.
Qed.

Lemma try_catch_inv {A : Type} (m h : M A) (st st' : State) (a : A) :
  try_catch m h st = (Val a, st') ->
  m st = (Val a, st') \/ exists st1, m st = (Exn, st1) /\ h st1 = (Val a, st').
Proof.
  unfold try_catch. destruct (m st) as [[x|] st1]; intros H.
  - now left.
  - right. now exists st1.
Qed.

Lemma try_catch_val {A : Type} (m h : M A) (st st1 : State) (a : A) :
  m st = (Val a, st1) -> try_catch m h st = (Val a, st1).
Proof. unfold try_catch. now intros ->. Qed.

Lemma try_catch_exn {A : Type} (m h : M A) (st st1 : State) :
  m st = (Exn, st1) -> try_catch m h st = h st1.
Proof. unfold try_catch. now intros ->. Qed.

(** A handler that returns makes the whole block return. *)
Lemma try_catch_total {A : Type} (m : M A) (d : A) (st : State) :
  exists a st', try_catch m (ret d) st = (Val a, st').
Proof.
  unfold try_catch, ret. destruct (m st) as [[a|] st1]; eauto.
Qed.

Ltac inv_bind H :=
  let a := fresh "a" in
  let s := fresh "st" in
  let E := fresh "E" in
  apply bind_inv in H as (a & s & E & H).

(** The colour a resolution returns is absent or the rendering of what
    sharp reported. *)
Lemma downloadAndConvertImage_color (W : Platform) (url : option string) (st st' : State)
    (r : ImageResult) :
  SyncImages.downloadAndConvertImage W url st = (Val r, st') ->
  resultColor r = None
  \/ exists d x y z, sharp_dominant W d = Some (x, y, z)
                     /\ resultColor r = Some (SyncImages.rgb_hex x y z).
Proof.
  unfold SyncImages.downloadAndConvertImage.
  destruct (not_local url); [intros [= <- <-]; now left|].
  intros H. apply try_catch_inv in H as [H|(st1 & _ & [= <- <-])]; [|now left].
  inv_bind H. inv_bind H.
  destruct a0.
  - inv_bind H.
    destruct (extractDominantColor_spec W
                (Path.join Path.publicImagesDir (SyncImages.webpFileName (Path.basename a))) st1)
      as (c & Ec & Hc).
    rewrite Ec in E1. injection E1 as <- <-.
    inv_bind H. injection H as <- <-. simpl.
    destruct Hc as [->|(d & x & y & z & _ & Hs & ->)]; [now left|right; now exists d, x, y, z].
  - inv_bind H.
    destruct (negb (fst a0)); [injection H as <- <-; now left|].
    do 6 inv_bind H.
    destruct (negb a6); [injection H as <- <-; now left|].
    inv_bind H.
    destruct (extractDominantColor_spec W
                (Path.join Path.publicImagesDir (SyncImages.webpFileName (Path.basename a))) st8)
      as (c & Ec & Hc).
    rewrite Ec in E8. injection E8 as <- <-.
    inv_bind H. injection H as <- <-. simpl.
    destruct Hc as [->|(d & x & y & z & _ & Hs & ->)]; [now left|right; now exists d, x, y, z].
Qed.

Lemma palette_color_swatch (p : Palette) (c : string) :
  WordPress.palette_color p = Some c ->
  In (Some c) [Vibrant p; DarkVibrant p; Muted p; DarkMuted p].
Proof.
  unfold WordPress.palette_color, WordPress.js_or. simpl.
  destruct (Text.truthy (Vibrant p)); [intros ->; auto|].
  destruct (Text.truthy (DarkVibrant p)); [intros ->; auto|].
  destruct (Text.truthy (Muted p)); [intros ->; auto|].
  destruct (Text.truthy (DarkMuted p)); [intros ->; auto 6|discriminate].
Qed.

(** The colour downloadImage returns is absent or a swatch of the palette
    node-vibrant reported. *)
Lemma downloadImage_color (W : Platform) (url : option string) (st st' : State)
    (r : ImageResult) :
  WordPress.downloadImage W url st = (Val r, st') ->
  resultColor r = None
  \/ exists d p, vibrant_palette W d = Some p /\ resultColor r = WordPress.palette_color p.
Proof.
  unfold WordPress.downloadImage.
  destruct (not_local url); [intros [= <- <-]; now left|].
  intros H. apply try_catch_inv in H as [H|(st1 & _ & [= <- <-])]; [|now left].
  inv_bind H.
  destruct (negb (fst a)); [injection H as <- <-; now left|].
  do 6 inv_bind H. injection H as <- <-. simpl.
  apply try_catch_inv in E5 as [E5|(st7 & _ & [= <- <-])]; [|now left].
  inv_bind E5.
  destruct (vibrant_palette W a6) as [p|] eqn:Hp; [|discriminate].
  injection E5 as <- <-. right. now exists a6, p.
Qed.

Section Colours.

Variable W : Platform.

(** sharp reports 8-bit channels. *)
Hypothesis sharp_channels :
  forall d r g b, sharp_dominant W d = Some (r, g, b) ->
                  is_channel r /\ is_channel g /\ is_channel b.

(** node-vibrant reports its swatches as '#' and six lowercase digits. *)
Hypothesis vibrant_hex :
  forall d p c, vibrant_palette W d = Some p ->
                In (Some c) [Vibrant p; DarkVibrant p; Muted p; DarkMuted p] ->
                is_hex_color c = true.


End Colours.


(** ** The cached filename *)

Lemma equal_ci_lower (p s : string) :
  Text.equal_ci p s = true <-> lower_all p = lower_all s.
Proof.
  revert s. induction p as [|a p IH]; intros [|b s]; simpl; try easy.
  unfold Text.eqb_ci. rewrite andb_true_iff, Ascii.eqb_eq, IH.
  split; [intros [-> ->]; reflexivity | intros [= -> ->]; auto].
Qed.

Lemma lower_all_append (a b : string) :
  lower_all (a +:+ b) = lower_all a +:+ lower_all b.
Proof. induction a as [|c a IH]; simpl; [reflexivity | now rewrite IH]. Qed.

Lemma ext_here_cases (s : string) :
  Regex.ext_here s = true ->
  lower_all s = ".jpg" \/ lower_all s = ".jpeg" \/ lower_all s = ".png".
Proof.
  unfold Regex.ext_here. rewrite !orb_true_iff, !equal_ci_lower.
  intros [[H|H]|H]; rewrite <- H; auto.
Qed.

Lemma ext_here_false (s : string) :
  lower_all s <> ".jpg" -> lower_all s <> ".jpeg" -> lower_all s <> ".png" ->
  Regex.ext_here s = false.
Proof.
  intros H1 H2 H3. destruct (Regex.ext_here s) eqn:E; [|reflexivity].
  apply ext_here_cases in E as [E|[E|E]]; contradiction.
Qed.

Lemma length_lower_all (s : string) : String.length (lower_all s) = String.length s.
Proof. induction s as [|c s IH]; simpl; [reflexivity | now rewrite IH]. Qed.

Lemma length_zero (s : string) : String.length s = 0%nat -> s = EmptyString.
Proof. destruct s; [reflexivity | discriminate]. Qed.

(** The pattern is anchored at the end of the name: it matches at one
    position at most. *)
Lemma ext_here_later (c : ascii) (stem ext : string) :
  Regex.ext_here ext = true -> Regex.ext_here (String c (stem +:+ ext)) = false.
Proof.
  intros H. apply ext_here_cases in H.
  assert (L : String.length (lower_all (String c (stem +:+ ext)))
              = S (String.length stem + String.length (lower_all ext)))
    by (rewrite !length_lower_all; simpl; now rewrite length_append).
  apply ext_here_false; intros E; rewrite E in L;
    destruct H as [H|[H|H]]; rewrite H in L; simpl in L; try lia;
    assert (stem = EmptyString) by (apply length_zero; lia); subst stem;
    simpl in E; rewrite H in E; discriminate E.
Qed.

Lemma replace_ext_suffix (stem ext : string) :
  Regex.ext_here ext = true -> Regex.replace_ext (stem +:+ ext) = stem +:+ ".webp".
Proof.
  intros H. induction stem as [|c stem IH].
  - destruct ext as [|e ext]; [discriminate H|].
    change (EmptyString +:+ String e ext) with (String e ext).
    unfold Regex.replace_ext. now rewrite H.
  - change (String c stem +:+ ext) with (String c (stem +:+ ext)).
    change (Regex.replace_ext (String c (stem +:+ ext)))
      with (if Regex.ext_here (String c (stem +:+ ext)) then ".webp"
            else String c (Regex.replace_ext (stem +:+ ext))).
    rewrite ext_here_later by exact H. now rewrite IH.
Qed.

Lemma replace_ext_other (f : string) :
  Regex.ends_ci ".jpg" f || Regex.ends_ci ".jpeg" f || Regex.ends_ci ".png" f = false ->
  Regex.replace_ext f = f.
Proof.
  induction f as [|c f IH]; [reflexivity|].
  change (Regex.replace_ext (String c f))
    with (if Regex.ext_here (String c f) then ".webp" else String c (Regex.replace_ext f)).
  intros H. apply orb_false_iff in H as [H H3]. apply orb_false_iff in H as [H1 H2].
  change (Text.equal_ci ".jpg" (String c f) || Regex.ends_ci ".jpg" f = false) in H1.
  change (Text.equal_ci ".jpeg" (String c f) || Regex.ends_ci ".jpeg" f = false) in H2.
  change (Text.equal_ci ".png" (String c f) || Regex.ends_ci ".png" f = false) in H3.
  apply orb_false_iff in H1 as [A1 B1], H2 as [A2 B2], H3 as [A3 B3].
  unfold Regex.ext_here. rewrite A1, A2, A3. simpl.
  rewrite IH; [reflexivity|]. now rewrite B1, B2, B3.
Qed.

(** A name that ends in an extension the pattern does not list is kept. *)
Lemma replace_ext_kept (stem ext : string) :
  (forall c pre, Regex.ext_here (String c (pre +:+ ext)) = false) ->
  Regex.replace_ext ext = ext ->
  Regex.replace_ext (stem +:+ ext) = stem +:+ ext.
Proof.
  intros Hno Hbase. induction stem as [|c stem IH]; [exact Hbase|].
  change (String c stem +:+ ext) with (String c (stem +:+ ext)).
  change (Regex.replace_ext (String c (stem +:+ ext)))
    with (if Regex.ext_here (String c (stem +:+ ext)) then ".webp"
          else String c (Regex.replace_ext (stem +:+ ext))).
  now rewrite Hno, IH.
Qed.

Lemma ext_here_not_listed (ext : string) (c : ascii) (pre : string) :
  String.length ext = 4%nat \/ String.length ext = 5%nat ->
  Regex.ext_here ext = false ->
  (forall x, lower_all (String x ext) <> ".jpeg") ->
  Regex.ext_here (String c (pre +:+ ext)) = false.
Proof.
  intros Hlen Hext Hone.
  assert (L : String.length (lower_all (String c (pre +:+ ext)))
              = S (String.length pre + String.length ext))
    by (rewrite !length_lower_all; simpl; now rewrite length_append).
  apply ext_here_false; intros E; rewrite E in L; simpl in L; try lia.
  assert (pre = EmptyString) by (apply length_zero; lia). subst pre.
  now apply (Hone c).
Qed.

Lemma replace_ext_gif (stem : string) :
  Regex.replace_ext (stem +:+ ".gif") = stem +:+ ".gif".
Proof.
  apply replace_ext_kept; [|reflexivity].
  intros c pre. apply ext_here_not_listed; [now left | reflexivity |].
  intros x. simpl. discriminate.
Qed.

Lemma replace_ext_webp (stem : string) :
  Regex.replace_ext (stem +:+ ".webp") = stem +:+ ".webp".
Proof.
  apply replace_ext_kept; [|reflexivity].
  intros c pre. apply ext_here_not_listed; [now right | reflexivity |].
  intros x. simpl. discriminate.
Qed.

Lemma eligible_not_local (u : string) : eligible u = true -> not_local (Some u) = false.
Proof. unfold eligible. now destruct (not_local (Some u)). Qed.

Lemma pathname_step {A : Type} (W : Platform) (u p : string) (k : string -> M A) (st : State) :
  url_pathname W u = Some p ->
  bind (match url_pathname W u with Some q => ret q | None => throw end) k st = k p st.
Proof. now intros ->. Qed.

(** The local path of a resolution names the file after the URL path's
    final segment: the transcoded name, or the raw name when transcoding
    failed. *)
Lemma downloadAndConvertImage_path (W : Platform) (u p : string) (st st' : State)
    (r : ImageResult) :
  eligible u = true ->
  url_pathname W u = Some p ->
  SyncImages.downloadAndConvertImage W (Some u) st = (Val r, st') ->
  localPath r = None
  \/ localPath r = Some ("/images/" +:+ SyncImages.webpFileName (Path.basename p))
  \/ localPath r = Some ("/images/" +:+ Path.basename p).
Proof.
  intros He Hp. unfold SyncImages.downloadAndConvertImage.
  rewrite (eligible_not_local u He). simpl default.
  intros H. apply try_catch_inv in H as [H|(st1 & _ & [= <- <-])]; [|now left].
  rewrite (pathname_step W u p _ st Hp) in H.
  inv_bind H. destruct a.
  - do 2 inv_bind H. injection H as <- <-. right; now left.
  - inv_bind H.
    destruct (negb (fst a)); [injection H as <- <-; now left|].
    do 6 inv_bind H.
    destruct (negb a5); [injection H as <- <-; right; now right|].
    do 2 inv_bind H. injection H as <- <-. right; now left.
Qed.

(** C3 (as amended). The cached filename of sync-images.js is the final
    segment of the URL path in which a trailing .jpg, .jpeg or .png, in any
    letter case, is replaced by .webp; every other name is kept as it is, in
    particular one that ends in .gif or .webp.  Every local path a resolution
    returns is built from that name, or from the unchanged final segment when
    transcoding failed. *)
Theorem cached_filename (W : Platform) (u p : string) (st : State) (stem ext : string) :
  (Regex.ext_here ext = true ->
   SyncImages.webpFileName (stem +:+ ext) = stem +:+ ".webp")
  /\ (Regex.ends_ci ".jpg" stem || Regex.ends_ci ".jpeg" stem || Regex.ends_ci ".png" stem
      = false ->
      SyncImages.webpFileName stem = stem)
  /\ SyncImages.webpFileName (stem +:+ ".gif") = stem +:+ ".gif"
  /\ SyncImages.webpFileName (stem +:+ ".webp") = stem +:+ ".webp"
  /\ (eligible u = true -> url_pathname W u = Some p ->
      forall r, fst (SyncImages.downloadAndConvertImage W (Some u) st) = Val r ->
        localPath r = None
        \/ localPath r = Some ("/images/" +:+ SyncImages.webpFileName (Path.basename p))
        \/ localPath r = Some ("/images/" +:+ Path.basename p)).
Proof.
  unfold SyncImages.webpFileName. repeat split.
  - apply replace_ext_suffix.
  - apply replace_ext_other.
  - apply replace_ext_gif.
  - apply replace_ext_webp.
  - intros He Hp r Hr.
    destruct (SyncImages.downloadAndConvertImage W (Some u) st) as [res st'] eqn:E.
    simpl in Hr. subst res.
    exact (downloadAndConvertImage_path W u p st st' r He Hp E).
Qed.

(** C3 as stated fails: a .gif asset keeps its name, where the stated rule
    would name the cached file a.webp. *)
Lemma cached_filename_counterexample :
  eligible "http://x.local/wp/a.gif" = true
  /\ Demo.pathname "http://x.local/wp/a.gif" = Some "/wp/a.gif"
  /\ Regex.has_image_ext (Path.basename "/wp/a.gif") = true
  /\ SyncImages.webpFileName (Path.basename "/wp/a.gif") = "a.gif"
  /\ spec_target_name (Path.basename "/wp/a.gif") = "a.webp"
  /\ SyncImages.webpFileName (Path.basename "/wp/a.gif")
     <> spec_target_name (Path.basename "/wp/a.gif")
  /\ localPath <$> (match fst (SyncImages.downloadAndConvertImage Demo.online
                                 (Some "http://x.local/wp/a.gif") Demo.empty) with
                    | Val r => Some r
                    | Exn => None
                    end) = Some (Some "/images/a.gif").
Proof.
  repeat split; try (vm_compute; reflexivity).
  vm_compute. discriminate.
Qed.

(** ** Pass-through *)



(** ** Totality and defaults of the transformation *)

Lemma downloadImage_total (W : Platform) (url : option string) (st : State) :
  exists r st', WordPress.downloadImage W url st = (Val r, st').
Proof.
  unfold WordPress.downloadImage. destruct (not_local url).
  - now eexists _, _.
  - apply try_catch_total.
Qed.

Lemma substitute_total (W : Platform) (images : list (string * string)) :
  forall content st, exists c st', WordPress.substitute W images content st = (Val c, st').
Proof.
  induction images as [|[full url] rest IH]; intros content st.
  - now exists content, st.
  - simpl. destruct (downloadImage_total W (Some url) st) as (r & st1 & E).
    rewrite (bind_val _ _ st st1 r E). apply IH.
Qed.

Lemma rewrite_total (W : Platform) (content : string) (st : State) :
  exists c st', WordPress.rewrite W content st = (Val c, st').
Proof.
  unfold WordPress.rewrite.
  destruct (substitute_total W (Regex.matchAll content) content st) as (c & st1 & E).
  rewrite (bind_val _ _ st st1 c E). now eexists _, _.
Qed.

(** C10. transformWordPressPost returns a record for every post, whatever
    optional field is missing: an absent excerpt gives the empty
    description, an absent featured image (or one without node) gives null
    hero image, width, height and colour, absent categories or tags give
    empty lists, and id and slug are both the slug of the post. *)
Theorem transform_defaults (W : Platform) (wpPost : WpPost) (st : State) :
  exists post st',
    WordPress.transformWordPressPost W wpPost st = (Val post, st')
    /\ id post = wp_slug wpPost
    /\ slug post = wp_slug wpPost
    /\ (wp_excerpt wpPost = None -> description (data post) = EmptyString)
    /\ (wp_featuredImage wpPost = None
        \/ (exists fi, wp_featuredImage wpPost = Some fi /\ fi_node fi = None) ->
        heroImage (data post) = None
        /\ imageWidth (data post) = None
        /\ imageHeight (data post) = None
        /\ dominantColor (data post) = None)
    /\ (wp_categories wpPost = None -> categories (data post) = [])
    /\ (wp_tags wpPost = None -> tags (data post) = []).
Proof.
  unfold WordPress.transformWordPressPost.
  set (hero := WordPress.js_or _ None).
  assert (Hhero : exists r st1,
             (if Text.truthy hero then WordPress.downloadImage W hero
              else ret SyncImages.no_result) st = (Val r, st1)
             /\ (WordPress.mediaNode wpPost = None ->
                 r = SyncImages.no_result /\ st1 = st)).
  { destruct (WordPress.mediaNode wpPost) as [n|] eqn:En.
    - destruct (Text.truthy hero).
      + destruct (downloadImage_total W hero st) as (r & st1 & E).
        exists r, st1. split; [exact E | discriminate].
      + exists SyncImages.no_result, st. split; [reflexivity | discriminate].
    - subst hero. simpl.
      exists SyncImages.no_result, st. now split. }
  destruct Hhero as (r & st1 & E1 & Hnone).
  rewrite (bind_val _ _ st st1 r E1).
  assert (Hbody : exists c st2,
             (if Text.truthy (wp_content wpPost)
              then let* c := WordPress.rewrite W (default EmptyString (wp_content wpPost))
                   in ret (Some c)
              else ret (wp_content wpPost)) st1 = (Val c, st2)
             /\ (wp_content wpPost = None -> c = None /\ st2 = st1)).
  { destruct (wp_content wpPost) as [body|] eqn:Eb.
    - destruct (Text.truthy (Some body)).
      + destruct (rewrite_total W (default EmptyString (Some body)) st1) as (c & st2 & E).
        rewrite (bind_val _ _ st1 st2 c E). exists (Some c), st2.
        split; [reflexivity | discriminate].
      + exists (Some body), st1. split; [reflexivity | discriminate].
    - exists None, st1. now split. }
  destruct Hbody as (c & st2 & E2 & Hc).
  rewrite (bind_val _ _ st1 st2 c E2).
  eexists _, st2. split; [reflexivity|].
  cbn [id slug data description heroImage imageWidth imageHeight dominantColor categories tags].
  assert (Hnode : wp_featuredImage wpPost = None
                  \/ (exists fi, wp_featuredImage wpPost = Some fi /\ fi_node fi = None) ->
                  WordPress.mediaNode wpPost = None).
  { unfold WordPress.mediaNode. intros [->|(fi & -> & ->)]; reflexivity. }
  repeat split.
  - now intros ->.
  - apply Hnode, Hnone in H. now destruct H as [-> _].
  - unfold WordPress.declared. now rewrite (Hnode H).
  - unfold WordPress.declared. now rewrite (Hnode H).
  - apply Hnode, Hnone in H. now destruct H as [-> _].
  - now intros ->.
  - now intros ->.
Qed.

(** ** Stepping through a resolution *)

Lemma fetches_app (a b : list Event) : fetches (a ++ b) = (fetches a + fetches b)%nat.
Proof. induction a as [|[] a IH]; simpl; auto. Qed.

Lemma execs_app (a b : list Event) : execs (a ++ b) = (execs a + execs b)%nat.
Proof. induction a as [|[] a IH]; simpl; auto. Qed.

Lemma existsSync_step {A : Type} (p : string) (k : bool -> M A) (st : State) :
  bind (Fs.existsSync p) k st = k (Fs.exists_at st p) st.
Proof. reflexivity. Qed.

Lemma fetch_step {A : Type} (W : Platform) (u body : string) (ok : bool)
    (k : bool * string -> M A) (st : State) :
  http_get W u = FetchResponse ok body ->
  bind (fetch W u) k st = k (ok, body) (log (EvFetch u) st).
Proof. unfold bind, fetch. now intros ->. Qed.

Lemma ensure_dir_run (d : string) (st : State) :
  SyncImages.ensure_dir d st = (Val tt, SyncImages.ensured d st).
Proof.
  unfold SyncImages.ensure_dir, SyncImages.ensured, bind, Fs.existsSync, when.
  now destruct (Fs.exists_at st d).
Qed.

Lemma ensure_dir_step {A : Type} (d : string) (k : unit -> M A) (st : State) :
  bind (SyncImages.ensure_dir d) k st = k tt (SyncImages.ensured d st).
Proof. apply bind_val, ensure_dir_run. Qed.

Lemma files_ensured (d : string) (st : State) : files (SyncImages.ensured d st) = files st.
Proof. unfold SyncImages.ensured. now destruct (Fs.exists_at st d). Qed.

Lemma dirs_ensured (d x : string) (st : State) :
  x ∈ dirs (SyncImages.ensured d st) -> x ∈ dirs st \/ In x (Path.chain d).
Proof.
  unfold SyncImages.ensured. destruct (Fs.exists_at st d); [now left|].
  simpl. rewrite elem_of_union, elem_of_list_to_set, list_elem_of_In. tauto.
Qed.

Lemma dirs_ensured_mono (d x : string) (st : State) :
  x ∈ dirs st -> x ∈ dirs (SyncImages.ensured d st).
Proof.
  unfold SyncImages.ensured. destruct (Fs.exists_at st d); [easy|].
  simpl. rewrite elem_of_union. now right.
Qed.

Lemma write_step {A : Type} (p data : string) (k : unit -> M A) (st : State) :
  p ∉ dirs st ->
  bind (Fs.writeFileSync p data) k st = k tt (Fs.written p data st).
Proof.
  intros H. unfold bind, Fs.writeFileSync. now rewrite bool_decide_eq_false_2.
Qed.

Lemma exec_fail (W : Platform) (input output d : string) (st : State) :
  files st !! input = Some d -> cwebp W d = None ->
  exec_cwebp W input output st = (Exn, log (EvExec input output) st).
Proof. unfold exec_cwebp. now intros -> ->. Qed.

Lemma exec_ok (W : Platform) (input output d w : string) (st : State) :
  files st !! input = Some d -> cwebp W d = Some w ->
  exec_cwebp W input output st = (Val tt, transcoded input output w st).
Proof. unfold exec_cwebp. now intros -> ->. Qed.

(** After the three cache directories are ensured, a path that was not a
    directory is still none. *)
Lemma not_a_dir_ensured (st : State) (p : string) :
  not_a_dir st p ->
  p ∉ dirs (SyncImages.ensured Path.metaDir
              (SyncImages.ensured Path.distImagesDir
                 (SyncImages.ensured Path.publicImagesDir st))).
Proof.
  intros [Hd Hc] Hin. unfold cache_dirs in Hc. rewrite !in_app_iff in Hc.
  apply dirs_ensured in Hin as [Hin|Hin]; [|tauto].
  apply dirs_ensured in Hin as [Hin|Hin]; [|tauto].
  apply dirs_ensured in Hin as [Hin|Hin]; tauto.
Qed.

(** ** Degradation when transcoding fails *)

Lemma downloadAndConvertImage_total (W : Platform) (url : option string) (st : State) :
  exists r st', SyncImages.downloadAndConvertImage W url st = (Val r, st').
Proof.
  unfold SyncImages.downloadAndConvertImage. destruct (not_local url).
  - now eexists _, _.
  - apply try_catch_total.
Qed.

Lemma each_inline_total (W : Platform) (images : list (string * string)) :
  forall st, exists st', SyncImages.each_inline W images st = (Val tt, st').
Proof.
  induction images as [|[full url] rest IH]; intros st.
  - now exists st.
  - simpl. destruct (downloadAndConvertImage_total W (Some url) st) as (r & st1 & E).
    rewrite (bind_val _ _ st st1 r E). apply IH.
Qed.

(** No outcome of a resolution stops the loop over the posts. *)
Lemma each_post_total (W : Platform) (posts : list WpPost) :
  forall c st, exists c' st', SyncImages.each_post W posts c st = (Val c', st').
Proof.
  induction posts as [|post rest IH]; intros c st.
  - now exists c, st.
  - simpl.
    assert (H1 : exists c1 st1,
               (if Text.truthy (SyncImages.heroUrl post)
                then let* result := SyncImages.downloadAndConvertImage W (SyncImages.heroUrl post)
                     in ret (SyncImages.tally result c)
                else ret c) st = (Val c1, st1)).
    { destruct (Text.truthy (SyncImages.heroUrl post)); [|now eexists _, _].
      destruct (downloadAndConvertImage_total W (SyncImages.heroUrl post) st) as (r & st1 & E).
      rewrite (bind_val _ _ st st1 r E). now eexists _, _. }
    destruct H1 as (c1 & st1 & E1). rewrite (bind_val _ _ st st1 c1 E1).
    assert (H2 : exists st2,
               (if Text.truthy (wp_content post)
                then SyncImages.each_inline W
                       (Regex.matchAll (default EmptyString (wp_content post)))
                else ret tt) st1 = (Val tt, st2)).
    { destruct (Text.truthy (wp_content post)); [apply each_inline_total | now eexists]. }
    destruct H2 as (st2 & E2). rewrite (bind_val _ _ st1 st2 tt E2). apply IH.
Qed.

Lemma lookup_written_twice (p q data : string) (st : State) :
  files (Fs.written q data (Fs.written p data st)) !! p = Some data
  /\ files (Fs.written q data (Fs.written p data st)) !! q = Some data.
Proof.
  simpl. split.
  - destruct (decide (q = p)) as [->|Hne].
    + apply lookup_insert_eq.
    + rewrite lookup_insert_ne by exact Hne. apply lookup_insert_eq.
  - apply lookup_insert_eq.
Qed.


Lemma not_in_cache_dirs (x : string) :
  forallb (fun d => negb (String.eqb x d)) cache_dirs = true -> ~ In x cache_dirs.
Proof.
  intros H Hin. rewrite forallb_forall in H. specialize (H x Hin).
  now rewrite String.eqb_refl in H.
Qed.


(** ** An empty answer of the content source *)

Lemma dataFile_not_made : ~ In SyncData.dataFile (Path.chain Path.dataDir).
Proof. vm_compute. intros [H|[H|[]]]; discriminate H. Qed.

(** C1 (what the code does). When the content query yields no record,
    sync-images.js stops with exit code 1 before touching any asset, whereas
    sync-data.js goes on: it writes the empty array over posts.json and ends
    with exit code 0. *)
Theorem empty_fetch_outcome (W : Platform) (st : State) :
  fst (WordPress.fetchWordPressPosts W st) = Val [] ->
  SyncData.dataFile ∉ dirs st ->
  SyncImages.syncImages W st = (Val (1, None), log EvQuery st)
  /\ exists st',
       SyncData.syncData W st = (Val 0, st')
       /\ files st' !! SyncData.dataFile = Some "[]"
       /\ In (EvWrite SyncData.dataFile) (trace st').
Proof.
  intros Hempty Hfile.
  assert (Hposts : WordPress.fetchWordPressPosts W st = (Val [], log EvQuery st)).
  { unfold WordPress.fetchWordPressPosts in *. simpl in Hempty.
    injection Hempty as ->. reflexivity. }
  split.
  - unfold SyncImages.syncImages.
    change (SyncImages.fetchWordPressPosts W) with (WordPress.fetchWordPressPosts W).
    now rewrite (bind_val _ _ st _ [] Hposts).
  - set (st1 := SyncImages.ensured Path.dataDir (log EvQuery st)).
    assert (Hw : SyncData.dataFile ∉ dirs st1).
    { intros Hin. apply dirs_ensured in Hin as [Hin|Hin].
      - exact (Hfile Hin).
      - exact (dataFile_not_made Hin). }
    exists (Fs.written SyncData.dataFile "[]" st1). split; [|split].
    + unfold SyncData.syncData. apply try_catch_val.
      unfold WordPress.getWordPressPosts.
      rewrite (bind_val _ _ st (log EvQuery st) []).
      * rewrite ensure_dir_step. fold st1.
        now rewrite (write_step SyncData.dataFile _ _ st1 Hw).
      * now rewrite (bind_val _ _ st _ [] Hposts).
    + simpl. apply lookup_insert_eq.
    + simpl. apply in_or_app. right. now left.
Qed.

(** The source is unreachable and posts.json holds an earlier run's posts:
    sync-data.js replaces them with the empty array and reports success. *)
Lemma empty_fetch_outcome_witness :
  exists st',
    SyncData.syncData Demo.offline Demo.published = (Val 0, st')
    /\ files st' !! "src/data/posts.json" = Some "[]".
Proof.
  destruct (empty_fetch_outcome Demo.offline Demo.published) as (_ & st' & Hrun & Hfile & _).
  - reflexivity.
  - vm_compute. discriminate.
  - exists st'. split; [exact Hrun | exact Hfile].
Defined.

(** ** Caching *)

Lemma extractDominantColor_run (W : Platform) (p : string) (st : State) :
  SyncImages.extractDominantColor W p st = (Val (color_of W (files st !! p)), st).
Proof.
  unfold SyncImages.extractDominantColor, try_catch, bind, Fs.readFile, ret, throw, color_of.
  destruct (files st !! p) as [d|]; [|reflexivity].
  now destruct (sharp_dominant W d) as [[[r g] b]|].
Qed.

Lemma fetch_inv (W : Platform) (u : string) (st st' : State) (resp : bool * string) :
  fetch W u st = (Val resp, st') ->
  st' = log (EvFetch u) st /\ http_get W u = FetchResponse (fst resp) (snd resp).
Proof.
  unfold fetch. destruct (http_get W u) as [|ok body]; [discriminate|].
  now intros [= <- <-].
Qed.

Lemma write_inv (p data : string) (st st' : State) (x : unit) :
  Fs.writeFileSync p data st = (Val x, st') ->
  st' = Fs.written p data st /\ p ∉ dirs st.
Proof.
  unfold Fs.writeFileSync. destruct (bool_decide (p ∈ dirs st)) eqn:E; [discriminate|].
  intros [= _ <-]. split; [reflexivity|]. now apply bool_decide_eq_false in E.
Qed.

Lemma unlink_inv (p : string) (st st' : State) (x : unit) :
  Fs.unlinkSync p st = (Val x, st') -> st' = Fs.unlinked p st.
Proof.
  unfold Fs.unlinkSync. destruct (files st !! p); [|discriminate].
  now intros [= _ <-].
Qed.

Lemma exec_inv (W : Platform) (input output : string) (st st' : State) (x : unit) :
  exec_cwebp W input output st = (Val x, st') ->
  exists d w, files st !! input = Some d /\ cwebp W d = Some w
              /\ st' = transcoded input output w st.
Proof.
  unfold exec_cwebp. destruct (files st !! input) as [d|]; [|discriminate].
  destruct (cwebp W d) as [w|] eqn:E; [|discriminate].
  intros [= _ <-]. now exists d, w.
Qed.

Lemma ensure_dir_inv (d : string) (st st' : State) (x : unit) :
  SyncImages.ensure_dir d st = (Val x, st') -> st' = SyncImages.ensured d st.
Proof. rewrite ensure_dir_run. now intros [= _ <-]. Qed.

(** *** Paths of the cache are distinct *)

Lemma join_long (d name : string) :
  (3 <= String.length name)%nat -> Path.join d name = d +:+ "/" +:+ name.
Proof.
  destruct name as [|a [|b [|c name]]]; simpl; try lia. intros _.
  unfold Path.join. simpl.
  destruct (Ascii.eqb a "."); [|reflexivity].
  simpl. now destruct (Ascii.eqb b ".").
Qed.

Lemma join_public_cases (w : string) :
  Path.join Path.publicImagesDir w = "public/images"
  \/ Path.join Path.publicImagesDir w = "public"
  \/ Path.join Path.publicImagesDir w = "public/images/" +:+ w.
Proof.
  unfold Path.join.
  destruct (String.eqb w EmptyString || String.eqb w "."); [now left|].
  destruct (String.eqb w ".."); [right; now left | right; now right].
Qed.

Lemma meta_path_eq (f : string) :
  meta_path f = "public/images/meta/" +:+ SyncImages.webpFileName f +:+ ".json".
Proof.
  unfold meta_path. rewrite join_long; [reflexivity|].
  rewrite length_append. simpl. lia.
Qed.

Lemma meta_not_cache (f : string) : cache_path f <> meta_path f.
Proof.
  rewrite meta_path_eq. unfold cache_path. intros E.
  apply (f_equal String.length) in E.
  destruct (join_public_cases (SyncImages.webpFileName f)) as [H|[H|H]];
    rewrite H in E; simpl in E; rewrite ?length_append in E; simpl in E; lia.
Qed.

Lemma meta_not_made (f : string) : ~ In (meta_path f) (Path.chain Path.metaDir).
Proof.
  rewrite meta_path_eq. intros H.
  assert (L : (19 <= String.length
                      ("public/images/meta/" +:+ SyncImages.webpFileName f +:+ ".json"))%nat)
    by (simpl; lia).
  revert H L. generalize ("public/images/meta/" +:+ SyncImages.webpFileName f +:+ ".json").
  intros s H L. vm_compute in H.
  destruct H as [ <- | [ <- | [ <- | [] ] ] ]; simpl in L; lia.
Qed.

(** A name the pattern rewrites ends in one of its extensions. *)
Lemma replace_ext_changed (f : string) :
  Regex.replace_ext f <> f ->
  exists stem ext, f = stem +:+ ext /\ Regex.ext_here ext = true
                   /\ Regex.replace_ext f = stem +:+ ".webp".
Proof.
  induction f as [|c f IH]; [now intros []|].
  change (Regex.replace_ext (String c f))
    with (if Regex.ext_here (String c f) then ".webp" else String c (Regex.replace_ext f)).
  destruct (Regex.ext_here (String c f)) eqn:E.
  - intros _. now exists EmptyString, (String c f).
  - intros H. destruct IH as (stem & ext & -> & He & Hr); [congruence|].
    exists (String c stem), ext. simpl. now rewrite Hr.
Qed.

Lemma ext_here_length (ext : string) :
  Regex.ext_here ext = true -> (4 <= String.length ext)%nat.
Proof.
  intros H. apply ext_here_cases in H. rewrite <- length_lower_all.
  destruct H as [ -> | [ -> | -> ] ]; simpl; lia.
Qed.

(** *** Counting the effects of each step *)

Lemma fetches_log (e : Event) (st : State) :
  fetches (trace (log e st)) = (fetches (trace st) + fetches [e])%nat.
Proof. simpl. now rewrite fetches_app. Qed.

Lemma execs_log (e : Event) (st : State) :
  execs (trace (log e st)) = (execs (trace st) + execs [e])%nat.
Proof. simpl. now rewrite execs_app. Qed.

Lemma fetches_ensured (d : string) (st : State) :
  fetches (trace (SyncImages.ensured d st)) = fetches (trace st).
Proof.
  unfold SyncImages.ensured. destruct (Fs.exists_at st d); [easy|].
  simpl. rewrite fetches_app. simpl. lia.
Qed.

Lemma execs_ensured (d : string) (st : State) :
  execs (trace (SyncImages.ensured d st)) = execs (trace st).
Proof.
  unfold SyncImages.ensured. destruct (Fs.exists_at st d); [easy|].
  simpl. rewrite execs_app. simpl. lia.
Qed.

Lemma fetches_written (p data : string) (st : State) :
  fetches (trace (Fs.written p data st)) = fetches (trace st).
Proof. simpl. rewrite fetches_app. simpl. lia. Qed.

Lemma execs_written (p data : string) (st : State) :
  execs (trace (Fs.written p data st)) = execs (trace st).
Proof. simpl. rewrite execs_app. simpl. lia. Qed.

Lemma fetches_unlinked (p : string) (st : State) :
  fetches (trace (Fs.unlinked p st)) = fetches (trace st).
Proof. simpl. rewrite fetches_app. simpl. lia. Qed.

Lemma execs_unlinked (p : string) (st : State) :
  execs (trace (Fs.unlinked p st)) = execs (trace st).
Proof. simpl. rewrite execs_app. simpl. lia. Qed.

Lemma fetches_transcoded (i o w : string) (st : State) :
  fetches (trace (transcoded i o w st)) = fetches (trace st).
Proof. simpl. rewrite fetches_app. simpl. lia. Qed.

Lemma execs_transcoded (i o w : string) (st : State) :
  execs (trace (transcoded i o w st)) = S (execs (trace st)).
Proof. simpl. rewrite execs_app. simpl. lia. Qed.

Create Rewrite HintDb counts.

#[local] Hint Rewrite fetches_log execs_log fetches_ensured execs_ensured fetches_written
  execs_written fetches_unlinked execs_unlinked fetches_transcoded execs_transcoded : counts.

(** *** A call that finds the cached file *)

Lemma when_meta_run (c : option string) (f : string) (st : State) :
  (Text.truthy c = true -> meta_path f ∉ dirs st) ->
  exists st',
    when (Text.truthy c)
      (let* _ := SyncImages.ensure_dir Path.metaDir in
       Fs.writeFileSync (meta_path f) (SyncImages.json_meta c)) st = (Val tt, st')
    /\ fetches (trace st') = fetches (trace st)
    /\ execs (trace st') = execs (trace st).
Proof.
  intros Hm. unfold when. destruct (Text.truthy c); [|now exists st].
  rewrite ensure_dir_step.
  assert (Hw : meta_path f ∉ dirs (SyncImages.ensured Path.metaDir st)).
  { intros Hin. apply dirs_ensured in Hin as [Hin|Hin].
    - now apply Hm.
    - exact (meta_not_made f Hin). }
  unfold Fs.writeFileSync. rewrite bool_decide_eq_false_2 by exact Hw.
  eexists. split; [reflexivity|].
  now autorewrite with counts.
Qed.

(** With the cached file in place, resolve returns its path and colour and
    neither fetches nor transcodes. *)
Lemma cached_call (W : Platform) (u p : string) (st : State) (c : option string) :
  eligible u = true ->
  url_pathname W u = Some p ->
  Fs.exists_at st (cache_path (Path.basename p)) = true ->
  color_of W (files st !! cache_path (Path.basename p)) = c ->
  (Text.truthy c = true -> meta_path (Path.basename p) ∉ dirs st) ->
  exists st',
    SyncImages.downloadAndConvertImage W (Some u) st
    = (Val (mkImageResult
              (Some ("/images/" +:+ SyncImages.webpFileName (Path.basename p))) c), st')
    /\ fetches (trace st') = fetches (trace st)
    /\ execs (trace st') = execs (trace st).
Proof.
  intros He Hp Hex Hc Hm.
  destruct (when_meta_run c (Path.basename p) st Hm) as (st' & Hrun & Hf & Hx).
  exists st'. split; [|now split].
  unfold SyncImages.downloadAndConvertImage.
  rewrite (eligible_not_local u He). cbn [default].
  apply try_catch_val.
  rewrite (pathname_step W u p _ st Hp).
  rewrite existsSync_step. fold (cache_path (Path.basename p)). rewrite Hex.
  rewrite (bind_val _ _ st st c) by (rewrite extractDominantColor_run; now rewrite Hc).
  fold (meta_path (Path.basename p)).
  now rewrite (bind_val _ _ st st' tt Hrun).
Qed.

Lemma exists_at_file (st : State) (p d : string) :
  files st !! p = Some d -> Fs.exists_at st p = true.
Proof. unfold Fs.exists_at. now intros ->. Qed.

Lemma images_path_inj (a b : string) :
  Some ("/images/" +:+ a) = Some ("/images/" +:+ b) -> a = b.
Proof. intros [= H]. exact H. Qed.

(** What a first call that returns the cache path leaves behind. *)
Lemma first_call_inv (W : Platform) (u p : string) (st st1 : State) (r1 : ImageResult) :
  eligible u = true ->
  url_pathname W u = Some p ->
  SyncImages.downloadAndConvertImage W (Some u) st = (Val r1, st1) ->
  localPath r1 = Some ("/images/" +:+ SyncImages.webpFileName (Path.basename p)) ->
  Fs.exists_at st (cache_path (Path.basename p)) = true
  \/ SyncImages.webpFileName (Path.basename p) <> Path.basename p ->
  Fs.exists_at st1 (cache_path (Path.basename p)) = true
  /\ color_of W (files st1 !! cache_path (Path.basename p)) = resultColor r1
  /\ (Text.truthy (resultColor r1) = true -> meta_path (Path.basename p) ∉ dirs st1)
  /\ (fetches (trace st1) <= fetches (trace st) + 1)%nat
  /\ (execs (trace st1) <= execs (trace st) + 2)%nat.
Proof.
  intros He Hp H Hpath Hcase.
  unfold SyncImages.downloadAndConvertImage in H.
  rewrite (eligible_not_local u He) in H. cbn [default] in H.
  apply try_catch_inv in H as [H|(st0 & _ & [= <- <-])]; [|discriminate Hpath].
  rewrite (pathname_step W u p _ st Hp) in H.
  rewrite existsSync_step in H.
  fold (cache_path (Path.basename p)) in H.
  fold (meta_path (Path.basename p)) in H.
  set (f := Path.basename p) in *.
  destruct (Fs.exists_at st (cache_path f)) eqn:Hex.
  - (* the cached file was there *)
    rewrite (bind_val _ _ st st _ (extractDominantColor_run W _ st)) in H.
    inv_bind H. injection H as <- <-. cbn [resultColor].
    unfold when in E. destruct (Text.truthy (color_of W (files st !! cache_path f))) eqn:Ht.
    + rewrite ensure_dir_step in E. apply write_inv in E as [-> Hw].
      assert (Hfile : files (Fs.written (meta_path f)
                               (SyncImages.json_meta (color_of W (files st !! cache_path f)))
                               (SyncImages.ensured Path.metaDir st)) !! cache_path f
                      = files st !! cache_path f).
      { simpl. rewrite lookup_insert_ne by (intros E; exact (meta_not_cache f (eq_sym E))).
        now rewrite files_ensured. }
      repeat split.
      * unfold Fs.exists_at in *. rewrite Hfile.
        destruct (files st !! cache_path f); [reflexivity|].
        apply bool_decide_eq_true. apply bool_decide_eq_true in Hex.
        simpl. now apply dirs_ensured_mono.
      * now rewrite Hfile.
      * intros _. exact Hw.
      * autorewrite with counts. lia.
      * autorewrite with counts. lia.
    + injection E as _ <-. repeat split; try lia; easy.
  - (* downloaded and transcoded *)
    destruct Hcase as [Hcase|Hne]; [discriminate Hcase|].
    inv_bind H. apply fetch_inv in E as [-> Hget].
    destruct (negb (fst a)); [injection H as <- <-; discriminate Hpath|].
    inv_bind H. apply ensure_dir_inv in E as ->.
    inv_bind H. apply ensure_dir_inv in E as ->.
    inv_bind H. apply ensure_dir_inv in E as ->.
    inv_bind H. apply write_inv in E as [-> Hw1].
    inv_bind H. apply write_inv in E as [-> Hw2].
    inv_bind H.
    destruct a5.
    2:{ injection H as <- <-. apply images_path_inj in Hpath. now symmetry in Hpath. }
    cbn [negb] in H.
    apply try_catch_inv in E as [E|(st9 & _ & E)]; [|discriminate E].
    inv_bind E. apply exec_inv in E0 as (d1 & w1 & Hd1 & Hw1' & ->).
    inv_bind E. apply exec_inv in E0 as (d2 & w2 & Hd2 & Hw2' & ->).
    inv_bind E. apply unlink_inv in E0 as ->.
    inv_bind E. apply unlink_inv in E0 as ->.
    injection E as <-.
    rewrite (bind_val _ _ _ _ _ (extractDominantColor_run W _ _)) in H.
    inv_bind H. apply write_inv in E as [-> Hw3].
    injection H as <- <-. cbn [resultColor].
    destruct (replace_ext_changed f Hne) as (stem & ext & Hf & Hext & Hwebp).
    assert (Lf : (3 <= String.length f)%nat)
      by (rewrite Hf, length_append; apply ext_here_length in Hext; lia).
    assert (Lw : (3 <= String.length (SyncImages.webpFileName f))%nat)
      by (unfold SyncImages.webpFileName; rewrite Hwebp, length_append; simpl; lia).
    assert (Ec : cache_path f = "public/images" +:+ "/" +:+ SyncImages.webpFileName f)
      by (apply join_long; exact Lw).
    rewrite !(join_long _ f Lf) in *.
    rewrite (join_long Path.distImagesDir _ Lw) in *.
    set (st5 := Fs.written _ _ (Fs.written _ _ _)) in *.
    set (stu := Fs.unlinked _ (Fs.unlinked _ (transcoded _ _ _ (transcoded _ _ _ st5)))) in *.
    assert (Lu : files stu !! cache_path f = Some w1).
    { subst stu. cbn [files Fs.unlinked transcoded]. rewrite Ec.
      unfold Path.distImagesDir, Path.publicImagesDir.
      rewrite lookup_delete_ne by (simpl; discriminate).
      rewrite lookup_delete_ne by (simpl; intros [= E]; now symmetry in E).
      rewrite lookup_insert_ne by (simpl; discriminate).
      apply lookup_insert_eq. }
    assert (L1 : forall j, files (Fs.written (meta_path f) j stu) !! cache_path f = Some w1).
    { intros j. cbn [files Fs.written].
      rewrite lookup_insert_ne by (intros E; exact (meta_not_cache f (eq_sym E))).
      exact Lu. }
    assert (Hcount : (fetches (trace stu) <= fetches (trace st) + 1)%nat
                     /\ (execs (trace stu) <= execs (trace st) + 2)%nat).
    { subst stu st5. autorewrite with counts. simpl. lia. }
    rewrite <- (fetches_written (meta_path f)
                  (SyncImages.json_meta (color_of W (files stu !! cache_path f))) stu)
      in Hcount.
    rewrite <- (execs_written (meta_path f)
                  (SyncImages.json_meta (color_of W (files stu !! cache_path f))) stu)
      in Hcount.
    change ((Fs.exists_at (Fs.written (meta_path f)
               (SyncImages.json_meta (color_of W (files stu !! cache_path f))) stu)
               (cache_path f) = true)
            /\ color_of W (files (Fs.written (meta_path f)
                  (SyncImages.json_meta (color_of W (files stu !! cache_path f))) stu)
                  !! cache_path f) = color_of W (files stu !! cache_path f)
            /\ (Text.truthy (color_of W (files stu !! cache_path f)) = true ->
                meta_path f ∉ dirs stu)
            /\ (fetches (trace (Fs.written (meta_path f)
                  (SyncImages.json_meta (color_of W (files stu !! cache_path f))) stu))
                <= fetches (trace st) + 1)%nat
            /\ (execs (trace (Fs.written (meta_path f)
                  (SyncImages.json_meta (color_of W (files stu !! cache_path f))) stu))
                <= execs (trace st) + 2)%nat).
    split; [eapply exists_at_file, L1|].
    split; [now rewrite L1, Lu|].
    split; [intros _; exact Hw3 | exact Hcount].
Qed.




(** ** The body rewrite on structured markup *)

Import Markup.
#[local] Arguments Text.eqb_ci : simpl never.
#[local] Arguments Text.is_ws : simpl never.
#[local] Arguments Text.lower : simpl never.
#[local] Arguments not_quote : simpl never.
#[local] Arguments name_char : simpl never.

(** *** Characters *)

Lemma lower_ws (c : ascii) : Text.is_ws c = true -> Text.lower c = c.
Proof. destruct c as [[] [] [] [] [] [] [] []]; vm_compute; congruence. Qed.

Lemma lower_quote (c : ascii) : Text.lower c = Text.dquote -> c = Text.dquote.
Proof. destruct c as [[] [] [] [] [] [] [] []]; vm_compute; congruence. Qed.

Lemma lower_equals (c : ascii) : Text.lower c = "="%char -> c = "="%char.
Proof. destruct c as [[] [] [] [] [] [] [] []]; vm_compute; congruence. Qed.

(** A character that is, up to case, a name character only equals name
    characters. *)
Lemma eqb_ci_name_char (p c : ascii) :
  name_char (Text.lower p) = true -> Text.eqb_ci p c = true -> name_char c = true.
Proof.
  unfold Text.eqb_ci. rewrite Ascii.eqb_eq. intros Hp E. rewrite E in Hp.
  unfold name_char, not_quote in *.
  apply andb_true_iff in Hp as [Hw Hq]. apply andb_true_iff. split.
  - destruct (Text.is_ws c) eqn:Hc; [|reflexivity].
    rewrite (lower_ws c Hc) in Hw. now rewrite Hc in Hw.
  - destruct (Ascii.eqb c Text.dquote) eqn:Hc; [|reflexivity].
    apply Ascii.eqb_eq in Hc. subst c. exact Hq.
Qed.

Lemma eqb_ci_quote (c : ascii) : Text.eqb_ci Text.dquote c = Ascii.eqb c Text.dquote.
Proof.
  unfold Text.eqb_ci. destruct (Ascii.eqb c Text.dquote) eqn:E.
  - apply Ascii.eqb_eq in E. now subst c.
  - apply Ascii.eqb_neq. intros H. apply Ascii.eqb_neq in E. apply E.
    apply lower_quote. now rewrite <- H.
Qed.

(** *** Texts *)

Lemma quote_free_cons (c : ascii) (s : string) :
  quote_free (String c s) = not_quote c && quote_free s.
Proof. reflexivity. Qed.

Lemma quote_free_append (a b : string) :
  quote_free (a +:+ b) = quote_free a && quote_free b.
Proof. apply all_chars_append. Qed.

Lemma until_quote_app (x r : string) :
  quote_free x = true -> Text.until_quote (x +:+ String Text.dquote r) = Some (x, r).
Proof.
  induction x as [|c x IH]; intros H; [reflexivity|].
  simpl in H. apply andb_true_iff in H as [Hc Hx].
  unfold not_quote in Hc. apply negb_true_iff in Hc.
  simpl. rewrite Hc. now rewrite (IH Hx).
Qed.

Lemma until_quote_none (s : string) : quote_free s = true -> Text.until_quote s = None.
Proof.
  induction s as [|c s IH]; intros H; [reflexivity|].
  simpl in H. apply andb_true_iff in H as [Hc Hs].
  unfold not_quote in Hc. apply negb_true_iff in Hc.
  simpl. rewrite Hc. now rewrite (IH Hs).
Qed.

Lemma until_quote_length (s x r : string) :
  Text.until_quote s = Some (x, r) -> String.length s = S (String.length x + String.length r).
Proof.
  revert x. induction s as [|c s IH]; intros x; [discriminate|].
  simpl. destruct (Ascii.eqb c Text.dquote).
  - intros [= <- <-]. reflexivity.
  - destruct (Text.until_quote s) as [[v q]|]; [|discriminate].
    intros [= <- <-]. simpl. now rewrite (IH v eq_refl).
Qed.

Lemma strip_prefix_ci_length (p s r : string) :
  Text.strip_prefix_ci p s = Some r ->
  String.length s = (String.length p + String.length r)%nat.
Proof.
  revert s. induction p as [|a p IH]; intros s; simpl.
  - now intros [= ->].
  - destruct s as [|b s]; [discriminate|].
    destruct (Text.eqb_ci a b); [|discriminate].
    intros H. simpl. now rewrite (IH s H).
Qed.

Lemma strip_prefix_ci_app (p q s : string) :
  Text.strip_prefix_ci (p +:+ q) s
  = match Text.strip_prefix_ci p s with
    | Some r => Text.strip_prefix_ci q r
    | None => None
    end.
Proof.
  revert s. induction p as [|a p IH]; intros s; simpl; [reflexivity|].
  destruct s as [|b s]; [reflexivity|].
  destruct (Text.eqb_ci a b); [apply IH | reflexivity].
Qed.

Lemma strip_prefix_ci_weaker (p s r : string) :
  Text.strip_prefix p s = Some r -> Text.strip_prefix_ci p s = Some r.
Proof.
  revert s. induction p as [|a p IH]; intros s; simpl; [easy|].
  destruct s as [|b s]; [discriminate|].
  destruct (Ascii.eqb a b) eqn:E; [|discriminate].
  apply Ascii.eqb_eq in E. subst b. unfold Text.eqb_ci. rewrite Ascii.eqb_refl. apply IH.
Qed.

Lemma strip_prefix_ci_none (p s : string) :
  Text.strip_prefix_ci p s = None -> Text.strip_prefix p s = None.
Proof.
  intros H. destruct (Text.strip_prefix p s) as [r|] eqn:E; [|reflexivity].
  apply strip_prefix_ci_weaker in E. congruence.
Qed.

Lemma skip_ws_length (s : string) : (String.length (Text.skip_ws s) <= String.length s)%nat.
Proof.
  induction s as [|c s IH]; simpl; [lia|].
  destruct (Text.is_ws c); simpl; lia.
Qed.

Lemma skip_ws_all (w y : string) :
  all_ws w = true -> Text.skip_ws (w +:+ y) = Text.skip_ws y.
Proof.
  induction w as [|c w IH]; intros H; [reflexivity|].
  simpl in H. apply andb_true_iff in H as [Hc Hw].
  simpl. rewrite Hc. now apply IH.
Qed.

Lemma skip_ws_stop (c : ascii) (s : string) :
  Text.is_ws c = false -> Text.skip_ws (String c s) = String c s.
Proof. intros H. simpl. now rewrite H. Qed.

(** A pattern of name characters and a closing quote cannot match across the
    white space that follows a text without quote. *)
Lemma strip_ci_text (a t x : string) (w : ascii) :
  all_chars (fun p => name_char (Text.lower p)) a = true ->
  quote_free t = true ->
  Text.is_ws w = true ->
  Text.strip_prefix_ci (a +:+ Text.DQ) (t +:+ String w x) = None.
Proof.
  intros Ha Ht Hw. revert a Ha. induction t as [|c t IH]; intros a Ha.
  - destruct a as [|p a]; simpl.
    + rewrite eqb_ci_quote. destruct (Ascii.eqb w Text.dquote) eqn:E; [|reflexivity].
      apply Ascii.eqb_eq in E. subst w. discriminate Hw.
    + simpl in Ha. apply andb_true_iff in Ha as [Hp _].
      destruct (Text.eqb_ci p w) eqn:E; [|reflexivity].
      apply (eqb_ci_name_char p w Hp) in E. unfold name_char in E.
      rewrite Hw in E. discriminate E.
  - simpl in Ht. apply andb_true_iff in Ht as [Hc Ht].
    destruct a as [|p a]; simpl.
    + rewrite eqb_ci_quote. unfold not_quote in Hc. apply negb_true_iff in Hc.
      now rewrite Hc.
    + simpl in Ha. apply andb_true_iff in Ha as [_ Ha].
      destruct (Text.eqb_ci p c); [|reflexivity]. now apply IH.
Qed.

(** Against a quoted value, such a pattern matches exactly when the text
    before the quote is the pattern up to case. *)
Lemma strip_ci_align (a x r : string) :
  all_chars (fun p => name_char (Text.lower p)) a = true ->
  quote_free x = true ->
  Text.strip_prefix_ci (a +:+ Text.DQ) (x +:+ String Text.dquote r)
  = if Text.equal_ci a x then Some r else None.
Proof.
  intros Ha. revert x. induction a as [|p a IH]; intros x Hx.
  - destruct x as [|c x]; simpl.
    + reflexivity.
    + simpl in Hx. apply andb_true_iff in Hx as [Hc _].
      rewrite eqb_ci_quote. unfold not_quote in Hc. apply negb_true_iff in Hc.
      now rewrite Hc.
  - simpl in Ha. apply andb_true_iff in Ha as [Hp Ha].
    destruct x as [|c x]; simpl.
    + destruct (Text.eqb_ci p Text.dquote) eqn:E; [|reflexivity].
      apply (eqb_ci_name_char p _ Hp) in E. discriminate E.
    + simpl in Hx. apply andb_true_iff in Hx as [_ Hx].
      destruct (Text.eqb_ci p c); [now apply IH | reflexivity].
Qed.

Lemma strip_ci_quote_free (a s : string) :
  quote_free s = true -> Text.strip_prefix_ci (a +:+ Text.DQ) s = None.
Proof.
  revert s. induction a as [|p a IH]; intros s Hs.
  - destruct s as [|c s]; [reflexivity|]. simpl.
    simpl in Hs. apply andb_true_iff in Hs as [Hc _].
    rewrite eqb_ci_quote. unfold not_quote in Hc. apply negb_true_iff in Hc. now rewrite Hc.
  - destruct s as [|c s]; [reflexivity|]. simpl.
    simpl in Hs. apply andb_true_iff in Hs as [_ Hs].
    destruct (Text.eqb_ci p c); [now apply IH | reflexivity].
Qed.

(** *** Global deletion *)

Lemma delete_all_fuel (m : string -> option string) :
  consuming m ->
  forall fuel s, (String.length s <= fuel)%nat ->
                 Regex.delete_all_from fuel m s = Regex.delete_all m s.
Proof.
  intros Hm fuel. induction fuel as [fuel IH] using lt_wf_ind. intros s Hs.
  unfold Regex.delete_all.
  destruct fuel as [|f].
  - destruct s; [reflexivity | simpl in Hs; lia].
  - destruct s as [|c s].
    + simpl. destruct (m EmptyString) as [r|] eqn:E; [|reflexivity].
      apply Hm in E. simpl in E. lia.
    + simpl in Hs. simpl.
      destruct (m (String c s)) as [r|] eqn:E.
      * apply Hm in E. simpl in E.
        rewrite (IH f) by lia.
        destruct (Nat.eq_dec (String.length s) f) as [->|Hne]; [now rewrite (IH f) by lia|].
        now rewrite (IH (String.length s)) by lia.
      * f_equal. rewrite (IH f) by lia. reflexivity.
Qed.

Lemma delete_all_hit (m : string -> option string) (s r : string) :
  consuming m -> m s = Some r -> Regex.delete_all m s = Regex.delete_all m r.
Proof.
  intros Hm E. pose proof (Hm s r E) as L.
  destruct s as [|c s]; [simpl in L; lia|].
  unfold Regex.delete_all at 1. simpl. rewrite E.
  apply delete_all_fuel; [exact Hm | simpl in L; lia].
Qed.

Lemma delete_all_miss (m : string -> option string) (c : ascii) (s : string) :
  m (String c s) = None ->
  Regex.delete_all m (String c s) = String c (Regex.delete_all m s).
Proof. intros E. unfold Regex.delete_all. simpl. now rewrite E. Qed.

Lemma delete_all_nothing (m : string -> option string) (s : string) :
  (forall x, m x = None) -> Regex.delete_all m s = s.
Proof.
  intros H. induction s as [|c s IH]; [reflexivity|].
  rewrite delete_all_miss by apply H. now rewrite IH.
Qed.

(** *** The attribute pattern *)

Lemma match_attr_unfold (h s : string) :
  Regex.match_attr h s
  = match Text.strip_prefix_ci ((h +:+ "=") +:+ Text.DQ) (Text.skip_ws s) with
    | Some r => match Text.until_quote r with
                | Some (_, rest) => Some rest
                | None => None
                end
    | None => None
    end.
Proof. unfold Regex.match_attr. now rewrite append_assoc. Qed.

Lemma match_attr_consuming (h : string) : consuming (Regex.match_attr h).
Proof.
  intros s r. unfold Regex.match_attr.
  destruct (Text.strip_prefix_ci _ (Text.skip_ws s)) as [q|] eqn:E; [|discriminate].
  destruct (Text.until_quote q) as [[v rest]|] eqn:U; [|discriminate].
  intros [= <-]. apply strip_prefix_ci_length in E. apply until_quote_length in U.
  pose proof (skip_ws_length s). lia.
Qed.


Lemma stripped_pattern (h : string) : In h stripped -> pattern_name h.
Proof.
  intros [<-|[<-|[<-|[<-|[]]]]]; repeat split; try reflexivity; eexists _, _; split; reflexivity.
Qed.

Lemma skip_ws_quote_free (v : string) :
  quote_free v = true -> quote_free (Text.skip_ws v) = true.
Proof.
  induction v as [|c v IH]; [easy|].
  rewrite quote_free_cons. intros H. apply andb_true_iff in H as [Hc Hv].
  simpl. destruct (Text.is_ws c); [now apply IH|].
  now rewrite quote_free_cons, Hc, Hv.
Qed.

Lemma match_attr_quote_free (h s : string) :
  quote_free s = true -> Regex.match_attr h s = None.
Proof.
  intros Hs. rewrite match_attr_unfold.
  now rewrite strip_ci_quote_free by (now apply skip_ws_quote_free).
Qed.

Lemma last_char_cons (c : ascii) (s : string) :
  s <> EmptyString -> last_char (String c s) = last_char s.
Proof. destruct s; [congruence | reflexivity]. Qed.

Lemma ends_ws_cons (c : ascii) (s : string) :
  s <> EmptyString -> ends_ws (String c s) = ends_ws s.
Proof. intros H. unfold ends_ws. now rewrite last_char_cons. Qed.

Lemma ends_eq_cons (c : ascii) (s : string) :
  s <> EmptyString -> ends_eq (String c s) = ends_eq s.
Proof. intros H. unfold ends_eq. now rewrite last_char_cons. Qed.

(** Skipping white space at the start of a text that does not end in white
    space leaves a non-empty rest of it. *)
Lemma skip_ws_text (t y : string) :
  t <> EmptyString -> ends_ws t = false ->
  exists c t', Text.skip_ws (t +:+ y) = String c t' +:+ y
               /\ (quote_free t = true -> quote_free (String c t') = true).
Proof.
  induction t as [|c t IH]; intros Hne He; [congruence|].
  simpl. destruct (Text.is_ws c) eqn:Hc.
  - destruct t as [|d t].
    + unfold ends_ws in He. simpl in He. congruence.
    + rewrite ends_ws_cons in He by discriminate.
      destruct (IH ltac:(discriminate) He) as (c' & t' & E & Q).
      exists c', t'. split; [exact E|].
      intros H. apply Q. rewrite quote_free_cons in H. now apply andb_true_iff in H as [_ H].
  - exists c, t. split; [reflexivity | easy].
Qed.

Lemma match_attr_text (h t x : string) (w : ascii) :
  pattern_name h ->
  quote_free t = true -> t <> EmptyString -> ends_ws t = false ->
  Text.is_ws w = true ->
  Regex.match_attr h (t +:+ String w x) = None.
Proof.
  intros (Hp & _) Hq Hne He Hw. rewrite match_attr_unfold.
  destruct (skip_ws_text t (String w x) Hne He) as (c & t' & -> & Q).
  now rewrite (strip_ci_text _ (String c t') x w Hp (Q Hq) Hw).
Qed.

Lemma match_attr_ws (h w y : string) :
  all_ws w = true -> Regex.match_attr h (w +:+ y) = Regex.match_attr h y.
Proof. intros H. unfold Regex.match_attr. now rewrite skip_ws_all. Qed.

Lemma equal_ci_snoc (a b : string) (c : ascii) :
  Text.equal_ci (a +:+ String c EmptyString) (b +:+ String c EmptyString) = Text.equal_ci a b.
Proof.
  revert b. induction a as [|x a IH]; intros [|y b]; simpl.
  - unfold Text.eqb_ci. now rewrite Ascii.eqb_refl.
  - destruct b; simpl; now rewrite andb_false_r.
  - destruct a; simpl; now rewrite andb_false_r.
  - now rewrite IH.
Qed.

Lemma equal_ci_refl (a : string) : Text.equal_ci a a = true.
Proof. apply equal_ci_lower. reflexivity. Qed.

Lemma name_char_quote_free (n : string) :
  all_chars name_char n = true -> quote_free n = true.
Proof.
  induction n as [|c n IH]; [reflexivity|].
  rewrite quote_free_cons. simpl.
  intros H. apply andb_true_iff in H as [Hc Hn].
  unfold name_char in Hc. apply andb_true_iff in Hc as [_ Hc].
  now rewrite Hc, IH.
Qed.

Lemma skip_ws_name (n y : string) :
  all_chars name_char n = true ->
  Text.skip_ws (n +:+ String "="%char y) = n +:+ String "="%char y.
Proof.
  destruct n as [|c n]; [reflexivity|]. simpl.
  intros H. apply andb_true_iff in H as [Hc _].
  unfold name_char in Hc. apply andb_true_iff in Hc as [Hc _].
  apply negb_true_iff in Hc. now rewrite Hc.
Qed.

(** At the start of a name, the pattern matches exactly when the name is
    the pattern's, up to case. *)
Lemma match_attr_name (h n r : string) :
  pattern_name h ->
  all_chars name_char n = true ->
  Regex.match_attr h (n +:+ String "="%char (String Text.dquote r))
  = if Text.equal_ci h n
    then match Text.until_quote r with
         | Some (_, rest) => Some rest
         | None => None
         end
    else None.
Proof.
  intros (Hp & _) Hn. rewrite match_attr_unfold, skip_ws_name by exact Hn.
  change (n +:+ String "="%char (String Text.dquote r))
    with (n +:+ ("=" +:+ String Text.dquote r)).
  rewrite <- append_assoc.
  rewrite strip_ci_align;
    [rewrite equal_ci_snoc; now destruct (Text.equal_ci h n) | exact Hp |].
  rewrite quote_free_append, (name_char_quote_free n Hn). reflexivity.
Qed.

Lemma skip_ws_value (v r : string) :
  Text.skip_ws (v +:+ String Text.dquote r) = Text.skip_ws v +:+ String Text.dquote r.
Proof.
  induction v as [|c v IH]; [reflexivity|].
  simpl. destruct (Text.is_ws c); [exact IH | reflexivity].
Qed.

Lemma skip_ws_last (v : string) (c : ascii) :
  last_char (Text.skip_ws v) = Some c -> last_char v = Some c.
Proof.
  induction v as [|d v IH]; [easy|].
  cbn [Text.skip_ws]. destruct (Text.is_ws d); [|easy].
  destruct v as [|e v]; [discriminate|].
  intros H. rewrite last_char_cons by discriminate. now apply IH.
Qed.

Lemma last_char_snoc (a : string) (c : ascii) :
  last_char (a +:+ String c EmptyString) = Some c.
Proof.
  induction a as [|x a IH]; [reflexivity|].
  simpl. destruct (a +:+ String c EmptyString) eqn:E; [|exact IH].
  destruct a; discriminate E.
Qed.

Lemma last_char_lower (y : string) :
  last_char (lower_all y) = Text.lower <$> last_char y.
Proof.
  induction y as [|c y IH]; [reflexivity|].
  destruct y as [|d y]; [reflexivity|]. exact IH.
Qed.

(** A text that is, up to case, a name and an equals sign ends with the
    equals sign. *)
Lemma equal_ci_ends_eq (h y : string) :
  Text.equal_ci (h +:+ "=") y = true -> ends_eq y = true.
Proof.
  intros H. apply equal_ci_lower in H.
  apply (f_equal last_char) in H.
  rewrite lower_all_append, last_char_lower in H.
  change (lower_all "=") with (String "="%char EmptyString) in H.
  rewrite last_char_snoc in H. unfold ends_eq.
  destruct (last_char y) as [c|]; [|discriminate H].
  injection H as H. symmetry in H. apply lower_equals in H. now subst c.
Qed.

Lemma match_attr_value (h v r : string) :
  pattern_name h ->
  quote_free v = true -> ends_eq v = false ->
  Regex.match_attr h (v +:+ String Text.dquote r) = None.
Proof.
  intros (Hp & _) Hq He. rewrite match_attr_unfold, skip_ws_value.
  rewrite strip_ci_align; [|exact Hp | now apply skip_ws_quote_free].
  destruct (Text.equal_ci (h +:+ "=") (Text.skip_ws v)) eqn:E; [|reflexivity].
  apply equal_ci_ends_eq in E. unfold ends_eq in E.
  destruct (last_char (Text.skip_ws v)) as [c|] eqn:L; [|discriminate E].
  apply skip_ws_last in L. unfold ends_eq in He. rewrite L in He. congruence.
Qed.

(** *** Attributes under the attribute pattern *)

Lemma render_item_app (i : Item) (rest : string) :
  render_item i +:+ rest
  = pre i +:+ sep i +:+ name i
    +:+ String "="%char (String Text.dquote (value i +:+ String Text.dquote rest)).
Proof. unfold render_item. rewrite !append_assoc. reflexivity. Qed.


Lemma wf_item_parts (i : Item) : wf_item i = true -> wf_parts i.
Proof.
  unfold wf_item. rewrite !andb_true_iff, !negb_true_iff.
  intros [[[[[[[H1 H2] H3] H4] H5] H6] H7] H8].
  unfold name_ok in H5. apply andb_true_iff in H5 as [Hn Hh].
  rewrite forallb_forall in Hh.
  split; try assumption.
  - destruct (sep i) as [|w s]; [discriminate H3|].
    exists w, s. split; [reflexivity|].
    unfold all_ws in H4. simpl in H4. now apply andb_true_iff in H4 as [H4 _].
  - intros h Hin He. specialize (Hh h Hin). rewrite He in Hh. simpl in Hh.
    now apply String.eqb_eq in Hh.
  - intros Hs. rewrite Hs in H8. exact H8.
Qed.

Lemma stripped_heads (h : string) : In h stripped -> In h heads.
Proof. simpl. tauto. Qed.

Section AttributePattern.

Variable h : string.
Hypothesis Hh : In h stripped.

Let m := Regex.match_attr h.

Lemma remove_attr_pre (t x : string) (w : ascii) :
  quote_free t = true -> ends_ws t = false -> Text.is_ws w = true ->
  Regex.delete_all m (t +:+ String w x) = t +:+ Regex.delete_all m (String w x).
Proof.
  intros Hq He Hw. induction t as [|c t IH]; [reflexivity|].
  change (String c t +:+ String w x) with (String c (t +:+ String w x)).
  rewrite delete_all_miss.
  - simpl. f_equal. destruct t as [|d t]; [reflexivity|].
    apply IH.
    + rewrite quote_free_cons in Hq. now apply andb_true_iff in Hq as [_ Hq].
    + now rewrite ends_ws_cons in He by discriminate.
  - apply (match_attr_text h (String c t) x w); auto using stripped_pattern.
Qed.

Lemma remove_attr_sep (s y : string) :
  all_ws s = true -> m y = None ->
  Regex.delete_all m (s +:+ y) = s +:+ Regex.delete_all m y.
Proof.
  intros Hs Hy. induction s as [|w s IH]; [reflexivity|].
  change (String w s +:+ y) with (String w (s +:+ y)).
  unfold all_ws in Hs. simpl in Hs. apply andb_true_iff in Hs as [Hw Hs].
  rewrite delete_all_miss.
  - simpl. f_equal. now apply IH.
  - change (String w (s +:+ y)) with (String w s +:+ y).
    unfold m. rewrite match_attr_ws; [exact Hy|].
    unfold all_ws. simpl. now rewrite Hw, Hs.
Qed.

Lemma match_attr_other_name (n r : string) :
  all_chars name_char n = true -> Regex.ends_ci h n = false ->
  m (n +:+ String "="%char (String Text.dquote r)) = None.
Proof.
  intros Hn He. unfold m. rewrite match_attr_name by auto using stripped_pattern.
  destruct (Text.equal_ci h n) eqn:E; [|reflexivity].
  destruct n; simpl in He; rewrite E in He; discriminate He.
Qed.

Lemma remove_attr_name (n r : string) :
  all_chars name_char n = true -> Regex.ends_ci h n = false ->
  Regex.delete_all m (n +:+ String "="%char (String Text.dquote r))
  = n +:+ Regex.delete_all m (String "="%char (String Text.dquote r)).
Proof.
  intros Hn He. induction n as [|c n IH]; [reflexivity|].
  change (String c n +:+ String "="%char (String Text.dquote r))
    with (String c (n +:+ String "="%char (String Text.dquote r))).
  rewrite delete_all_miss.
  - simpl. f_equal. apply IH.
    + simpl in Hn. now apply andb_true_iff in Hn as [_ Hn].
    + simpl in He. now apply orb_false_iff in He as [_ He].
  - now apply (match_attr_other_name (String c n)).
Qed.

Lemma remove_attr_value (v r : string) :
  quote_free v = true -> ends_eq v = false ->
  Regex.delete_all m (v +:+ String Text.dquote r)
  = v +:+ Regex.delete_all m (String Text.dquote r).
Proof.
  intros Hq He. induction v as [|c v IH]; [reflexivity|].
  change (String c v +:+ String Text.dquote r) with (String c (v +:+ String Text.dquote r)).
  rewrite delete_all_miss.
  - simpl. f_equal. destruct v as [|d v]; [reflexivity|].
    apply IH.
    + rewrite quote_free_cons in Hq. now apply andb_true_iff in Hq as [_ Hq].
    + now rewrite ends_eq_cons in He by discriminate.
  - now apply (match_attr_value h (String c v)); auto using stripped_pattern.
Qed.

(** One attribute under the global deletion: an attribute of the pattern's
    name goes, with the white space before it; any other stays. *)
Lemma remove_attr_item (i : Item) (rest : string) :
  wf_item i = true ->
  Regex.remove_attr h (render_item i +:+ rest)
  = (if String.eqb (name i) h then pre i else render_item i) +:+ Regex.remove_attr h rest.
Proof.
  intros Hwf. apply wf_item_parts in Hwf as [P1 P2 (w & s & Es & Hw) P4 P5 P6 P7 P8 _].
  destruct (stripped_pattern h Hh) as (Hp & Heq & Hdq & _).
  unfold Regex.remove_attr. fold m. rewrite render_item_app.
  rewrite Es at 1.
  change (String w s +:+ ?x) with (String w (s +:+ x)).
  rewrite remove_attr_pre by assumption.
  change (String w (s +:+ ?x)) with (String w s +:+ x). rewrite <- Es.
  destruct (String.eqb (name i) h) eqn:En.
  - apply String.eqb_eq in En. f_equal.
    apply delete_all_hit; [apply match_attr_consuming|].
    unfold m. rewrite match_attr_ws by exact P4.
    rewrite match_attr_name by auto using stripped_pattern.
    rewrite En, equal_ci_refl. now rewrite until_quote_app.
  - assert (He : Regex.ends_ci h (name i) = false).
    { destruct (Regex.ends_ci h (name i)) eqn:E; [|reflexivity].
      apply P6 in E; [|now apply stripped_heads]. apply String.eqb_neq in En. contradiction. }
    rewrite remove_attr_sep by (auto using match_attr_other_name).
    rewrite remove_attr_name by assumption.
    rewrite delete_all_miss by apply Heq.
    rewrite delete_all_miss by apply Hdq.
    rewrite remove_attr_value by assumption.
    rewrite delete_all_miss by apply Hdq.
    rewrite render_item_app. reflexivity.
Qed.

End AttributePattern.

(** *** Bodies under the attribute pattern *)

Lemma render_prepend (t : string) (b : list Item * string) :
  render (fst (prepend t b)) (snd (prepend t b)) = t +:+ render (fst b) (snd b).
Proof.
  destruct b as [[|j rest] tail]; [reflexivity|].
  unfold prepend. simpl. unfold render_item. simpl. now rewrite !append_assoc.
Qed.

Lemma remove_attr_tail (h tail : string) :
  quote_free tail = true -> Regex.remove_attr h tail = tail.
Proof.
  intros Hq. unfold Regex.remove_attr.
  induction tail as [|c t IH]; [reflexivity|].
  rewrite delete_all_miss by (now apply match_attr_quote_free).
  rewrite quote_free_cons in Hq. apply andb_true_iff in Hq as [_ Hq].
  now rewrite IH.
Qed.

(** Removing the attributes of one name from the text is removing them from
    the structure. *)
Lemma remove_attr_render (h : string) (items : list Item) (tail : string) :
  In h stripped -> wf_body items tail = true ->
  Regex.remove_attr h (render items tail)
  = render (fst (omit h items tail)) (snd (omit h items tail)).
Proof.
  intros Hh. unfold wf_body. rewrite andb_true_iff. intros [Hi Ht].
  induction items as [|i rest IH].
  - simpl. now apply remove_attr_tail.
  - simpl in Hi. apply andb_true_iff in Hi as [Hwf Hi].
    cbn [render]. rewrite (remove_attr_item h Hh i _ Hwf), (IH Hi).
    cbn [omit]. destruct (String.eqb (name i) h).
    + now rewrite render_prepend.
    + reflexivity.
Qed.

Lemma last_char_append (a b : string) :
  b <> EmptyString -> last_char (a +:+ b) = last_char b.
Proof.
  intros Hb. induction a as [|c a IH]; [reflexivity|].
  change (String c a +:+ b) with (String c (a +:+ b)).
  rewrite last_char_cons; [exact IH|].
  destruct a; [exact Hb | discriminate].
Qed.

Lemma ends_ws_append (a b : string) :
  ends_ws a = false -> ends_ws b = false -> ends_ws (a +:+ b) = false.
Proof.
  intros Ha Hb. destruct b as [|c b]; [now rewrite append_nil_r|].
  unfold ends_ws in *. now rewrite last_char_append by discriminate.
Qed.

Lemma wf_prepend (t : string) (b : list Item * string) :
  quote_free t = true -> ends_ws t = false ->
  wf_body (fst b) (snd b) = true ->
  wf_body (fst (prepend t b)) (snd (prepend t b)) = true.
Proof.
  intros Hq He. destruct b as [[|j rest] tail]; unfold wf_body, prepend; simpl.
  - intros H. now rewrite quote_free_append, Hq, H.
  - rewrite !andb_true_iff. intros [[Hj Hr] Ht]. repeat split; try assumption.
    revert Hj. unfold wf_item, is_site. cbn [pre sep name value].
    rewrite !andb_true_iff, !negb_true_iff.
    intros [[[[[[[H1 H2] H3] H4] H5] H6] H7] H8].
    rewrite quote_free_append, Hq, H1, (ends_ws_append t (pre j) He H2).
    repeat split; assumption.
Qed.

Lemma wf_omit (h : string) (items : list Item) (tail : string) :
  wf_body items tail = true ->
  wf_body (fst (omit h items tail)) (snd (omit h items tail)) = true.
Proof.
  induction items as [|i rest IH]; [easy|].
  unfold wf_body at 1. cbn [forallb]. rewrite !andb_true_iff.
  intros [[Hi Hr] Ht].
  assert (Hrest : wf_body rest tail = true) by (unfold wf_body; now rewrite Hr, Ht).
  specialize (IH Hrest). cbn [omit].
  destruct (String.eqb (name i) h).
  - apply wf_item_parts in Hi as [P1 P2 _ _ _ _ _ _ _]. now apply wf_prepend.
  - unfold wf_body in *. cbn [fst snd forallb]. rewrite Hi. exact IH.
Qed.

Lemma sites_prepend (t : string) (b : list Item * string) :
  sites (fst (prepend t b)) = sites (fst b).
Proof. destruct b as [[|j rest] tail]; reflexivity. Qed.

(** Removing attributes of a stripped name removes no reference. *)
Lemma sites_omit (h : string) (items : list Item) (tail : string) :
  In h stripped -> sites (fst (omit h items tail)) = sites items.
Proof.
  intros Hh. induction items as [|i rest IH]; [reflexivity|].
  cbn [omit]. destruct (String.eqb (name i) h) eqn:E.
  - rewrite sites_prepend, IH. apply String.eqb_eq in E.
    unfold sites at 2. cbn [flat_map]. unfold site_of at 1, is_site.
    rewrite E. destruct Hh as [<-|[<-|[<-|[<-|[]]]]]; reflexivity.
  - cbn [fst]. unfold sites in *. cbn [flat_map]. now rewrite IH.
Qed.

(** No attribute of a removed name is left. *)
Lemma names_omit (h : string) (items : list Item) (tail : string) :
  Forall (fun i => name i <> h) (fst (omit h items tail)).
Proof.
  induction items as [|i rest IH]; [constructor|].
  cbn [omit]. destruct (String.eqb (name i) h) eqn:E.
  - destruct (omit h rest tail) as [[|j r] t]; [constructor|].
    unfold prepend. cbn [fst snd] in *. inversion IH; subst. now constructor.
  - cbn [fst]. constructor; [now apply String.eqb_neq | exact IH].
Qed.

(** Removing one name keeps the others removed. *)
Lemma names_omit_other (h k : string) (items : list Item) (tail : string) :
  Forall (fun i => name i <> k) items ->
  Forall (fun i => name i <> k) (fst (omit h items tail)).
Proof.
  induction items as [|i rest IH]; intros H; [constructor|].
  inversion H; subst. cbn [omit]. destruct (String.eqb (name i) h).
  - specialize (IH ltac:(assumption)).
    destruct (omit h rest tail) as [[|j r] t]; [constructor|].
    unfold prepend. cbn [fst snd] in *. inversion IH; subst. now constructor.
  - cbn [fst]. constructor; auto.
Qed.

(** A body without attribute of a name is left as it is by the removal. *)
Lemma omit_absent (h : string) (items : list Item) (tail : string) :
  Forall (fun i => name i <> h) items -> omit h items tail = (items, tail).
Proof.
  induction items as [|i rest IH]; intros H; [reflexivity|].
  inversion H; subst. cbn [omit].
  rewrite (proj2 (String.eqb_neq _ _)) by assumption.
  now rewrite IH.
Qed.

(** *** The image pattern *)

Lemma match_image_unfold (s : string) :
  Regex.match_image s
  = match Text.strip_prefix_ci ("src=" +:+ Text.DQ) s with
    | Some r =>
        match Text.until_quote r with
        | Some (x, rest) =>
            if Regex.url_shape x then Some (Text.take 5 s +:+ x +:+ Text.DQ, x, rest) else None
        | None => None
        end
    | None => None
    end.
Proof. reflexivity. Qed.

Lemma match_image_consuming (s f u r : string) :
  Regex.match_image s = Some (f, u, r) -> (String.length r < String.length s)%nat.
Proof.
  rewrite match_image_unfold.
  destruct (Text.strip_prefix_ci _ s) as [q|] eqn:E; [|discriminate].
  destruct (Text.until_quote q) as [[x rest]|] eqn:U; [|discriminate].
  destruct (Regex.url_shape x); [|discriminate].
  intros [= _ _ <-]. apply strip_prefix_ci_length in E. apply until_quote_length in U.
  simpl in E. lia.
Qed.

Lemma matchAll_fuel (fuel : nat) :
  forall s, (String.length s <= fuel)%nat -> Regex.matchAll_from fuel s = Regex.matchAll s.
Proof.
  induction fuel as [fuel IH] using lt_wf_ind. intros s Hs.
  unfold Regex.matchAll.
  destruct fuel as [|f].
  - destruct s; [reflexivity | simpl in Hs; lia].
  - destruct s as [|c s]; [reflexivity|].
    simpl in Hs. cbn [String.length Regex.matchAll_from].
    destruct (Regex.match_image (String c s)) as [[[full url] r]|] eqn:E.
    + apply match_image_consuming in E. simpl in E.
      rewrite (IH f) by lia.
      destruct (Nat.eq_dec (String.length s) f) as [->|Hne]; [now rewrite (IH f) by lia|].
      now rewrite (IH (String.length s)) by lia.
    + rewrite (IH f) by lia.
      destruct (Nat.eq_dec (String.length s) f) as [->|Hne]; [now rewrite (IH f) by lia|].
      now rewrite (IH (String.length s)) by lia.
Qed.

Lemma matchAll_hit (s f u r : string) :
  Regex.match_image s = Some (f, u, r) -> Regex.matchAll s = (f, u) :: Regex.matchAll r.
Proof.
  intros E. pose proof (match_image_consuming s f u r E) as L.
  destruct s as [|c s]; [simpl in L; lia|].
  unfold Regex.matchAll at 1. cbn [String.length Regex.matchAll_from]. rewrite E.
  f_equal. apply matchAll_fuel. simpl in L. lia.
Qed.

Lemma matchAll_miss (c : ascii) (s : string) :
  Regex.match_image (String c s) = None ->
  Regex.matchAll (String c s) = Regex.matchAll s.
Proof.
  intros E. unfold Regex.matchAll at 1. cbn [String.length Regex.matchAll_from].
  now rewrite E.
Qed.

Lemma src_pattern : all_chars (fun p => name_char (Text.lower p)) "src=" = true.
Proof. reflexivity. Qed.

Lemma match_image_text (t x : string) (w : ascii) :
  quote_free t = true -> Text.is_ws w = true ->
  Regex.match_image (t +:+ String w x) = None.
Proof.
  intros Hq Hw. rewrite match_image_unfold.
  now rewrite (strip_ci_text "src=" t x w src_pattern Hq Hw).
Qed.

Lemma match_image_quote_free (s : string) :
  quote_free s = true -> Regex.match_image s = None.
Proof. intros H. rewrite match_image_unfold. now rewrite strip_ci_quote_free. Qed.

Lemma matchAll_quote_free (s : string) : quote_free s = true -> Regex.matchAll s = [].
Proof.
  induction s as [|c s IH]; [reflexivity|]. intros H.
  rewrite matchAll_miss by (now apply match_image_quote_free).
  rewrite quote_free_cons in H. apply andb_true_iff in H as [_ H]. now apply IH.
Qed.

Lemma matchAll_pre (t x : string) (w : ascii) :
  quote_free t = true -> Text.is_ws w = true ->
  Regex.matchAll (t +:+ String w x) = Regex.matchAll (String w x).
Proof.
  intros Hq Hw. induction t as [|c t IH]; [reflexivity|].
  change (String c t +:+ String w x) with (String c (t +:+ String w x)).
  rewrite matchAll_miss.
  - apply IH. rewrite quote_free_cons in Hq. now apply andb_true_iff in Hq as [_ Hq].
  - now apply (match_image_text (String c t)).
Qed.

Lemma matchAll_sep (s y : string) :
  all_ws s = true -> Regex.matchAll (s +:+ y) = Regex.matchAll y.
Proof.
  intros Hs. induction s as [|w s IH]; [reflexivity|].
  unfold all_ws in Hs. simpl in Hs. apply andb_true_iff in Hs as [Hw Hs].
  change (String w s +:+ y) with (String w (s +:+ y)).
  rewrite matchAll_miss; [now apply IH|].
  now apply (match_image_text EmptyString).
Qed.

(** At the start of a name, the image pattern matches exactly when the name
    is src up to case and the quoted value has the shape of an image URL. *)
Lemma match_image_name (n r : string) :
  all_chars name_char n = true ->
  Regex.match_image (n +:+ String "="%char (String Text.dquote r))
  = if Text.equal_ci "src" n
    then match Text.until_quote r with
         | Some (x, rest) =>
             if Regex.url_shape x
             then Some (Text.take 5 (n +:+ String "="%char (String Text.dquote r))
                        +:+ x +:+ Text.DQ, x, rest)
             else None
         | None => None
         end
    else None.
Proof.
  intros Hn. rewrite match_image_unfold.
  change (n +:+ String "="%char (String Text.dquote r))
    with (n +:+ ("=" +:+ String Text.dquote r)) at 1.
  rewrite <- append_assoc.
  change ("src=" +:+ Text.DQ) with (("src" +:+ "=") +:+ Text.DQ).
  rewrite strip_ci_align;
    [|reflexivity | now rewrite quote_free_append, (name_char_quote_free n Hn)].
  rewrite equal_ci_snoc. now destruct (Text.equal_ci "src" n).
Qed.

Lemma matchAll_name (n r : string) :
  all_chars name_char n = true -> Regex.ends_ci "src" n = false ->
  Regex.matchAll (n +:+ String "="%char (String Text.dquote r))
  = Regex.matchAll (String "="%char (String Text.dquote r)).
Proof.
  intros Hn He. induction n as [|c n IH]; [reflexivity|].
  change (String c n +:+ String "="%char (String Text.dquote r))
    with (String c (n +:+ String "="%char (String Text.dquote r))).
  rewrite matchAll_miss.
  - apply IH.
    + simpl in Hn. now apply andb_true_iff in Hn as [_ Hn].
    + cbn [Regex.ends_ci] in He. now apply orb_false_iff in He as [_ He].
  - change (String c (n +:+ String "="%char (String Text.dquote r)))
      with (String c n +:+ String "="%char (String Text.dquote r)).
    rewrite match_image_name by exact Hn.
    destruct (Text.equal_ci "src" (String c n)) eqn:E; [|reflexivity].
    cbn [Regex.ends_ci] in He. rewrite E in He. discriminate He.
Qed.

Lemma match_image_value (v r : string) :
  quote_free v = true -> ends_eq v = false ->
  Regex.match_image (v +:+ String Text.dquote r) = None.
Proof.
  intros Hq He. rewrite match_image_unfold.
  change ("src=" +:+ Text.DQ) with (("src" +:+ "=") +:+ Text.DQ).
  rewrite strip_ci_align; [|reflexivity | exact Hq].
  destruct (Text.equal_ci ("src" +:+ "=") v) eqn:E; [|reflexivity].
  apply equal_ci_ends_eq in E. congruence.
Qed.

Lemma matchAll_value (v r : string) :
  quote_free v = true -> ends_eq v = false ->
  Regex.matchAll (v +:+ String Text.dquote r) = Regex.matchAll (String Text.dquote r).
Proof.
  intros Hq He. induction v as [|c v IH]; [reflexivity|].
  change (String c v +:+ String Text.dquote r) with (String c (v +:+ String Text.dquote r)).
  rewrite matchAll_miss.
  - destruct v as [|d v]; [reflexivity|]. apply IH.
    + rewrite quote_free_cons in Hq. now apply andb_true_iff in Hq as [_ Hq].
    + now rewrite ends_eq_cons in He by discriminate.
  - now apply (match_image_value (String c v)).
Qed.

(** The quotes and the value of an attribute hold no match. *)
Lemma matchAll_quoted (v rest : string) :
  quote_free v = true -> ends_eq v = false ->
  Regex.matchAll (String "="%char (String Text.dquote (v +:+ String Text.dquote rest)))
  = Regex.matchAll rest.
Proof.
  intros Hq He.
  rewrite matchAll_miss by reflexivity.
  rewrite matchAll_miss by reflexivity.
  rewrite matchAll_value by assumption.
  now rewrite matchAll_miss by reflexivity.
Qed.

(** One attribute under the image pattern. *)
Lemma matchAll_item (i : Item) (rest : string) :
  wf_item i = true ->
  Regex.matchAll (render_item i +:+ rest) = site_of i ++ Regex.matchAll rest.
Proof.
  intros Hwf. apply wf_item_parts in Hwf as [P1 P2 (w & s & Es & Hw) P4 P5 P6 P7 P8 _].
  rewrite render_item_app. rewrite Es at 1.
  change (String w s +:+ ?x) with (String w (s +:+ x)).
  rewrite matchAll_pre by assumption.
  change (String w (s +:+ ?x)) with (String w s +:+ x). rewrite <- Es.
  rewrite matchAll_sep by exact P4.
  unfold site_of, is_site.
  destruct (String.eqb (name i) "src") eqn:En.
  - apply String.eqb_eq in En. rewrite En.
    destruct (Regex.url_shape (value i)) eqn:Hu; cbn [andb].
    + rewrite (matchAll_hit _ ("src=" +:+ Text.DQ +:+ value i +:+ Text.DQ) (value i) rest).
      * reflexivity.
      * rewrite match_image_name by reflexivity.
        rewrite until_quote_app by exact P7. now rewrite Hu.
    + assert (Hmiss : Regex.match_image
                        ("src" +:+ String "="%char
                           (String Text.dquote (value i +:+ String Text.dquote rest))) = None).
      { rewrite match_image_name by reflexivity.
        rewrite until_quote_app by exact P7. now rewrite Hu. }
      cbn [String.append] in Hmiss |- *.
      rewrite matchAll_miss by exact Hmiss.
      rewrite matchAll_miss by reflexivity.
      rewrite matchAll_miss by reflexivity.
      now apply matchAll_quoted.
  - cbn [andb app].
    assert (He : Regex.ends_ci "src" (name i) = false).
    { destruct (Regex.ends_ci "src" (name i)) eqn:E; [|reflexivity].
      apply P6 in E; [|now left]. apply String.eqb_neq in En. contradiction. }
    rewrite matchAll_name by assumption. now apply matchAll_quoted.
Qed.

(** The matches of the image pattern in a well-formed body are its
    recognised references, in order. *)
Lemma matchAll_render (items : list Item) (tail : string) :
  wf_body items tail = true -> Regex.matchAll (render items tail) = sites items.
Proof.
  unfold wf_body. rewrite andb_true_iff. intros [Hi Ht].
  induction items as [|i rest IH].
  - now apply matchAll_quote_free.
  - simpl in Hi. apply andb_true_iff in Hi as [Hwf Hi].
    cbn [render]. rewrite (matchAll_item i _ Hwf), (IH Hi). reflexivity.
Qed.

(** *** First occurrences *)

Lemma shifted_app (x y : string) (o : option (string * string)) :
  shifted x (shifted y o) = shifted (x +:+ y) o.
Proof. destruct o as [[b a]|]; simpl; [now rewrite append_assoc | reflexivity]. Qed.

Lemma shifted_nil (o : option (string * string)) : shifted EmptyString o = o.
Proof. now destruct o as [[b a]|]. Qed.

Lemma find_first_miss (f : string) (c : ascii) (s : string) :
  Text.strip_prefix f (String c s) = None ->
  Text.find_first f (String c s) = shifted (String c EmptyString) (Text.find_first f s).
Proof.
  intros E. cbn [Text.find_first]. rewrite E.
  now destruct (Text.find_first f s) as [[b a]|].
Qed.

Lemma find_first_hit (f s r : string) :
  Text.strip_prefix f s = Some r -> Text.find_first f s = Some (EmptyString, r).
Proof. intros E. destruct s; cbn [Text.find_first]; now rewrite E. Qed.

Lemma strip_prefix_spec (f s r : string) :
  Text.strip_prefix f s = Some r -> s = f +:+ r.
Proof.
  revert s. induction f as [|a f IH]; intros s; simpl; [now intros [= ->]|].
  destruct s as [|b s]; [discriminate|].
  destruct (Ascii.eqb a b) eqn:E; [|discriminate].
  apply Ascii.eqb_eq in E. subst b. intros H. now rewrite (IH s H).
Qed.

Lemma find_first_spec (f s b a : string) :
  Text.find_first f s = Some (b, a) -> s = b +:+ f +:+ a.
Proof.
  revert b. induction s as [|c s IH]; intros b; cbn [Text.find_first].
  - destruct (Text.strip_prefix f EmptyString) as [r|] eqn:E; [|discriminate].
    intros [= <- <-]. simpl. now apply strip_prefix_spec.
  - destruct (Text.strip_prefix f (String c s)) as [r|] eqn:E.
    + intros [= <- <-]. simpl. now apply strip_prefix_spec.
    + destruct (Text.find_first f s) as [[b' a']|]; [|discriminate].
      intros [= <- <-]. simpl. f_equal. now apply IH.
Qed.

Lemma expand_dollar_plain (m b a rep : string) :
  dollar_free rep = true -> Text.expand_dollar m b a rep = rep.
Proof.
  induction rep as [|c rep IH]; [reflexivity|].
  unfold dollar_free. simpl. intros H. apply andb_true_iff in H as [Hc Hr].
  apply negb_true_iff in Hc. rewrite Hc. f_equal. now apply IH.
Qed.

(** Replacing a text by itself changes nothing. *)
Lemma replace_first_same (f s : string) :
  dollar_free f = true -> Text.replace_first f f s = s.
Proof.
  intros Hf. unfold Text.replace_first.
  destruct (Text.find_first f s) as [[b a]|] eqn:E; [|reflexivity].
  rewrite expand_dollar_plain by exact Hf. symmetry. now apply find_first_spec.
Qed.

Lemma replace_first_found (f rep s b a : string) :
  dollar_free rep = true -> Text.find_first f s = Some (b, a) ->
  Text.replace_first f rep s = b +:+ rep +:+ a.
Proof.
  intros Hr E. unfold Text.replace_first. rewrite E.
  now rewrite expand_dollar_plain.
Qed.

Lemma strip_prefix_app (p q s : string) :
  Text.strip_prefix (p +:+ q) s
  = match Text.strip_prefix p s with
    | Some r => Text.strip_prefix q r
    | None => None
    end.
Proof.
  revert s. induction p as [|a p IH]; intros s; simpl; [reflexivity|].
  destruct s as [|b s]; [reflexivity|].
  destruct (Ascii.eqb a b); [apply IH | reflexivity].
Qed.

(** Against a quoted value, a quoted value matches exactly when the two are
    the same. *)
Lemma strip_align (v x r : string) :
  quote_free v = true -> quote_free x = true ->
  Text.strip_prefix (v +:+ Text.DQ) (x +:+ String Text.dquote r)
  = if String.eqb v x then Some r else None.
Proof.
  revert x. induction v as [|p v IH]; intros x Hv Hx.
  - destruct x as [|c x]; [reflexivity|]. cbn -[Ascii.eqb].
    rewrite quote_free_cons in Hx. apply andb_true_iff in Hx as [Hc _].
    unfold not_quote in Hc. apply negb_true_iff in Hc.
    rewrite Ascii.eqb_sym. now rewrite Hc.
  - rewrite quote_free_cons in Hv. apply andb_true_iff in Hv as [Hp Hv].
    destruct x as [|c x]; cbn -[Ascii.eqb].
    + unfold not_quote in Hp. apply negb_true_iff in Hp. now rewrite Hp.
    + rewrite quote_free_cons in Hx. apply andb_true_iff in Hx as [_ Hx].
      destruct (Ascii.eqb p c); [now apply IH | reflexivity].
Qed.

Section Occurrence.

Variable v : string.
Hypothesis Hv : quote_free v = true.

(** The text of a reference to [v], as the image pattern matches it. *)
Let f := "src=" +:+ Text.DQ +:+ v +:+ Text.DQ.

Lemma f_split : f = ("src=" +:+ Text.DQ) +:+ (v +:+ Text.DQ).
Proof. reflexivity. Qed.

Lemma occurrence_ci (s : string) :
  Text.strip_prefix_ci ("src=" +:+ Text.DQ) s = None -> Text.strip_prefix f s = None.
Proof.
  intros H. apply strip_prefix_ci_none. rewrite f_split, strip_prefix_ci_app. now rewrite H.
Qed.

Lemma find_first_pre (t x : string) (w : ascii) :
  quote_free t = true -> Text.is_ws w = true ->
  Text.find_first f (t +:+ String w x) = shifted t (Text.find_first f (String w x)).
Proof.
  intros Hq Hw. induction t as [|c t IH].
  - now rewrite shifted_nil.
  - change (String c t +:+ String w x) with (String c (t +:+ String w x)).
    rewrite find_first_miss.
    + rewrite IH, shifted_app; [reflexivity|].
      rewrite quote_free_cons in Hq. now apply andb_true_iff in Hq as [_ Hq].
    + apply occurrence_ci.
      now apply (strip_ci_text "src=" (String c t) x w).
Qed.

Lemma find_first_sep (s y : string) :
  all_ws s = true ->
  Text.find_first f (s +:+ y) = shifted s (Text.find_first f y).
Proof.
  intros Hs. induction s as [|w s IH].
  - now rewrite shifted_nil.
  - unfold all_ws in Hs. simpl in Hs. apply andb_true_iff in Hs as [Hw Hs].
    change (String w s +:+ y) with (String w (s +:+ y)).
    rewrite find_first_miss.
    + now rewrite IH, shifted_app.
    + apply occurrence_ci.
      now apply (strip_ci_text "src=" EmptyString (s +:+ y) w).
Qed.

Lemma occurrence_name (n r : string) :
  all_chars name_char n = true -> Text.equal_ci "src" n = false ->
  Text.strip_prefix f (n +:+ String "="%char (String Text.dquote r)) = None.
Proof.
  intros Hn He. apply occurrence_ci.
  change (n +:+ String "="%char (String Text.dquote r))
    with (n +:+ ("=" +:+ String Text.dquote r)).
  rewrite <- append_assoc.
  change ("src=" +:+ Text.DQ) with (("src" +:+ "=") +:+ Text.DQ).
  rewrite strip_ci_align;
    [|reflexivity | now rewrite quote_free_append, (name_char_quote_free n Hn)].
  now rewrite equal_ci_snoc, He.
Qed.

Lemma find_first_name (n r : string) :
  all_chars name_char n = true -> Regex.ends_ci "src" n = false ->
  Text.find_first f (n +:+ String "="%char (String Text.dquote r))
  = shifted n (Text.find_first f (String "="%char (String Text.dquote r))).
Proof.
  intros Hn He. induction n as [|c n IH].
  - now rewrite shifted_nil.
  - change (String c n +:+ String "="%char (String Text.dquote r))
      with (String c (n +:+ String "="%char (String Text.dquote r))).
    cbn [Regex.ends_ci] in He. apply orb_false_iff in He as [E He].
    rewrite find_first_miss.
    + rewrite IH, shifted_app; [reflexivity | | exact He].
      simpl in Hn. now apply andb_true_iff in Hn as [_ Hn].
    + now apply (occurrence_name (String c n)).
Qed.

Lemma occurrence_value (x r : string) :
  quote_free x = true -> ends_eq x = false ->
  Text.strip_prefix f (x +:+ String Text.dquote r) = None.
Proof.
  intros Hq He. apply occurrence_ci.
  change ("src=" +:+ Text.DQ) with (("src" +:+ "=") +:+ Text.DQ).
  rewrite strip_ci_align; [|reflexivity | exact Hq].
  destruct (Text.equal_ci ("src" +:+ "=") x) eqn:E; [|reflexivity].
  apply equal_ci_ends_eq in E. congruence.
Qed.

Lemma find_first_value (x r : string) :
  quote_free x = true -> ends_eq x = false ->
  Text.find_first f (x +:+ String Text.dquote r)
  = shifted x (Text.find_first f (String Text.dquote r)).
Proof.
  intros Hq He. induction x as [|c x IH].
  - now rewrite shifted_nil.
  - change (String c x +:+ String Text.dquote r)
      with (String c (x +:+ String Text.dquote r)).
    rewrite find_first_miss.
    + destruct x as [|d x].
      * reflexivity.
      * rewrite IH, shifted_app; [reflexivity | |].
        -- rewrite quote_free_cons in Hq. now apply andb_true_iff in Hq as [_ Hq].
        -- now rewrite ends_eq_cons in He by discriminate.
    + now apply (occurrence_value (String c x)).
Qed.

(** Past the equals sign: the quotes and the value hold no occurrence. *)
Lemma find_first_quoted (x rest : string) :
  quote_free x = true -> ends_eq x = false ->
  Text.find_first f (String "="%char (String Text.dquote (x +:+ String Text.dquote rest)))
  = shifted (String "="%char (String Text.dquote (x +:+ Text.DQ))) (Text.find_first f rest).
Proof.
  intros Hq He.
  rewrite find_first_miss by reflexivity.
  rewrite find_first_miss by reflexivity.
  rewrite find_first_value by assumption.
  rewrite find_first_miss by reflexivity.
  rewrite !shifted_app. reflexivity.
Qed.

(** An attribute that is not a reference to [v] holds no occurrence. *)
Lemma find_first_item (d : Item) (rest : string) :
  wf_item d = true ->
  ~ (name d = "src" /\ value d = v) ->
  Text.find_first f (render_item d +:+ rest)
  = shifted (render_item d) (Text.find_first f rest).
Proof.
  intros Hwf Hno. apply wf_item_parts in Hwf as [P1 P2 (w & s & Es & Hw) P4 P5 P6 P7 P8 _].
  rewrite render_item_app. rewrite Es at 1.
  change (String w s +:+ ?x) with (String w (s +:+ x)).
  rewrite find_first_pre by assumption.
  change (String w (s +:+ ?x)) with (String w s +:+ x). rewrite <- Es.
  rewrite find_first_sep by exact P4.
  destruct (String.eqb (name d) "src") eqn:En.
  - apply String.eqb_eq in En.
    assert (Hvalue : String.eqb v (value d) = false).
    { apply String.eqb_neq. intros E. apply Hno. now split. }
    assert (Hmiss : Text.strip_prefix f
                      ("src" +:+ String "="%char
                         (String Text.dquote (value d +:+ String Text.dquote rest))) = None).
    { rewrite f_split, strip_prefix_app.
      change (Text.strip_prefix ("src=" +:+ Text.DQ)
                ("src" +:+ String "="%char
                   (String Text.dquote (value d +:+ String Text.dquote rest))))
        with (Some (value d +:+ String Text.dquote rest)).
      cbv beta iota. now rewrite strip_align, Hvalue by assumption. }
    rewrite En. cbn [String.append] in Hmiss |- *.
    rewrite find_first_miss by exact Hmiss.
    rewrite find_first_miss by reflexivity.
    rewrite find_first_miss by reflexivity.
    rewrite find_first_quoted by assumption.
    rewrite !shifted_app. f_equal.
    unfold render_item. rewrite En. simpl. now rewrite !append_assoc.
  - assert (He : Regex.ends_ci "src" (name d) = false).
    { destruct (Regex.ends_ci "src" (name d)) eqn:E; [|reflexivity].
      apply P6 in E; [|now left]. apply String.eqb_neq in En. contradiction. }
    rewrite find_first_name by assumption.
    rewrite find_first_quoted by assumption.
    rewrite !shifted_app. f_equal.
    unfold render_item. simpl. now rewrite !append_assoc.
Qed.

(** The reference itself is found where it stands. *)
Lemma find_first_here (i : Item) (rest : string) :
  wf_item i = true -> name i = "src" -> value i = v ->
  Text.find_first f (render_item i +:+ rest) = Some (pre i +:+ sep i, rest).
Proof.
  intros Hwf En Ev. apply wf_item_parts in Hwf as [P1 P2 (w & s & Es & Hw) P4 P5 P6 P7 P8 _].
  rewrite render_item_app. rewrite Es at 1.
  change (String w s +:+ ?x) with (String w (s +:+ x)).
  rewrite find_first_pre by assumption.
  change (String w (s +:+ ?x)) with (String w s +:+ x). rewrite <- Es.
  rewrite find_first_sep by exact P4.
  rewrite En, Ev.
  rewrite (find_first_hit f _ rest).
  - simpl. now rewrite !append_nil_r.
  - rewrite f_split, strip_prefix_app.
    change (Text.strip_prefix ("src=" +:+ Text.DQ)
              ("src" +:+ String "="%char (String Text.dquote (v +:+ String Text.dquote rest))))
      with (Some (v +:+ String Text.dquote rest)).
    cbv beta iota. now rewrite strip_align, String.eqb_refl by assumption.
Qed.

End Occurrence.

(** *** The loop over the matches, on structured markup *)

Lemma render_app (a b : list Item) (tail : string) :
  render (a ++ b) tail = render a (render b tail).
Proof.
  induction a as [|i a IH]; simpl; [reflexivity|]. now rewrite IH.
Qed.

Lemma render_tail (items : list Item) (t : string) :
  render items t = render items EmptyString +:+ t.
Proof.
  induction items as [|i items IH]; simpl; [reflexivity|].
  now rewrite IH, !append_assoc.
Qed.

(** Attributes that are no reference to [v] hold no occurrence of the text
    of such a reference. *)
Lemma find_first_body (v : string) (done : list Item) (x : string) :
  quote_free v = true ->
  forallb wf_item done = true ->
  Forall (fun d => ~ (name d = "src" /\ value d = v)) done ->
  Text.find_first ("src=" +:+ Text.DQ +:+ v +:+ Text.DQ) (render done x)
  = shifted (render done EmptyString)
      (Text.find_first ("src=" +:+ Text.DQ +:+ v +:+ Text.DQ) x).
Proof.
  intros Hv. induction done as [|d done IH]; intros Hwf Hd.
  - simpl. now destruct (Text.find_first _ x) as [[b a]|].
  - simpl in Hwf. apply andb_true_iff in Hwf as [Hw Hwf].
    inversion Hd as [|? ? Hd1 Hd2]; subst.
    cbn [render]. rewrite (find_first_item v Hv d _ Hw Hd1), (IH Hwf Hd2).
    now rewrite shifted_app.
Qed.

Lemma url_shape_empty : Regex.url_shape EmptyString = false.
Proof. reflexivity. Qed.

Lemma url_shape_images (x : string) : Regex.url_shape ("/images/" +:+ x) = false.
Proof. reflexivity. Qed.

Lemma truthy_site (v : string) : Regex.url_shape v = true -> Text.truthy (Some v) = true.
Proof. destruct v; [discriminate | reflexivity]. Qed.

(** WordPress.downloadImage on an eligible URL: no path, or the local path
    of the final segment of the URL path. *)
Lemma downloadImage_path (W : Platform) (u : string) (st st' : State) (r : ImageResult) :
  eligible u = true ->
  WordPress.downloadImage W (Some u) st = (Val r, st') ->
  localPath r = None
  \/ exists p, url_pathname W u = Some p
               /\ localPath r = Some ("/images/" +:+ Path.basename p).
Proof.
  intros He. unfold WordPress.downloadImage.
  rewrite (eligible_not_local u He).
  change (default EmptyString (Some u)) with u.
  intros H. apply try_catch_inv in H as [H|(st1 & _ & [= <- <-])]; [|now left].
  inv_bind H.
  destruct (negb (fst a)); [injection H as <- <-; now left|].
  inv_bind H.
  destruct (url_pathname W u) as [p|] eqn:Hp; [|discriminate].
  injection E0 as <- <-.
  do 5 inv_bind H. injection H as <- <-. right. now exists p.
Qed.

Lemma downloadImage_same (W : Platform) (u : string) (st : State) :
  eligible u = false ->
  WordPress.downloadImage W (Some u) st = (Val (mkImageResult (Some u) None), st).
Proof.
  intros He. unfold WordPress.downloadImage.
  unfold eligible in He. apply negb_false_iff in He. now rewrite He.
Qed.

(** Both arms of the loop body write the same text. *)
Lemma substitute_step (W : Platform) (f u : string) (rest : list (string * string))
    (content : string) (st st1 : State) (r : ImageResult) :
  WordPress.downloadImage W (Some u) st = (Val r, st1) ->
  WordPress.substitute W ((f, u) :: rest) content st
  = WordPress.substitute W rest
      (Text.replace_first f ("src=" +:+ Text.DQ +:+ new_value r +:+ Text.DQ) content) st1.
Proof.
  intros E. cbn [WordPress.substitute]. rewrite (bind_val _ _ st st1 r E).
  unfold new_value. now destruct (Text.truthy (localPath r)).
Qed.

Lemma set_value_same (i : Item) : set_value i (value i) = i.
Proof. now destruct i. Qed.

Lemma resolved_refl (W : Platform) (i : Item) : resolved W i i.
Proof. repeat split. now left. Qed.

Lemma is_site_parts (i : Item) :
  is_site i = true -> name i = "src" /\ Regex.url_shape (value i) = true.
Proof.
  unfold is_site. intros H. apply andb_true_iff in H as [H1 H2].
  now apply String.eqb_eq in H1.
Qed.

Lemma settled_other (i : Item) : is_site i = false -> settled i = true.
Proof. unfold settled. now intros ->. Qed.

(** No settled attribute spells an eligible recognised reference. *)
Lemma settled_no_ref (done : list Item) (i : Item) :
  forallb settled done = true -> is_site i = true -> eligible (value i) = true ->
  Forall (fun d => ~ (name d = "src" /\ value d = value i)) done.
Proof.
  intros Hs Hi He. apply List.Forall_forall. intros d Hd [Hn Hv].
  apply (proj1 (forallb_forall _ _) Hs) in Hd.
  apply is_site_parts in Hi as [_ Hu].
  unfold settled, is_site in Hd. rewrite Hn, Hv, Hu, He in Hd. discriminate.
Qed.

Lemma ends_eq_images (b : string) :
  ends_eq b = false -> ends_eq ("/images/" +:+ b) = false.
Proof.
  intros H. destruct b as [|c b]; [reflexivity|].
  unfold ends_eq in *. now rewrite last_char_append.
Qed.

(** The resolved value of an eligible reference leaves a well-formed,
    settled attribute. *)
Lemma wf_set_value (i : Item) (nv : string) :
  wf_item i = true ->
  nv = EmptyString \/ (exists b, nv = "/images/" +:+ b /\ plain b = true) ->
  wf_item (set_value i nv) = true /\ settled (set_value i nv) = true
  /\ dollar_free nv = true.
Proof.
  intros Hw Hnv.
  assert (Hq : quote_free nv = true /\ ends_eq nv = false
               /\ Regex.url_shape nv = false /\ dollar_free nv = true).
  { destruct Hnv as [->|(b & -> & Hb)]; [repeat split|].
    unfold plain in Hb. apply andb_true_iff in Hb as [Hb H3].
    apply andb_true_iff in Hb as [H1 H2]. apply negb_true_iff in H3.
    repeat split.
    - unfold quote_free in *. now rewrite all_chars_append, H1.
    - now apply ends_eq_images.
    - unfold dollar_free in *. now rewrite all_chars_append, H2. }
  destruct Hq as (H1 & H2 & H3 & H4).
  destruct (wf_item_parts i Hw) as [P1 P2 P3 P4 P5 P6 P7 P8 P9].
  unfold wf_item in Hw |- *. unfold settled, is_site. cbn [pre sep name value set_value].
  rewrite H1, H2, H3, H4, andb_false_r. cbn [negb orb andb].
  rewrite !andb_true_r. repeat split.
  rewrite !andb_true_iff in Hw. rewrite !andb_true_iff. tauto.
Qed.

(** One turn of the loop: the first attribute takes its resolved value and
    moves to the attributes already worked on. *)
Lemma substitute_item (W : Platform) (tail : string) (i : Item) (rest done : list Item)
    (st : State) :
  forallb wf_item done = true -> forallb settled done = true ->
  wf_item i = true ->
  settled i || match url_pathname W (value i) with
               | Some p => plain (Path.basename p)
               | None => true
               end = true ->
  exists i' st1,
    wf_item i' = true /\ settled i' = true /\ resolved W i i'
    /\ resolve W (i :: rest) st
       = bind (resolve W rest) (fun rest' => ret (i' :: rest')) st1
    /\ WordPress.substitute W (sites (i :: rest)) (render (done ++ i :: rest) tail) st
       = WordPress.substitute W (sites rest) (render ((done ++ [i']) ++ rest) tail) st1.
Proof.
  intros Hd Hs Hw Hn.
  destruct (is_site i) eqn:Hsite.
  - destruct (downloadImage_total W (Some (value i)) st) as (r & st1 & E).
    assert (Hres : resolve W (i :: rest) st
                   = bind (resolve W rest)
                       (fun rest' => ret (set_value i (new_value r) :: rest')) st1).
    { cbn [resolve]. rewrite Hsite. now rewrite (bind_val _ _ st st1 r E). }
    assert (Hsub : WordPress.substitute W (sites (i :: rest))
                     (render (done ++ i :: rest) tail) st
                   = WordPress.substitute W (sites rest)
                       (Text.replace_first ("src=" +:+ Text.DQ +:+ value i +:+ Text.DQ)
                          ("src=" +:+ Text.DQ +:+ new_value r +:+ Text.DQ)
                          (render (done ++ i :: rest) tail)) st1).
    { unfold sites. cbn [flat_map]. unfold site_of at 1. rewrite Hsite.
      cbn [app]. now apply substitute_step. }
    destruct (is_site_parts i Hsite) as [Hname Hshape].
    destruct (wf_item_parts i Hw) as [P1 P2 P3 P4 P5 P6 P7 P8 P9].
    destruct (eligible (value i)) eqn:He.
    + assert (Hnv : new_value r = EmptyString
                    \/ exists p, url_pathname W (value i) = Some p
                                 /\ new_value r = "/images/" +:+ Path.basename p).
      { destruct (downloadImage_path W _ _ _ _ He E) as [Hr|(p & Hp & Hr)];
          unfold new_value; rewrite Hr; [now left|]. right. now exists p. }
      assert (Hnv' : new_value r = EmptyString
                     \/ exists b, new_value r = "/images/" +:+ b /\ plain b = true).
      { destruct Hnv as [Hr|(p & Hp & Hr)]; [now left|]. right.
        exists (Path.basename p). split; [assumption|].
        unfold settled in Hn. rewrite Hsite, He, Hp in Hn. exact Hn. }
      destruct (wf_set_value i _ Hw Hnv') as (W1 & W2 & W3).
      exists (set_value i (new_value r)), st1. repeat split; try assumption.
      * right. repeat split; assumption.
      * rewrite Hsub. f_equal.
        rewrite render_app. cbn [render].
        rewrite (replace_first_found _ _ _ (render done EmptyString +:+ pre i +:+ sep i)
                   (render rest tail)).
        -- rewrite <- app_assoc. cbn [app]. rewrite render_app. cbn [render].
           rewrite (render_tail done (_ +:+ _)). unfold render_item.
           cbn [pre sep name value set_value]. rewrite Hname.
           rewrite !append_assoc. reflexivity.
        -- unfold dollar_free in *. rewrite !all_chars_append, W3. reflexivity.
        -- rewrite (find_first_body _ _ _ P7 Hd (settled_no_ref _ _ Hs Hsite He)).
           rewrite (find_first_here (value i) P7 i _ Hw Hname eq_refl).
           cbn [shifted]. reflexivity.
    + rewrite (downloadImage_same W _ st He) in E. injection E as <- <-.
      assert (Hnv : new_value (mkImageResult (Some (value i)) None) = value i).
      { unfold new_value. cbn [localPath]. now rewrite (truthy_site _ Hshape). }
      rewrite Hnv in Hres, Hsub. rewrite set_value_same in Hres.
      exists i, st. repeat split.
      * assumption.
      * unfold settled. now rewrite He, andb_false_r.
      * now left.
      * assumption.
      * rewrite Hsub, replace_first_same.
        -- now rewrite <- app_assoc.
        -- unfold dollar_free in *. rewrite !all_chars_append, (P9 Hsite). reflexivity.
  - exists i, st. repeat split.
    + assumption.
    + now apply settled_other.
    + now left.
    + cbn [resolve]. now rewrite Hsite.
    + unfold sites. cbn [flat_map]. unfold site_of at 1. rewrite Hsite.
      cbn [app]. now rewrite <- app_assoc.
Qed.

(** The loop over the matches of a well-formed body is [resolve]. *)
Lemma substitute_resolve (W : Platform) (tail : string) :
  forall rest done st,
    forallb wf_item done = true -> forallb settled done = true ->
    forallb wf_item rest = true -> names_plain W rest = true ->
    exists rest' st',
      resolve W rest st = (Val rest', st')
      /\ WordPress.substitute W (sites rest) (render (done ++ rest) tail) st
         = (Val (render (done ++ rest') tail), st')
      /\ forallb wf_item rest' = true /\ forallb settled rest' = true
      /\ Forall2 (resolved W) rest rest'.
Proof.
  induction rest as [|i rest IH]; intros done st Hd Hs Hr Hn.
  - exists [], st. repeat split. constructor.
  - cbn [forallb] in Hr. unfold names_plain in Hn. cbn [forallb] in Hn.
    apply andb_true_iff in Hr as [Hw Hr]. apply andb_true_iff in Hn as [Hp Hn].
    destruct (substitute_item W tail i rest done st Hd Hs Hw Hp)
      as (i' & st1 & W1 & W2 & W3 & Hres & Hsub).
    destruct (IH (done ++ [i']) st1) as (rest' & st' & R1 & R2 & R3 & R4 & R5).
    + rewrite forallb_app. cbn [forallb]. now rewrite Hd, W1.
    + rewrite forallb_app. cbn [forallb]. now rewrite Hs, W2.
    + assumption.
    + assumption.
    + exists (i' :: rest'), st'. repeat split.
      * rewrite Hres. now rewrite (bind_val _ _ st1 st' rest' R1).
      * rewrite Hsub, R2. now rewrite <- app_assoc.
      * cbn [forallb]. now rewrite W1, R3.
      * cbn [forallb]. now rewrite W2, R4.
      * now constructor.
Qed.

Lemma wf_body_parts (items : list Item) (tail : string) :
  wf_body items tail = true -> forallb wf_item items = true /\ quote_free tail = true.
Proof. unfold wf_body. apply andb_true_iff. Qed.

(** The whole rewrite of a well-formed body. *)
Lemma rewrite_render (W : Platform) (items : list Item) (tail : string) (st : State) :
  wf_body items tail = true -> names_plain W items = true ->
  exists items' st',
    resolve W items st = (Val items', st')
    /\ WordPress.rewrite W (render items tail) st
       = (Val (WordPress.strip_attrs (render items' tail)), st')
    /\ wf_body items' tail = true /\ forallb settled items' = true
    /\ Forall2 (resolved W) items items'.
Proof.
  intros Hwf Hn. destruct (wf_body_parts _ _ Hwf) as [Hi Ht].
  destruct (substitute_resolve W tail items [] st eq_refl eq_refl Hi Hn)
    as (items' & st' & R1 & R2 & R3 & R4 & R5).
  exists items', st'. repeat split; try assumption.
  - unfold WordPress.rewrite. rewrite (matchAll_render _ _ Hwf).
    cbn [app] in R2. now rewrite (bind_val _ _ st st' _ R2).
  - unfold wf_body. now rewrite R3, Ht.
Qed.

Lemma wf_omit_all (b : list Item * string) :
  wf_body (fst b) (snd b) = true ->
  wf_body (fst (omit_all b)) (snd (omit_all b)) = true.
Proof. intros H. unfold omit_all. cbv zeta. now do 4 apply wf_omit. Qed.

Lemma strip_attrs_render (items : list Item) (tail : string) :
  wf_body items tail = true ->
  WordPress.strip_attrs (render items tail)
  = render (fst (omit_all (items, tail))) (snd (omit_all (items, tail))).
Proof.
  intros H. unfold WordPress.strip_attrs, omit_all. cbv zeta. cbn [fst snd].
  rewrite (remove_attr_render "srcset") by (simpl; tauto || assumption).
  rewrite (remove_attr_render "sizes") by (simpl; tauto || now apply wf_omit).
  rewrite (remove_attr_render "width") by (simpl; tauto || now do 2 apply wf_omit).
  rewrite (remove_attr_render "height") by (simpl; tauto || now do 3 apply wf_omit).
  reflexivity.
Qed.

Lemma sites_omit_all (b : list Item * string) : sites (fst (omit_all b)) = sites (fst b).
Proof.
  unfold omit_all. cbv zeta. rewrite !sites_omit by (simpl; tauto). reflexivity.
Qed.

(** After the four removals no attribute bears one of the four names. *)
Lemma names_omit_all (b : list Item * string) (h : string) :
  In h stripped -> Forall (fun i => name i <> h) (fst (omit_all b)).
Proof.
  unfold omit_all. cbv zeta.
  intros [<-|[<-|[<-|[<-|[]]]]].
  - do 3 apply names_omit_other. apply names_omit.
  - do 2 apply names_omit_other. apply names_omit.
  - apply names_omit_other. apply names_omit.
  - apply names_omit.
Qed.

Lemma omit_all_absent (items : list Item) (tail : string) :
  (forall h, In h stripped -> Forall (fun i => name i <> h) items) ->
  omit_all (items, tail) = (items, tail).
Proof.
  intros H. unfold omit_all. cbv zeta. cbn [fst snd].
  rewrite (omit_absent "srcset") by (apply H; simpl; tauto). cbn [fst snd].
  rewrite (omit_absent "sizes") by (apply H; simpl; tauto). cbn [fst snd].
  rewrite (omit_absent "width") by (apply H; simpl; tauto). cbn [fst snd].
  apply omit_absent. apply H. simpl; tauto.
Qed.

(** *** Rewritten bodies *)

Lemma settled_prepend (t : string) (b : list Item * string) :
  forallb settled (fst (prepend t b)) = forallb settled (fst b).
Proof. destruct b as [[|j rest] tail]; reflexivity. Qed.

Lemma settled_omit (h : string) (items : list Item) (tail : string) :
  forallb settled items = true -> forallb settled (fst (omit h items tail)) = true.
Proof.
  induction items as [|i items IH]; [reflexivity|].
  cbn [forallb omit]. intros H. apply andb_true_iff in H as [H1 H2].
  destruct (String.eqb (name i) h).
  - rewrite settled_prepend. now apply IH.
  - cbn [fst forallb]. now rewrite H1, IH.
Qed.

Lemma settled_omit_all (b : list Item * string) :
  forallb settled (fst b) = true -> forallb settled (fst (omit_all b)) = true.
Proof. intros H. unfold omit_all. cbv zeta. now do 4 apply settled_omit. Qed.

Lemma names_plain_settled (W : Platform) (items : list Item) :
  forallb settled items = true -> names_plain W items = true.
Proof.
  unfold names_plain. induction items as [|i items IH]; [reflexivity|].
  cbn [forallb]. intros H. apply andb_true_iff in H as [H1 H2].
  now rewrite H1, IH.
Qed.

(** On settled attributes the loop changes nothing and has no effect. *)
Lemma resolve_settled (W : Platform) (items : list Item) (st : State) :
  forallb settled items = true -> resolve W items st = (Val items, st).
Proof.
  induction items as [|i items IH]; [reflexivity|].
  cbn [forallb resolve]. intros H. apply andb_true_iff in H as [H1 H2].
  destruct (is_site i) eqn:Hsite.
  - unfold settled in H1. rewrite Hsite in H1. cbn [andb] in H1.
    apply negb_true_iff in H1.
    rewrite (bind_val _ _ st st _ (downloadImage_same W _ st H1)).
    rewrite (bind_val _ _ st st _ (IH H2)).
    unfold new_value. cbn [localPath].
    destruct (is_site_parts i Hsite) as [_ Hu].
    rewrite (truthy_site _ Hu). cbn [default]. now rewrite set_value_same.
  - now rewrite (bind_val _ _ st st _ (IH H2)).
Qed.

Lemma sites_settled (items : list Item) (f u : string) :
  forallb settled items = true -> In (f, u) (sites items) -> eligible u = false.
Proof.
  intros Hs Hin. unfold sites in Hin. apply in_flat_map in Hin as (i & Hi & Hin).
  apply (proj1 (forallb_forall _ _) Hs) in Hi.
  unfold site_of in Hin. unfold settled in Hi.
  destruct (is_site i); [|contradiction].
  destruct Hin as [[= _ <-]|[]]. cbn [andb] in Hi. now apply negb_true_iff in Hi.
Qed.

(** *** Texts a deletion leaves as they are *)

Lemma delete_all_empty (m : string -> option string) :
  consuming m -> Regex.delete_all m EmptyString = EmptyString.
Proof.
  intros Hm. unfold Regex.delete_all. simpl.
  destruct (m EmptyString) as [r|] eqn:E; [|reflexivity].
  apply Hm in E. simpl in E. lia.
Qed.

Lemma delete_all_length (m : string -> option string) :
  consuming m ->
  forall s, (String.length (Regex.delete_all m s) <= String.length s)%nat.
Proof.
  intros Hm s. remember (String.length s) as n eqn:Hn.
  revert s Hn. induction n as [n IH] using lt_wf_ind. intros s ->.
  destruct (m s) as [r|] eqn:E.
  - rewrite (delete_all_hit m s r Hm E). pose proof (Hm s r E) as L.
    pose proof (IH _ L r eq_refl). lia.
  - destruct s as [|c s]; [now rewrite delete_all_empty|].
    rewrite (delete_all_miss m c s E). simpl.
    pose proof (IH (String.length s) (Nat.lt_succ_diag_r _) s eq_refl). lia.
Qed.

(** A text the deletion leaves as it is holds no match. *)
Lemma delete_all_fixed (m : string -> option string) :
  consuming m ->
  forall s, Regex.delete_all m s = s -> occurs m s = false.
Proof.
  intros Hm. induction s as [|c s IH]; intros H.
  - simpl. destruct (m EmptyString) as [r|] eqn:E; [|reflexivity].
    apply Hm in E. simpl in E. lia.
  - cbn [occurs]. destruct (m (String c s)) as [r|] eqn:E.
    + rewrite (delete_all_hit m _ r Hm E) in H.
      pose proof (Hm _ r E) as L. pose proof (delete_all_length m Hm r) as L'.
      rewrite H in L'. lia.
    + rewrite (delete_all_miss m c s E) in H. injection H as H. now apply IH.
Qed.

(** A well-formed body without attributes named [h] holds no match of the
    pattern of [h]. *)
Lemma occurs_render (h : string) (items : list Item) (tail : string) :
  In h stripped -> wf_body items tail = true ->
  Forall (fun i => name i <> h) items ->
  occurs (Regex.match_attr h) (render items tail) = false.
Proof.
  intros Hh Hwf Hn. apply delete_all_fixed; [apply match_attr_consuming|].
  change (Regex.delete_all (Regex.match_attr h)) with (Regex.remove_attr h).
  rewrite (remove_attr_render h items tail Hh Hwf).
  now rewrite (omit_absent h items tail Hn).
Qed.

(** The result of the rewrite of a well-formed body, as a body. *)
Lemma rewrite_body (W : Platform) (items : list Item) (tail : string) (st : State) :
  wf_body items tail = true -> names_plain W items = true ->
  exists items' b st',
    resolve W items st = (Val items', st')
    /\ Forall2 (resolved W) items items'
    /\ b = omit_all (items', tail)
    /\ WordPress.rewrite W (render items tail) st = (Val (render (fst b) (snd b)), st')
    /\ wf_body (fst b) (snd b) = true
    /\ forallb settled (fst b) = true
    /\ (forall h, In h stripped -> Forall (fun i => name i <> h) (fst b)).
Proof.
  intros Hwf Hn.
  destruct (rewrite_render W items tail st Hwf Hn) as (items' & st' & R1 & R2 & R3 & R4 & R5).
  exists items', (omit_all (items', tail)), st'. repeat split; try assumption.
  - now rewrite R2, (strip_attrs_render _ _ R3).
  - now apply (wf_omit_all (items', tail)).
  - now apply (settled_omit_all (items', tail)).
  - intros h Hh. now apply names_omit_all.
Qed.

(** ** Body rewriting *)










(** * Further properties of the scripts *)

(** ** Relations every run keeps *)

Section Keeps.

Context (R : State -> State -> Prop).
Hypothesis R_refl : forall st, R st st.
Hypothesis R_trans : forall a b c, R a b -> R b c -> R a c.

Lemma keeps_ret {A : Type} (a : A) : keeps R (ret a).
Proof. intros st res st' [= _ <-]. apply R_refl. Qed.

Lemma keeps_throw {A : Type} : keeps R (@throw A).
Proof. intros st res st' [= _ <-]. apply R_refl. Qed.

Lemma keeps_bind {A B : Type} (m : M A) (k : A -> M B) :
  keeps R m -> (forall a, keeps R (k a)) -> keeps R (bind m k).
Proof.
  intros Hm Hk st res st'. unfold bind.
  destruct (m st) as [[a|] st1] eqn:E; intros H.
  - eapply R_trans; [eapply Hm, E | eapply Hk, H].
  - injection H as _ <-. eapply Hm, E.
Qed.

Lemma keeps_try_catch {A : Type} (m h : M A) :
  keeps R m -> keeps R h -> keeps R (try_catch m h).
Proof.
  intros Hm Hh st res st'. unfold try_catch.
  destruct (m st) as [[a|] st1] eqn:E; intros H.
  - injection H as _ <-. eapply Hm, E.
  - eapply R_trans; [eapply Hm, E | eapply Hh, H].
Qed.

Lemma keeps_when (b : bool) (m : M unit) : keeps R m -> keeps R (when b m).
Proof. intros Hm. destruct b; [exact Hm | apply keeps_ret]. Qed.

Lemma keeps_existsSync (p : string) : keeps R (Fs.existsSync p).
Proof. intros st res st' [= _ <-]. apply R_refl. Qed.

Lemma keeps_readFile (p : string) : keeps R (Fs.readFile p).
Proof.
  intros st res st'. unfold Fs.readFile.
  destruct (files st !! p); intros [= _ <-]; apply R_refl.
Qed.

Lemma keeps_pathname (W : Platform) (u : string) :
  keeps R (match url_pathname W u with Some p => ret p | None => throw end).
Proof. destruct (url_pathname W u); [apply keeps_ret | apply keeps_throw]. Qed.

Lemma keeps_ensure_dir (d : string) :
  keeps R (Fs.mkdirSync d) -> keeps R (SyncImages.ensure_dir d).
Proof.
  intros H. unfold SyncImages.ensure_dir.
  apply keeps_bind; [apply keeps_existsSync|]. intros ex. now apply keeps_when.
Qed.

Lemma keeps_extractDominantColor (W : Platform) (p : string) :
  keeps R (SyncImages.extractDominantColor W p).
Proof.
  unfold SyncImages.extractDominantColor.
  apply keeps_try_catch; [|apply keeps_ret].
  apply keeps_bind; [apply keeps_readFile|]. intros d.
  destruct (sharp_dominant W d) as [[[r g] b]|]; [apply keeps_ret | apply keeps_throw].
Qed.

End Keeps.

(** *** The trace *)

Lemma adds_refl (P : Event -> Prop) (st : State) : adds P st st.
Proof. exists []. split; [now rewrite app_nil_r | constructor]. Qed.

Lemma adds_trans (P : Event -> Prop) (a b c : State) :
  adds P a b -> adds P b c -> adds P a c.
Proof.
  intros (e1 & H1 & F1) (e2 & H2 & F2). exists (e1 ++ e2). split.
  - now rewrite H2, H1, <- app_assoc.
  - apply Forall_app. now split.
Qed.

Lemma adds_one (P : Event -> Prop) (e : Event) (st st' : State) :
  P e -> trace st' = trace st ++ [e] -> adds P st st'.
Proof. intros He Ht. exists [e]. split; [exact Ht | now constructor]. Qed.

Lemma adds_weaken (P Q : Event -> Prop) (st st' : State) :
  (forall e, P e -> Q e) -> adds P st st' -> adds Q st st'.
Proof.
  intros H (evs & Ht & F). exists evs. split; [exact Ht|].
  exact (List.Forall_impl Q H F).
Qed.

Section Adds.

Context (P : Event -> Prop).

Lemma adds_fetch (W : Platform) (u : string) : P (EvFetch u) -> keeps (adds P) (fetch W u).
Proof.
  intros H st res st'. unfold fetch.
  destruct (http_get W u); intros [= _ <-]; now apply (adds_one P (EvFetch u)).
Qed.

Lemma adds_mkdir (d : string) : P (EvMkdir d) -> keeps (adds P) (Fs.mkdirSync d).
Proof. intros H st res st' [= _ <-]. now apply (adds_one P (EvMkdir d)). Qed.

Lemma adds_write (p data : string) : P (EvWrite p) -> keeps (adds P) (Fs.writeFileSync p data).
Proof.
  intros H st res st'. unfold Fs.writeFileSync.
  destruct (bool_decide (p ∈ dirs st)); intros [= _ <-];
    [apply adds_refl | now apply (adds_one P (EvWrite p))].
Qed.

Lemma adds_unlink (p : string) : P (EvUnlink p) -> keeps (adds P) (Fs.unlinkSync p).
Proof.
  intros H st res st'. unfold Fs.unlinkSync.
  destruct (files st !! p); intros [= _ <-];
    [now apply (adds_one P (EvUnlink p)) | apply adds_refl].
Qed.

Lemma adds_exec (W : Platform) (input output : string) :
  P (EvExec input output) -> keeps (adds P) (exec_cwebp W input output).
Proof.
  intros H st res st'. unfold exec_cwebp.
  destruct (files st !! input) as [d|]; [destruct (cwebp W d)|];
    intros [= _ <-]; now apply (adds_one P (EvExec input output)).
Qed.

End Adds.

(** *** Names without slash *)

Lemma all_chars_rev_app (P : ascii -> bool) (s acc : string) :
  all_chars P (String.rev_app s acc) = all_chars P s && all_chars P acc.
Proof.
  revert acc. induction s as [|c s IH]; intros acc; simpl; [reflexivity|].
  rewrite IH. simpl. destruct (P c), (all_chars P s); reflexivity.
Qed.

Lemma all_chars_rev (P : ascii -> bool) (s : string) :
  all_chars P (String.rev s) = all_chars P s.
Proof. unfold String.rev. rewrite all_chars_rev_app. simpl. apply andb_true_r. Qed.

Lemma no_slash_until_slash (s : string) : no_slash (Path.until_slash s) = true.
Proof.
  unfold no_slash. induction s as [|c s IH]; [reflexivity|].
  simpl. destruct (Path.is_slash c) eqn:E; [reflexivity|]. simpl. now rewrite E.
Qed.

(** path.basename returns a name without slash. *)
Lemma no_slash_basename (p : string) : no_slash (Path.basename p) = true.
Proof.
  unfold Path.basename, no_slash. rewrite all_chars_rev. apply no_slash_until_slash.
Qed.

Lemma in_images_public (p : string) :
  in_images (Path.join Path.publicImagesDir (Path.basename p)).
Proof. exists (Path.basename p). split; [apply no_slash_basename | now left]. Qed.

Lemma in_images_dist (p : string) :
  in_images (Path.join Path.distImagesDir (Path.basename p)).
Proof. exists (Path.basename p). split; [apply no_slash_basename | now right]. Qed.

(** Walks through a block of the scripts, leaving the events of its calls. *)
Ltac keeps_adds :=
  repeat first
    [ apply (keeps_ret _ (adds_refl _))
    | apply (keeps_throw _ (adds_refl _))
    | apply (keeps_existsSync _ (adds_refl _))
    | apply (keeps_readFile _ (adds_refl _))
    | apply (keeps_pathname _ (adds_refl _))
    | apply (keeps_extractDominantColor _ (adds_refl _) (adds_trans _))
    | apply (keeps_bind _ (adds_trans _)); [|intros ?]
    | apply (keeps_try_catch _ (adds_trans _))
    | apply (keeps_when _ (adds_refl _))
    | apply (keeps_ensure_dir _ (adds_refl _) (adds_trans _))
    | apply adds_fetch
    | apply adds_mkdir
    | apply adds_write
    | apply adds_unlink
    | apply adds_exec
    | match goal with
      | |- keeps _ (if ?b then _ else _) => destruct b
      | |- keeps _ (match ?x with Some _ => _ | None => _ end) => destruct x
      end ].

(** *** The events of wordpress.js *)

Lemma downloadImage_adds (W : Platform) (url : option string) :
  keeps (adds wp_event) (WordPress.downloadImage W url).
Proof.
  unfold WordPress.downloadImage.
  destruct (not_local url) eqn:E; [apply (keeps_ret _ (adds_refl _))|].
  destruct url as [u|]; [|discriminate E].
  assert (He : eligible u = true) by (unfold eligible; now rewrite E).
  change (default EmptyString (Some u)) with u. cbv zeta.
  keeps_adds; simpl; auto using in_images_public, in_images_dist.
Qed.

Lemma substitute_adds (W : Platform) (images : list (string * string)) :
  forall content, keeps (adds wp_event) (WordPress.substitute W images content).
Proof.
  induction images as [|[full url] rest IH]; intros content; cbn [WordPress.substitute].
  - apply (keeps_ret _ (adds_refl _)).
  - apply (keeps_bind _ (adds_trans _)); [apply downloadImage_adds|]. intros r. apply IH.
Qed.

Lemma rewrite_adds (W : Platform) (content : string) :
  keeps (adds wp_event) (WordPress.rewrite W content).
Proof.
  unfold WordPress.rewrite.
  apply (keeps_bind _ (adds_trans _)); [apply substitute_adds|].
  intros c. apply (keeps_ret _ (adds_refl _)).
Qed.

Lemma transformWordPressPost_adds (W : Platform) (wpPost : WpPost) :
  keeps (adds wp_event) (WordPress.transformWordPressPost W wpPost).
Proof.
  unfold WordPress.transformWordPressPost. cbv zeta.
  apply (keeps_bind _ (adds_trans _)).
  - destruct (Text.truthy _); [apply downloadImage_adds | apply (keeps_ret _ (adds_refl _))].
  - intros r. apply (keeps_bind _ (adds_trans _)).
    + destruct (Text.truthy _); [|apply (keeps_ret _ (adds_refl _))].
      apply (keeps_bind _ (adds_trans _)); [apply rewrite_adds|].
      intros c. apply (keeps_ret _ (adds_refl _)).
    + intros c. apply (keeps_ret _ (adds_refl _)).
Qed.

Lemma transform_all_adds (W : Platform) (posts : list WpPost) :
  keeps (adds wp_event) (WordPress.transform_all W posts).
Proof.
  induction posts as [|p rest IH]; cbn [WordPress.transform_all].
  - apply (keeps_ret _ (adds_refl _)).
  - apply (keeps_bind _ (adds_trans _)); [apply transformWordPressPost_adds|].
    intros t. apply (keeps_bind _ (adds_trans _)); [exact IH|].
    intros ts. apply (keeps_ret _ (adds_refl _)).
Qed.

(** *** The events of sync-images.js *)

Lemma no_slash_replace_ext (f : string) :
  no_slash f = true -> no_slash (Regex.replace_ext f) = true.
Proof.
  unfold no_slash. induction f as [|c f IH]; [reflexivity|].
  cbn [Regex.replace_ext all_chars]. intros H. apply andb_true_iff in H as [Hc Hf].
  destruct (Regex.ext_here (String c f)); [reflexivity|].
  cbn [all_chars]. now rewrite Hc, IH.
Qed.

Lemma in_images_webp_public (p : string) :
  in_images (Path.join Path.publicImagesDir (SyncImages.webpFileName (Path.basename p))).
Proof.
  exists (SyncImages.webpFileName (Path.basename p)).
  split; [apply no_slash_replace_ext, no_slash_basename | now left].
Qed.

Lemma in_images_webp_dist (p : string) :
  in_images (Path.join Path.distImagesDir (SyncImages.webpFileName (Path.basename p))).
Proof.
  exists (SyncImages.webpFileName (Path.basename p)).
  split; [apply no_slash_replace_ext, no_slash_basename | now right].
Qed.

Lemma in_meta_sidecar (p : string) :
  in_meta (Path.join Path.metaDir (SyncImages.webpFileName (Path.basename p) +:+ ".json")).
Proof.
  exists (SyncImages.webpFileName (Path.basename p) +:+ ".json"). split; [|reflexivity].
  unfold no_slash. rewrite all_chars_append.
  change (all_chars _ (SyncImages.webpFileName (Path.basename p)))
    with (no_slash (Regex.replace_ext (Path.basename p))).
  now rewrite no_slash_replace_ext by apply no_slash_basename.
Qed.

Lemma downloadAndConvertImage_adds (W : Platform) (url : option string) :
  keeps (adds sync_event) (SyncImages.downloadAndConvertImage W url).
Proof.
  unfold SyncImages.downloadAndConvertImage.
  destruct (not_local url) eqn:E; [apply (keeps_ret _ (adds_refl _))|].
  destruct url as [u|]; [|discriminate E].
  assert (He : eligible u = true) by (unfold eligible; now rewrite E).
  change (default EmptyString (Some u)) with u. cbv zeta.
  keeps_adds; simpl;
    auto 6 using in_images_public, in_images_dist, in_images_webp_public,
      in_images_webp_dist, in_meta_sidecar.
Qed.

Lemma downloadAndConvertImage0_adds (W : Platform) (url : option string) :
  keeps (adds sync_event) (SyncImages0.downloadAndConvertImage W url).
Proof.
  unfold SyncImages0.downloadAndConvertImage.
  destruct (not_local url) eqn:E; [apply (keeps_ret _ (adds_refl _))|].
  destruct url as [u|]; [|discriminate E].
  assert (He : eligible u = true) by (unfold eligible; now rewrite E).
  change (default EmptyString (Some u)) with u. cbv zeta.
  keeps_adds; simpl;
    auto 6 using in_images_public, in_images_dist, in_images_webp_public,
      in_images_webp_dist.
Qed.

Lemma each_inline_adds (W : Platform) (images : list (string * string)) :
  keeps (adds sync_event) (SyncImages.each_inline W images).
Proof.
  induction images as [|[full url] rest IH]; cbn [SyncImages.each_inline].
  - apply (keeps_ret _ (adds_refl _)).
  - apply (keeps_bind _ (adds_trans _)); [apply downloadAndConvertImage_adds|].
    intros _. exact IH.
Qed.

Lemma each_post_adds (W : Platform) (posts : list WpPost) :
  forall c, keeps (adds sync_event) (SyncImages.each_post W posts c).
Proof.
  induction posts as [|p rest IH]; intros c; cbn [SyncImages.each_post].
  - apply (keeps_ret _ (adds_refl _)).
  - apply (keeps_bind _ (adds_trans _)).
    + destruct (Text.truthy (SyncImages.heroUrl p)); [|apply (keeps_ret _ (adds_refl _))].
      apply (keeps_bind _ (adds_trans _)); [apply downloadAndConvertImage_adds|].
      intros r. apply (keeps_ret _ (adds_refl _)).
    + intros c1. apply (keeps_bind _ (adds_trans _)).
      * destruct (Text.truthy (wp_content p)); [apply each_inline_adds|].
        apply (keeps_ret _ (adds_refl _)).
      * intros _. apply IH.
Qed.

(** ** Runs of wordpress.js *)

Lemma fetchWordPressPosts_run (W : Platform) (st : State) :
  WordPress.fetchWordPressPosts W st = (Val (answered W), log EvQuery st).
Proof. reflexivity. Qed.

Lemma transformWordPressPost_total (W : Platform) (wpPost : WpPost) (st : State) :
  exists post st', WordPress.transformWordPressPost W wpPost st = (Val post, st').
Proof.
  unfold WordPress.transformWordPressPost. cbv zeta.
  match goal with
  | |- context [bind ?m _] =>
      assert (H1 : exists r st1, m st = (Val r, st1))
  end.
  { destruct (Text.truthy _); [apply downloadImage_total | now eexists _, _]. }
  destruct H1 as (r & st1 & H1). rewrite (bind_val _ _ st st1 r H1).
  match goal with
  | |- context [bind ?m _] =>
      assert (H2 : exists c st2, m st1 = (Val c, st2))
  end.
  { destruct (Text.truthy (wp_content wpPost)); [|now eexists _, _].
    destruct (rewrite_total W (default EmptyString (wp_content wpPost)) st1) as (c & st2 & E).
    rewrite (bind_val _ _ st1 st2 c E). now eexists _, _. }
  destruct H2 as (c & st2 & H2). rewrite (bind_val _ _ st1 st2 c H2).
  now eexists _, _.
Qed.

(** The fields of a transformed post that no resolution decides. *)
Lemma transformWordPressPost_carries (W : Platform) (wpPost : WpPost) (st st' : State)
    (post : AstroPost) :
  WordPress.transformWordPressPost W wpPost st = (Val post, st') ->
  carries wpPost post
  /\ description (data post) = clean_excerpt (wp_excerpt wpPost)
  /\ (Text.truthy (wp_content wpPost) = false -> content post = wp_content wpPost).
Proof.
  unfold WordPress.transformWordPressPost. cbv zeta. intros H.
  do 2 inv_bind H. injection H as <- <-.
  repeat split.
  intros Hc. rewrite Hc in E0. now injection E0 as <- _.
Qed.

Lemma transform_all_run (W : Platform) (posts : list WpPost) :
  forall st, exists out st',
    WordPress.transform_all W posts st = (Val out, st')
    /\ Forall2 carries posts out
    /\ Forall2 (fun wp post => description (data post) = clean_excerpt (wp_excerpt wp))
         posts out.
Proof.
  induction posts as [|p rest IH]; intros st.
  - exists [], st. repeat split; constructor.
  - destruct (transformWordPressPost_total W p st) as (t & st1 & E).
    destruct (IH st1) as (ts & st2 & E2 & F & G).
    destruct (transformWordPressPost_carries W p st st1 t E) as (C1 & C2 & _).
    exists (t :: ts), st2. cbn [WordPress.transform_all].
    rewrite (bind_val _ _ st st1 t E), (bind_val _ _ st1 st2 ts E2).
    repeat split; now constructor.
Qed.

(** X1. The events of getWordPressPosts.  Every call returns; it sends the
    content query once, before anything else, and after it only fetches
    URLs that hold '.local' or 'localhost', creates only the two image
    directories, and writes only where path.join places a name without
    slash under one of them.  It never deletes a file and never runs
    cwebp. *)
Theorem getWordPressPosts_events (W : Platform) (st : State) :
  exists posts st' evs,
    WordPress.getWordPressPosts W st = (Val posts, st')
    /\ trace st' = trace st ++ EvQuery :: evs
    /\ Forall wp_event evs.
Proof.
  unfold WordPress.getWordPressPosts.
  rewrite (bind_val _ _ _ _ _ (fetchWordPressPosts_run W st)).
  destruct (transform_all_run W (answered W) (log EvQuery st)) as (posts & st' & E & _).
  destruct (transform_all_adds W (answered W) _ _ _ E) as (evs & Ht & F).
  exists posts, st', evs. repeat split; try assumption.
  rewrite Ht. cbn [trace log]. now rewrite <- app_assoc.
Qed.

(** X2. getWordPressPosts returns one record per post of the answer, in the
    order of the answer; each has the slug of its post as id and as slug,
    and its title, date, WordPress id, terms and declared dimensions.  The
    answer of a failed query is the empty list, and so is the result. *)
Theorem getWordPressPosts_records (W : Platform) (st : State) :
  exists posts st',
    WordPress.getWordPressPosts W st = (Val posts, st')
    /\ Forall2 carries (answered W) posts.
Proof.
  unfold WordPress.getWordPressPosts.
  rewrite (bind_val _ _ _ _ _ (fetchWordPressPosts_run W st)).
  destruct (transform_all_run W (answered W) (log EvQuery st)) as (posts & st' & E & F & _).
  now exists posts, st'.
Qed.

(** ** Runs of sync-images.js *)

Lemma sync_fetchWordPressPosts_run (W : Platform) (st : State) :
  SyncImages.fetchWordPressPosts W st = (Val (answered W), log EvQuery st).
Proof. reflexivity. Qed.


(** *** The tally *)

Lemma tally_cases (r : ImageResult) (c : SyncImages.Counters) :
  (SyncImages.tally r c
   = SyncImages.mkCounters (SyncImages.processed c + 1) (SyncImages.skipped c)
       (SyncImages.failed c)
   /\ Text.truthy (localPath r) = true
   /\ Text.includes "/images/" (default EmptyString (localPath r)) = true)
  \/ (SyncImages.tally r c
      = SyncImages.mkCounters (SyncImages.processed c) (SyncImages.skipped c + 1)
          (SyncImages.failed c)
      /\ Text.truthy (localPath r) = true
      /\ Text.includes "/images/" (default EmptyString (localPath r)) = false)
  \/ (SyncImages.tally r c
      = SyncImages.mkCounters (SyncImages.processed c) (SyncImages.skipped c)
          (SyncImages.failed c + 1)
      /\ Text.truthy (localPath r) = false).
Proof.
  unfold SyncImages.tally.
  destruct (Text.truthy (localPath r));
    [destruct (Text.includes _ _)|]; cbn [andb]; tauto.
Qed.

Lemma tally_total (r : ImageResult) (c : SyncImages.Counters) :
  counted c -> total (SyncImages.tally r c) = total c + 1 /\ counted (SyncImages.tally r c).
Proof.
  intros (H1 & H2 & H3). unfold total, counted.
  destruct (tally_cases r c) as [(-> & _)|[(-> & _)|(-> & _)]];
    cbn [SyncImages.processed SyncImages.skipped SyncImages.failed]; lia.
Qed.

Lemma each_post_count (W : Platform) (posts : list WpPost) :
  forall c st c' st',
    counted c ->
    SyncImages.each_post W posts c st = (Val c', st') ->
    total c' = total c + Z.of_nat (length (heroes posts)) /\ counted c'.
Proof.
  induction posts as [|p rest IH]; intros c st c' st' Hc H.
  - injection H as <- <-. unfold heroes. simpl. split; [lia | exact Hc].
  - cbn [SyncImages.each_post] in H. do 2 inv_bind H.
    unfold heroes. cbn [List.filter]. fold (heroes rest).
    destruct (Text.truthy (SyncImages.heroUrl p)).
    + inv_bind E. injection E as <- <-.
      destruct (tally_total a1 c Hc) as [T1 T2].
      destruct (IH _ _ _ _ T2 H) as [I1 I2]. split; [|exact I2].
      cbn [length]. lia.
    + injection E as <- <-. now apply (IH _ _ _ _ Hc H).
Qed.

(** X12. The tally of syncImages.  When the content query delivers posts, the
    run ends with exit code 0 and every post with a featured image URL has
    been counted once, in exactly one of the three counters; inline images
    are not counted. *)
Theorem syncImages_tally (W : Platform) (st : State) :
  answered W <> [] ->
  exists c st',
    SyncImages.syncImages W st = (Val (0, Some c), st')
    /\ total c = Z.of_nat (length (heroes (answered W)))
    /\ counted c.
Proof.
  intros Hne. unfold SyncImages.syncImages.
  rewrite (bind_val _ _ _ _ _ (sync_fetchWordPressPosts_run W st)).
  destruct (answered W) as [|p rest] eqn:Ea; [contradiction|]. cbn [length Nat.eqb].
  destruct (each_post_total W (p :: rest) (SyncImages.mkCounters 0 0 0) (log EvQuery st))
    as (c & st' & E).
  assert (H0 : counted (SyncImages.mkCounters 0 0 0)) by (unfold counted; simpl; lia).
  destruct (each_post_count W _ _ _ _ _ H0 E) as [T C].
  exists c, st'. rewrite (bind_val _ _ _ _ _ E).
  split; [reflexivity|]. split; [|exact C].
  rewrite T. unfold total. simpl. lia.
Qed.

Lemma syncImages_tally_witness :
  exists c st',
    SyncImages.syncImages Scene.site Demo.empty = (Val (0, Some c), st')
    /\ total c = 1
    /\ counted c.
Proof.
  apply (syncImages_tally Scene.site Demo.empty). vm_compute. discriminate.
Defined.

Lemma includes_prefix (a b : string) : Text.includes a (a +:+ b) = true.
Proof.
  assert (H : Text.strip_prefix a (a +:+ b) = Some b).
  { induction a as [|c a IH]; [reflexivity|]. simpl. now rewrite Ascii.eqb_refl. }
  destruct (a +:+ b); simpl; simpl in H; now rewrite H.
Qed.

(** An eligible URL resolves to no path or to a path under /images/. *)
Lemma downloadAndConvertImage_local (W : Platform) (u : string) (st st' : State)
    (r : ImageResult) :
  eligible u = true ->
  SyncImages.downloadAndConvertImage W (Some u) st = (Val r, st') ->
  localPath r = None \/ exists x, localPath r = Some ("/images/" +:+ x).
Proof.
  intros He H. destruct (url_pathname W u) as [p|] eqn:Hp.
  - destruct (downloadAndConvertImage_path W u p st st' r He Hp H) as [Hr|[Hr|Hr]];
      [now left | right; eauto | right; eauto].
  - unfold SyncImages.downloadAndConvertImage in H.
    rewrite (eligible_not_local u He) in H.
    change (default EmptyString (Some u)) with u in H. rewrite Hp in H.
    injection H as <- _. now left.
Qed.

(** X13. How a featured image is counted.  An eligible URL is counted as
    processed when its resolution gives a path and as failed when it gives
    none, never as skipped.  A URL that is not eligible is never counted as
    failed: it is counted as processed when it holds '/images/' and as
    skipped otherwise. *)
Theorem hero_tally (W : Platform) (u : string) (st st' : State) (r : ImageResult)
    (c : SyncImages.Counters) :
  Text.truthy (Some u) = true ->
  SyncImages.downloadAndConvertImage W (Some u) st = (Val r, st') ->
  (eligible u = true ->
   SyncImages.tally r c
   = if Text.truthy (localPath r)
     then SyncImages.mkCounters (SyncImages.processed c + 1) (SyncImages.skipped c)
            (SyncImages.failed c)
     else SyncImages.mkCounters (SyncImages.processed c) (SyncImages.skipped c)
            (SyncImages.failed c + 1))
  /\ (eligible u = false ->
      SyncImages.tally r c
      = if Text.includes "/images/" u
        then SyncImages.mkCounters (SyncImages.processed c + 1) (SyncImages.skipped c)
               (SyncImages.failed c)
        else SyncImages.mkCounters (SyncImages.processed c) (SyncImages.skipped c + 1)
               (SyncImages.failed c)).
Proof.
  intros Hu H. split; intros He.
  - destruct (downloadAndConvertImage_local W u st st' r He H) as [Hr|(x & Hr)];
      unfold SyncImages.tally; rewrite Hr; [reflexivity|].
    change (default EmptyString (Some ("/images/" +:+ x))) with ("/images/" +:+ x).
    now rewrite includes_prefix.
  - unfold SyncImages.downloadAndConvertImage in H.
    unfold eligible in He. apply negb_false_iff in He. rewrite He in H.
    injection H as <- _. unfold SyncImages.tally. cbn [localPath].
    change (default EmptyString (Some u)) with u.
    rewrite Hu. now destruct (Text.includes "/images/" u).
Qed.

Lemma hero_tally_witness :
  SyncImages.tally
    (mkImageResult (Some "https://cdn.example.com/images/a.jpg") None)
    (SyncImages.mkCounters 0 0 0)
  = SyncImages.mkCounters 1 0 0.
Proof.
  refine (proj2 (hero_tally Demo.online "https://cdn.example.com/images/a.jpg"
                   Demo.empty Demo.empty _ (SyncImages.mkCounters 0 0 0) _ _) _);
    vm_compute; reflexivity.
Defined.

(** ** Paths of the two image roots *)

Lemma join_dist_cases (w : string) :
  Path.join Path.distImagesDir w = "dist/images"
  \/ Path.join Path.distImagesDir w = "dist"
  \/ Path.join Path.distImagesDir w = "dist/images/" +:+ w.
Proof.
  unfold Path.join.
  destruct (String.eqb w EmptyString || String.eqb w "."); [now left|].
  destruct (String.eqb w ".."); [right; now left | right; now right].
Qed.

(** No path under public/images is a path under dist/images. *)
Lemma public_not_dist (a b : string) :
  Path.join Path.publicImagesDir a <> Path.join Path.distImagesDir b.
Proof.
  destruct (join_public_cases a) as [H|[H|H]], (join_dist_cases b) as [G|[G|G]];
    rewrite H, G; discriminate.
Qed.

Lemma meta_not_dist (f b : string) : meta_path f <> Path.join Path.distImagesDir b.
Proof.
  rewrite meta_path_eq.
  destruct (join_dist_cases b) as [G|[G|G]]; rewrite G; discriminate.
Qed.

(** The sidecar of a name is no file that path.join places directly under
    public/images. *)
Lemma meta_not_public (f x : string) :
  no_slash x = true -> meta_path f <> Path.join Path.publicImagesDir x.
Proof.
  intros Hx. rewrite meta_path_eq.
  destruct (join_public_cases x) as [G|[G|G]]; rewrite G; try discriminate.
  intros [= E]. rewrite <- E in Hx. discriminate Hx.
Qed.

Lemma join_public_inj (a b : string) :
  (3 <= String.length a)%nat -> (3 <= String.length b)%nat ->
  Path.join Path.publicImagesDir a = Path.join Path.publicImagesDir b -> a = b.
Proof. intros La Lb. rewrite !join_long by assumption. now intros [= E]. Qed.

Lemma join_dist_inj (a b : string) :
  (3 <= String.length a)%nat -> (3 <= String.length b)%nat ->
  Path.join Path.distImagesDir a = Path.join Path.distImagesDir b -> a = b.
Proof. intros La Lb. rewrite !join_long by assumption. now intros [= E]. Qed.

(** A name the extension pattern rewrites, and what it becomes, are long
    enough for path.join to append them. *)
Lemma renamed_lengths (f : string) :
  SyncImages.webpFileName f <> f ->
  (3 <= String.length f)%nat /\ (3 <= String.length (SyncImages.webpFileName f))%nat.
Proof.
  intros Hne. destruct (replace_ext_changed f Hne) as (stem & ext & Hf & Hext & Hwebp).
  split.
  - rewrite Hf, length_append. apply ext_here_length in Hext. lia.
  - unfold SyncImages.webpFileName. rewrite Hwebp, length_append. simpl. lia.
Qed.

(** ** The conversion block of sync-images.js *)

(** With the download in both roots and a working cwebp the block runs to
    its end: two transcodings, two deletions. *)
Lemma convert_run (W : Platform) (n wn body w : string) (st : State) :
  files st !! Path.join Path.publicImagesDir n = Some body ->
  files st !! Path.join Path.distImagesDir n = Some body ->
  cwebp W body = Some w ->
  (let* _ := exec_cwebp W (Path.join Path.publicImagesDir n)
               (Path.join Path.publicImagesDir wn) in
   let* _ := exec_cwebp W (Path.join Path.distImagesDir n)
               (Path.join Path.distImagesDir wn) in
   let* _ := Fs.unlinkSync (Path.join Path.publicImagesDir n) in
   let* _ := Fs.unlinkSync (Path.join Path.distImagesDir n) in
   ret true) st
  = (Val true,
     Fs.unlinked (Path.join Path.distImagesDir n)
       (Fs.unlinked (Path.join Path.publicImagesDir n)
          (transcoded (Path.join Path.distImagesDir n) (Path.join Path.distImagesDir wn) w
             (transcoded (Path.join Path.publicImagesDir n)
                (Path.join Path.publicImagesDir wn) w st)))).
Proof.
  intros Hp Hd Hw.
  set (P := Path.join Path.publicImagesDir n) in *.
  set (D := Path.join Path.distImagesDir n) in *.
  set (PW := Path.join Path.publicImagesDir wn).
  set (DW := Path.join Path.distImagesDir wn).
  assert (PD : P <> D) by apply public_not_dist.
  assert (PDW : P <> DW) by apply public_not_dist.
  assert (PWD : PW <> D) by apply public_not_dist.
  rewrite (bind_val _ _ _ _ _ (exec_ok W P PW body w st Hp Hw)).
  assert (H2 : files (transcoded P PW w st) !! D = Some body).
  { cbn [files transcoded]. now rewrite lookup_insert_ne. }
  rewrite (bind_val _ _ _ _ _ (exec_ok W D DW body w _ H2 Hw)).
  assert (H3 : is_Some (files (transcoded D DW w (transcoded P PW w st)) !! P)).
  { cbn [files transcoded]. rewrite lookup_insert_ne by (intros E; now apply PDW).
    destruct (decide (PW = P)) as [->|Hne];
      [rewrite lookup_insert_eq | rewrite lookup_insert_ne by exact Hne]; eauto. }
  destruct H3 as [x3 H3].
  assert (U1 : Fs.unlinkSync P (transcoded D DW w (transcoded P PW w st))
               = (Val tt, Fs.unlinked P (transcoded D DW w (transcoded P PW w st)))).
  { unfold Fs.unlinkSync. now rewrite H3. }
  rewrite (bind_val _ _ _ _ _ U1).
  assert (H4 : is_Some (files (Fs.unlinked P (transcoded D DW w (transcoded P PW w st)))
                          !! D)).
  { cbn [files transcoded Fs.unlinked]. rewrite lookup_delete_ne by exact PD.
    destruct (decide (DW = D)) as [->|Hne];
      [rewrite lookup_insert_eq; eauto|].
    rewrite lookup_insert_ne by exact Hne. rewrite lookup_insert_ne by exact PWD. eauto. }
  destruct H4 as [x4 H4].
  assert (U2 : Fs.unlinkSync D (Fs.unlinked P (transcoded D DW w (transcoded P PW w st)))
               = (Val tt, Fs.unlinked D
                            (Fs.unlinked P (transcoded D DW w (transcoded P PW w st))))).
  { unfold Fs.unlinkSync. now rewrite H4. }
  rewrite (bind_val _ _ _ _ _ U2). reflexivity.
Qed.

(** ** A resolution that downloads *)

Lemma files_prepared (u : string) (st : State) : files (prepared u st) = files st.
Proof. unfold prepared. now rewrite !files_ensured. Qed.

Lemma downloaded_public (n body : string) (st : State) :
  files (downloaded n body st) !! Path.join Path.publicImagesDir n = Some body.
Proof.
  unfold downloaded. cbn [files Fs.written].
  rewrite lookup_insert_ne by (intros E; symmetry in E; revert E; apply public_not_dist).
  apply lookup_insert_eq.
Qed.

Lemma downloaded_dist (n body : string) (st : State) :
  files (downloaded n body st) !! Path.join Path.distImagesDir n = Some body.
Proof. unfold downloaded. cbn [files Fs.written]. apply lookup_insert_eq. Qed.

(** What a call of downloadAndConvertImage did when no cached file stood
    at the cache path and it returned a path: the download succeeded and
    was written under both roots; then either cwebp failed on it, or the
    conversion block ran to its end and the sidecar was written. *)
Lemma download_inv (W : Platform) (u p : string) (st st1 : State) (r : ImageResult) :
  eligible u = true ->
  url_pathname W u = Some p ->
  Fs.exists_at st (cache_path (Path.basename p)) = false ->
  SyncImages.downloadAndConvertImage W (Some u) st = (Val r, st1) ->
  localPath r <> None ->
  exists body,
    http_get W u = FetchResponse true body
    /\ (Path.join Path.publicImagesDir (Path.basename p) ∉ dirs (prepared u st))
    /\ (Path.join Path.distImagesDir (Path.basename p) ∉ dirs (prepared u st))
    /\ ((cwebp W body = None
         /\ r = mkImageResult (Some ("/images/" +:+ Path.basename p)) None
         /\ st1 = log (EvExec (Path.join Path.publicImagesDir (Path.basename p))
                         (cache_path (Path.basename p)))
                    (downloaded (Path.basename p) body (prepared u st)))
        \/ (exists w,
              cwebp W body = Some w
              /\ r = mkImageResult
                       (Some ("/images/" +:+ SyncImages.webpFileName (Path.basename p)))
                       (color_of W
                          (files (converted (Path.basename p)
                                    (SyncImages.webpFileName (Path.basename p)) w
                                    (downloaded (Path.basename p) body (prepared u st)))
                             !! cache_path (Path.basename p)))
              /\ st1 = Fs.written (meta_path (Path.basename p))
                         (SyncImages.json_meta (resultColor r))
                         (converted (Path.basename p)
                            (SyncImages.webpFileName (Path.basename p)) w
                            (downloaded (Path.basename p) body (prepared u st)))
              /\ (meta_path (Path.basename p) ∉ dirs (prepared u st)))).
Proof.
  intros He Hp Hex H Hpath.
  unfold SyncImages.downloadAndConvertImage in H.
  rewrite (eligible_not_local u He) in H.
  change (default EmptyString (Some u)) with u in H.
  apply try_catch_inv in H as [H|(st0 & _ & [= <- <-])]; [|now contradiction Hpath].
  rewrite (pathname_step W u p _ st Hp) in H.
  rewrite existsSync_step in H.
  fold (cache_path (Path.basename p)) in H.
  fold (meta_path (Path.basename p)) in H.
  set (n := Path.basename p) in *. rewrite Hex in H.
  inv_bind H. apply fetch_inv in E as [-> Hget].
  destruct a as [ok body]. cbn [fst snd] in *.
  destruct ok; cbn [negb] in H; [|injection H as <- <-; now contradiction Hpath].
  rewrite !ensure_dir_step in H. fold (prepared u st) in H.
  inv_bind H. pose proof E as E'. apply write_inv in E' as [-> Hw1]. clear E.
  inv_bind H. pose proof E as E'. apply write_inv in E' as [-> Hw2]. clear E.
  fold (downloaded n body (prepared u st)) in H.
  cbn [dirs Fs.written] in Hw2.
  exists body. split; [exact Hget|]. split; [exact Hw1|]. split; [exact Hw2|].
  set (st5 := downloaded n body (prepared u st)) in *.
  destruct (cwebp W body) as [w|] eqn:Hc.
  - right. exists w. split; [reflexivity|].
    pose proof (convert_run W n (SyncImages.webpFileName n) body w st5
                  (downloaded_public _ _ _) (downloaded_dist _ _ _) Hc) as Hrun.
    fold (converted n (SyncImages.webpFileName n) w st5) in Hrun.
    rewrite (bind_val _ _ _ _ _ (try_catch_val _ _ _ _ _ Hrun)) in H.
    cbn [negb] in H.
    rewrite (bind_val _ _ _ _ _ (extractDominantColor_run W _ _)) in H.
    inv_bind H. apply write_inv in E as [-> Hw3]. injection H as <- <-.
    cbn [resultColor]. repeat split.
    unfold converted in Hw3. cbn [dirs Fs.unlinked transcoded] in Hw3.
    unfold st5, downloaded in Hw3. cbn [dirs Fs.written] in Hw3. exact Hw3.
  - left. split; [reflexivity|].
    match type of H with
    | bind (try_catch ?m ?h) _ _ = _ =>
        rewrite (bind_val (try_catch m h) _ st5 _ false
                   (eq_trans (try_catch_exn m h st5 _
                                (bind_exn _ _ st5 _
                                   (exec_fail W _ _ body st5 (downloaded_public _ _ _) Hc)))
                             eq_refl)) in H
    end.
    cbn [negb] in H. injection H as <- <-. split; reflexivity.
Qed.

(** ** What a conversion leaves behind *)





(** ** Downloads that fail *)

Lemma fetch_throws (W : Platform) (u : string) (st : State) :
  http_get W u = FetchThrows -> fetch W u st = (Exn, log (EvFetch u) st).
Proof. unfold fetch. now intros ->. Qed.

(** X8. A download that fails.  When fetch throws or answers with a status
    that is not ok, each of the three resolve functions returns a null path
    (and a null colour), and all it leaves is the record of the fetch:
    files and directories are as before.  The two revisions of
    sync-images.js reach the fetch only when no cached file stands at the
    cache path. *)
Theorem failed_fetch (W : Platform) (u : string) (st : State) :
  eligible u = true ->
  http_get W u = FetchThrows \/ (exists body, http_get W u = FetchResponse false body) ->
  WordPress.downloadImage W (Some u) st = (Val SyncImages.no_result, log (EvFetch u) st)
  /\ forall p,
       url_pathname W u = Some p ->
       Fs.exists_at st (cache_path (Path.basename p)) = false ->
       SyncImages.downloadAndConvertImage W (Some u) st
       = (Val SyncImages.no_result, log (EvFetch u) st)
       /\ SyncImages0.downloadAndConvertImage W (Some u) st
          = (Val None, log (EvFetch u) st).
Proof.
  intros He Hget. split; [|intros p Hp Hex; split].
  - unfold WordPress.downloadImage. rewrite (eligible_not_local u He).
    change (default EmptyString (Some u)) with u.
    destruct Hget as [Hget|(body & Hget)].
    + erewrite try_catch_exn; [reflexivity|].
      apply bind_exn. now apply fetch_throws.
    + apply try_catch_val. now rewrite (fetch_step W u body false _ _ Hget).
  - unfold SyncImages.downloadAndConvertImage. rewrite (eligible_not_local u He).
    change (default EmptyString (Some u)) with u.
    destruct Hget as [Hget|(body & Hget)].
    + erewrite try_catch_exn; [reflexivity|].
      rewrite (pathname_step W u p _ st Hp), existsSync_step.
      unfold cache_path in Hex. rewrite Hex.
      apply bind_exn. now apply fetch_throws.
    + apply try_catch_val.
      rewrite (pathname_step W u p _ st Hp), existsSync_step.
      unfold cache_path in Hex. rewrite Hex.
      now rewrite (fetch_step W u body false _ _ Hget).
  - unfold SyncImages0.downloadAndConvertImage. rewrite (eligible_not_local u He).
    change (default EmptyString (Some u)) with u.
    destruct Hget as [Hget|(body & Hget)].
    + erewrite try_catch_exn; [reflexivity|].
      rewrite (pathname_step W u p _ st Hp), existsSync_step.
      unfold cache_path in Hex. rewrite Hex.
      apply bind_exn. now apply fetch_throws.
    + apply try_catch_val.
      rewrite (pathname_step W u p _ st Hp), existsSync_step.
      unfold cache_path in Hex. rewrite Hex.
      now rewrite (fetch_step W u body false _ _ Hget).
Qed.

Lemma failed_fetch_witness :
  WordPress.downloadImage Demo.offline (Some Demo.rocket) Demo.published
  = (Val SyncImages.no_result, log (EvFetch Demo.rocket) Demo.published).
Proof.
  refine (proj1 (failed_fetch Demo.offline Demo.rocket Demo.published _ _)).
  - vm_compute; reflexivity.
  - left. reflexivity.
Defined.

(** ** What downloadImage of wordpress.js stores *)

Lemma palette_block_state (W : Platform) (path : string) (st st' : State)
    (c : option string) :
  try_catch
    (let* d := Fs.readFile path in
     match vibrant_palette W d with
     | Some p => ret (WordPress.palette_color p)
     | None => throw
     end)
    (ret None) st = (Val c, st') ->
  st' = st.
Proof.
  unfold try_catch, bind, Fs.readFile, ret, throw.
  destruct (files st !! path) as [d|]; [|now intros [= _ <-]].
  destruct (vibrant_palette W d); now intros [= _ <-].
Qed.

(** X7. A path returned by downloadImage of wordpress.js for an eligible URL
    is /images/ followed by the final segment of the URL path, and the
    bytes of the response then stand under that name in both image
    roots. *)
Theorem downloadImage_stores (W : Platform) (u : string) (st st' : State) (r : ImageResult) :
  eligible u = true ->
  WordPress.downloadImage W (Some u) st = (Val r, st') ->
  localPath r <> None ->
  exists p body,
    url_pathname W u = Some p
    /\ http_get W u = FetchResponse true body
    /\ localPath r = Some ("/images/" +:+ Path.basename p)
    /\ files st' !! Path.join Path.publicImagesDir (Path.basename p) = Some body
    /\ files st' !! Path.join Path.distImagesDir (Path.basename p) = Some body.
Proof.
  intros He H Hsome. unfold WordPress.downloadImage in H.
  rewrite (eligible_not_local u He) in H.
  change (default EmptyString (Some u)) with u in H.
  apply try_catch_inv in H as [H|(st1 & _ & [= <- <-])]; [|now contradiction Hsome].
  inv_bind H. apply fetch_inv in E as [-> Hget].
  destruct a as [ok body]. cbn [fst snd] in *.
  destruct ok; cbn [negb] in H; [|injection H as <- <-; now contradiction Hsome].
  inv_bind H. destruct (url_pathname W u) as [p|] eqn:Hp; [|discriminate E].
  injection E as <- <-.
  inv_bind H. apply ensure_dir_inv in E as ->.
  inv_bind H. apply ensure_dir_inv in E as ->.
  inv_bind H. apply write_inv in E as [-> _].
  inv_bind H. apply write_inv in E as [-> _].
  inv_bind H. apply palette_block_state in E as ->.
  injection H as <- <-.
  exists p, body. repeat split; try assumption.
  - apply downloaded_public.
  - apply downloaded_dist.
Qed.

Lemma downloadImage_stores_witness :
  exists p body,
    url_pathname Demo.online Demo.rocket = Some p
    /\ http_get Demo.online Demo.rocket = FetchResponse true body
    /\ Some "/images/rocket.jpg" = Some ("/images/" +:+ Path.basename p)
    /\ files (snd Shots.plain_run) !! Path.join Path.publicImagesDir (Path.basename p)
       = Some body
    /\ files (snd Shots.plain_run) !! Path.join Path.distImagesDir (Path.basename p)
       = Some body.
Proof.
  apply (downloadImage_stores Demo.online Demo.rocket Demo.empty (snd Shots.plain_run)
           (mkImageResult (Some "/images/rocket.jpg") (Some "#112233")));
    try (vm_compute; reflexivity).
  vm_compute. discriminate.
Defined.

(** ** The revision of sync-images.js without colours *)

Lemma cached_call0 (W : Platform) (u p : string) (st : State) :
  eligible u = true ->
  url_pathname W u = Some p ->
  Fs.exists_at st (cache_path (Path.basename p)) = true ->
  SyncImages0.downloadAndConvertImage W (Some u) st
  = (Val (Some ("/images/" +:+ SyncImages.webpFileName (Path.basename p))), st).
Proof.
  intros He Hp Hex. unfold SyncImages0.downloadAndConvertImage.
  rewrite (eligible_not_local u He). change (default EmptyString (Some u)) with u.
  apply try_catch_val.
  rewrite (pathname_step W u p _ st Hp), existsSync_step.
  unfold cache_path in Hex. now rewrite Hex.
Qed.

Lemma first_call0_inv (W : Platform) (u p : string) (st st1 : State) :
  eligible u = true ->
  url_pathname W u = Some p ->
  SyncImages0.downloadAndConvertImage W (Some u) st
  = (Val (Some ("/images/" +:+ SyncImages.webpFileName (Path.basename p))), st1) ->
  Fs.exists_at st (cache_path (Path.basename p)) = true
  \/ SyncImages.webpFileName (Path.basename p) <> Path.basename p ->
  Fs.exists_at st1 (cache_path (Path.basename p)) = true.
Proof.
  intros He Hp H Hcase.
  unfold SyncImages0.downloadAndConvertImage in H.
  rewrite (eligible_not_local u He) in H.
  change (default EmptyString (Some u)) with u in H.
  apply try_catch_inv in H as [H|(st0 & _ & [= ])].
  rewrite (pathname_step W u p _ st Hp) in H.
  rewrite existsSync_step in H.
  fold (cache_path (Path.basename p)) in H.
  set (n := Path.basename p) in *.
  destruct (Fs.exists_at st (cache_path n)) eqn:Hex.
  - now injection H as <-.
  - destruct Hcase as [Hcase|Hne]; [discriminate Hcase|].
    inv_bind H. apply fetch_inv in E as [-> Hget].
    destruct (negb (fst a)); [discriminate H|].
    inv_bind H. apply ensure_dir_inv in E as ->.
    inv_bind H. apply ensure_dir_inv in E as ->.
    inv_bind H. apply write_inv in E as [-> Hw1].
    inv_bind H. apply write_inv in E as [-> Hw2].
    inv_bind H.
    destruct a4; cbn [negb] in H.
    2:{ injection H as H _. now symmetry in H. }
    injection H as <-.
    apply try_catch_inv in E as [E|(st9 & _ & E)]; [|discriminate E].
    inv_bind E. apply exec_inv in E0 as (d1 & w1 & Hd1 & Hw1' & ->).
    inv_bind E. apply exec_inv in E0 as (d2 & w2 & Hd2 & Hw2' & ->).
    inv_bind E. apply unlink_inv in E0 as ->.
    inv_bind E. apply unlink_inv in E0 as ->.
    injection E as <-.
    destruct (renamed_lengths n Hne) as [Ln Lw].
    apply (exists_at_file _ _ w1). unfold cache_path. fold n.
    cbn [files Fs.unlinked transcoded].
    rewrite lookup_delete_ne by (intros E; symmetry in E; revert E; apply public_not_dist).
    rewrite lookup_delete_ne
      by (intros E; apply join_public_inj in E; [now symmetry in E | assumption | assumption]).
    rewrite lookup_insert_ne by (intros E; symmetry in E; revert E; apply public_not_dist).
    apply lookup_insert_eq.
Qed.



(** ** The file system under wordpress.js *)

Lemma wp_frame_refl (st : State) : wp_frame st st.
Proof. repeat split; auto. Qed.

Lemma wp_frame_trans (a b c : State) : wp_frame a b -> wp_frame b c -> wp_frame a c.
Proof.
  intros (A1 & A2 & A3 & A4) (B1 & B2 & B3 & B4). repeat split.
  - intros d Hd. apply B1, A1, Hd.
  - intros d Hd. apply B2 in Hd as [Hd|Hd]; [apply A2, Hd | now right].
  - intros p Hp. apply B3, A3, Hp.
  - intros p Hp. now rewrite (B4 p Hp), (A4 p Hp).
Qed.

Lemma wp_frame_log (e : Event) (st : State) : wp_frame st (log e st).
Proof. repeat split; auto. Qed.

Lemma wp_frame_fetch (W : Platform) (u : string) : keeps wp_frame (fetch W u).
Proof.
  intros st res st'. unfold fetch.
  destruct (http_get W u); intros [= _ <-]; apply wp_frame_log.
Qed.

Lemma wp_frame_mkdir (d : string) :
  d = Path.publicImagesDir \/ d = Path.distImagesDir -> keeps wp_frame (Fs.mkdirSync d).
Proof.
  intros Hd st res st' [= _ <-]. repeat split; cbn [dirs files Fs.made]; auto.
  - intros x Hx. apply elem_of_union. now right.
  - intros x Hx. apply elem_of_union in Hx as [Hx|Hx]; [right | now left].
    apply elem_of_list_to_set, list_elem_of_In in Hx.
    unfold image_dirs. apply in_app_iff. destruct Hd as [->| ->]; [now left | now right].
Qed.

Lemma wp_frame_write (p data : string) :
  in_images p -> keeps wp_frame (Fs.writeFileSync p data).
Proof.
  intros Hp st res st'. unfold Fs.writeFileSync.
  destruct (bool_decide (p ∈ dirs st)); intros [= _ <-]; [apply wp_frame_refl|].
  repeat split; cbn [dirs files Fs.written]; auto.
  - intros q Hq. destruct (decide (p = q)) as [->|Hne];
      [rewrite lookup_insert_eq; eauto | now rewrite lookup_insert_ne].
  - intros q Hq. apply lookup_insert_ne. intros ->. contradiction.
Qed.

(** Walks through a block of wordpress.js. *)
Ltac keeps_frame :=
  repeat first
    [ apply (keeps_ret _ wp_frame_refl)
    | apply (keeps_throw _ wp_frame_refl)
    | apply (keeps_existsSync _ wp_frame_refl)
    | apply (keeps_readFile _ wp_frame_refl)
    | apply (keeps_pathname _ wp_frame_refl)
    | apply (keeps_bind _ wp_frame_trans); [|intros ?]
    | apply (keeps_try_catch _ wp_frame_trans)
    | apply (keeps_when _ wp_frame_refl)
    | apply (keeps_ensure_dir _ wp_frame_refl wp_frame_trans)
    | apply wp_frame_fetch
    | apply wp_frame_mkdir
    | apply wp_frame_write
    | match goal with
      | |- keeps _ (if ?b then _ else _) => destruct b
      | |- keeps _ (match ?x with Some _ => _ | None => _ end) => destruct x
      end ].

Lemma downloadImage_frame (W : Platform) (url : option string) :
  keeps wp_frame (WordPress.downloadImage W url).
Proof.
  unfold WordPress.downloadImage.
  destruct (not_local url); [apply (keeps_ret _ wp_frame_refl)|]. cbv zeta.
  keeps_frame; auto using in_images_public, in_images_dist.
Qed.

Lemma substitute_frame (W : Platform) (images : list (string * string)) :
  forall content, keeps wp_frame (WordPress.substitute W images content).
Proof.
  induction images as [|[full url] rest IH]; intros content; cbn [WordPress.substitute].
  - apply (keeps_ret _ wp_frame_refl).
  - apply (keeps_bind _ wp_frame_trans); [apply downloadImage_frame|]. intros r. apply IH.
Qed.

Lemma transformWordPressPost_frame (W : Platform) (wpPost : WpPost) :
  keeps wp_frame (WordPress.transformWordPressPost W wpPost).
Proof.
  unfold WordPress.transformWordPressPost, WordPress.rewrite. cbv zeta.
  apply (keeps_bind _ wp_frame_trans).
  - destruct (Text.truthy _); [apply downloadImage_frame | apply (keeps_ret _ wp_frame_refl)].
  - intros r. apply (keeps_bind _ wp_frame_trans).
    + destruct (Text.truthy _); [|apply (keeps_ret _ wp_frame_refl)].
      apply (keeps_bind _ wp_frame_trans).
      * apply (keeps_bind _ wp_frame_trans); [apply substitute_frame|].
        intros c. apply (keeps_ret _ wp_frame_refl).
      * intros c. apply (keeps_ret _ wp_frame_refl).
    + intros c. apply (keeps_ret _ wp_frame_refl).
Qed.

Lemma transform_all_frame (W : Platform) (posts : list WpPost) :
  keeps wp_frame (WordPress.transform_all W posts).
Proof.
  induction posts as [|p rest IH]; cbn [WordPress.transform_all].
  - apply (keeps_ret _ wp_frame_refl).
  - apply (keeps_bind _ wp_frame_trans); [apply transformWordPressPost_frame|].
    intros t. apply (keeps_bind _ wp_frame_trans); [exact IH|].
    intros ts. apply (keeps_ret _ wp_frame_refl).
Qed.

Lemma getWordPressPosts_keeps_frame (W : Platform) :
  keeps wp_frame (WordPress.getWordPressPosts W).
Proof.
  unfold WordPress.getWordPressPosts.
  apply (keeps_bind _ wp_frame_trans); [|intros posts; apply transform_all_frame].
  intros st res st' [= _ <-]. apply wp_frame_log.
Qed.

Lemma getWordPressPosts_total (W : Platform) (st : State) :
  exists posts st', WordPress.getWordPressPosts W st = (Val posts, st').
Proof.
  unfold WordPress.getWordPressPosts.
  rewrite (bind_val _ _ _ _ _ (fetchWordPressPosts_run W st)).
  destruct (transform_all_run W (answered W) (log EvQuery st)) as (posts & st' & E & _).
  now exists posts, st'.
Qed.

(** X3. The file system after getWordPressPosts.  Every directory and every
    file that was there is still there; the only new directories are
    public, public/images, dist and dist/images; and a file keeps its
    content unless path.join places it under one of the two image roots
    with a name without slash. *)
Theorem getWordPressPosts_frame (W : Platform) (st : State) :
  exists posts st',
    WordPress.getWordPressPosts W st = (Val posts, st')
    /\ wp_frame st st'.
Proof.
  destruct (getWordPressPosts_total W st) as (posts & st' & E).
  exists posts, st'. split; [exact E|].
  exact (getWordPressPosts_keeps_frame W st _ st' E).
Qed.

(** ** The outcome of sync-data.js *)

Lemma dataFile_not_image_dir : ~ In SyncData.dataFile image_dirs.
Proof. vm_compute. intros H. repeat (destruct H as [H|H]; [discriminate H|]). exact H. Qed.


(** ** The description of a post *)

(** *** Reversal *)

Lemma rev_app_append (s acc : string) :
  String.rev_app s acc = String.rev_app s EmptyString +:+ acc.
Proof.
  revert acc. induction s as [|c s IH]; intros acc; [reflexivity|].
  cbn [String.rev_app]. rewrite (IH (String c acc)), (IH (String c EmptyString)).
  now rewrite append_assoc.
Qed.

Lemma rev_cons (c : ascii) (s : string) :
  String.rev (String c s) = String.rev s +:+ String c EmptyString.
Proof. unfold String.rev. cbn [String.rev_app]. apply rev_app_append. Qed.

Lemma rev_append (a b : string) : String.rev (a +:+ b) = String.rev b +:+ String.rev a.
Proof.
  induction a as [|c a IH].
  - cbn [String.append]. now rewrite append_nil_r.
  - cbn [String.append]. now rewrite !rev_cons, IH, append_assoc.
Qed.

Lemma rev_involutive (s : string) : String.rev (String.rev s) = s.
Proof.
  induction s as [|c s IH]; [reflexivity|].
  rewrite rev_cons, rev_append, IH. reflexivity.
Qed.

(** *** White space at the two ends *)

Lemma skip_ws_split (s : string) :
  exists w, s = w +:+ Text.skip_ws s /\ all_ws w = true.
Proof.
  induction s as [|c s (w & Hs & Hw)]; [now exists EmptyString|].
  cbn [Text.skip_ws]. destruct (Text.is_ws c) eqn:E.
  - exists (String c w). cbn [String.append]. split; [now rewrite <- Hs|].
    unfold all_ws in *. cbn [all_chars]. now rewrite E.
  - now exists EmptyString.
Qed.

Lemma skip_ws_head (s r : string) (c : ascii) :
  Text.skip_ws s = String c r -> Text.is_ws c = false.
Proof.
  induction s as [|a s IH]; [discriminate|].
  cbn [Text.skip_ws]. destruct (Text.is_ws a) eqn:E; [exact IH|].
  now intros [= <- _].
Qed.

Lemma all_ws_rev (w : string) : all_ws (String.rev w) = all_ws w.
Proof. apply all_chars_rev. Qed.

(** trim takes white space, and nothing else, from the two ends. *)
Lemma trim_split (s : string) :
  exists a b, s = a +:+ Text.skip_ws s /\ Text.skip_ws s = Text.trim s +:+ b
              /\ all_ws a = true /\ all_ws b = true.
Proof.
  destruct (skip_ws_split s) as (a & Hs & Ha).
  destruct (skip_ws_split (String.rev (Text.skip_ws s))) as (w & Hr & Hw).
  exists a, (String.rev w). split; [exact Hs|].
  split; [|split; [exact Ha | now rewrite all_ws_rev]].
  unfold Text.trim. now rewrite <- rev_append, <- Hr, rev_involutive.
Qed.

Lemma skip_ws_idem (s : string) : Text.skip_ws (Text.skip_ws s) = Text.skip_ws s.
Proof.
  destruct (Text.skip_ws s) as [|d y] eqn:Ed; [reflexivity|].
  apply skip_ws_stop. eapply skip_ws_head, Ed.
Qed.

Lemma trim_starts (s : string) : Text.skip_ws (Text.trim s) = Text.trim s.
Proof.
  destruct (trim_split s) as (a & b & _ & Hy & _).
  pose proof (skip_ws_idem s) as H2. rewrite Hy in H2.
  destruct (Text.trim s) as [|c z]; [reflexivity|].
  apply skip_ws_stop. cbn [String.append] in H2. eapply skip_ws_head, H2.
Qed.

Lemma trim_ends (s : string) : ends_ws (Text.trim s) = false.
Proof.
  unfold Text.trim.
  destruct (Text.skip_ws (String.rev (Text.skip_ws s))) as [|c q] eqn:E; [reflexivity|].
  rewrite rev_cons. unfold ends_ws. rewrite last_char_snoc.
  eapply skip_ws_head, E.
Qed.

(** *** Tags *)

Lemma after_gt_length (s r : string) :
  Regex.after_gt s = Some r -> (String.length r < String.length s)%nat.
Proof.
  revert r. induction s as [|c s IH]; intros r; [discriminate|].
  cbn [Regex.after_gt]. destruct (Ascii.eqb c ">"%char).
  - intros [= <-]. simpl. lia.
  - intros H. apply IH in H. simpl. lia.
Qed.

Lemma match_tag_consuming : consuming Regex.match_tag.
Proof.
  intros s r. destruct s as [|c s]; [discriminate|].
  cbn [Regex.match_tag]. destruct (Ascii.eqb c "<"%char); [|discriminate].
  intros H. apply after_gt_length in H. simpl. lia.
Qed.

Lemma match_tag_open (c : ascii) (s : string) :
  Regex.after_gt s = None -> Regex.match_tag (String c s) = None.
Proof. intros H. cbn [Regex.match_tag]. rewrite H. now destruct (Ascii.eqb c "<"%char). Qed.

(** A text without [>] holds no tag and is left as it is. *)
Lemma strip_tags_open (s : string) :
  Regex.after_gt s = None -> Regex.strip_tags s = s.
Proof.
  unfold Regex.strip_tags. induction s as [|c s IH]; intros H.
  - apply delete_all_empty, match_tag_consuming.
  - cbn [Regex.after_gt] in H. destruct (Ascii.eqb c ">"%char); [discriminate|].
    rewrite (delete_all_miss _ c s (match_tag_open c s H)). now rewrite IH.
Qed.

(** What the removal of the tags leaves holds no tag. *)
Lemma strip_tags_clean (s : string) : occurs Regex.match_tag (Regex.strip_tags s) = false.
Proof.
  remember (String.length s) as k eqn:Hk. revert s Hk.
  induction k as [k IH] using lt_wf_ind. intros s ->.
  unfold Regex.strip_tags in *.
  destruct (Regex.match_tag s) as [r|] eqn:E.
  - rewrite (delete_all_hit _ s r match_tag_consuming E).
    apply (IH _ (match_tag_consuming s r E) r eq_refl).
  - destruct s as [|c s].
    + now rewrite (delete_all_empty _ match_tag_consuming).
    + rewrite (delete_all_miss _ c s E).
      pose proof (IH (String.length s) (Nat.lt_succ_diag_r _) s eq_refl) as Hs.
      cbn [occurs]. cbn [Regex.match_tag] in E |- *.
      destruct (Ascii.eqb c "<"%char); [|exact Hs].
      fold (Regex.strip_tags s) in *. rewrite (strip_tags_open s E) in *.
      now rewrite E.
Qed.

Lemma occurs_suffix (m : string -> option string) (a s : string) :
  occurs m (a +:+ s) = false -> occurs m s = false.
Proof.
  induction a as [|c a IH]; [easy|].
  cbn [String.append occurs]. destruct (m (String c (a +:+ s))); [discriminate | exact IH].
Qed.

Lemma after_gt_prefix (z b : string) :
  Regex.after_gt (z +:+ b) = None -> Regex.after_gt z = None.
Proof.
  induction z as [|c z IH]; [reflexivity|].
  cbn [String.append Regex.after_gt]. now destruct (Ascii.eqb c ">"%char).
Qed.

Lemma occurs_tag_prefix (z b : string) :
  occurs Regex.match_tag (z +:+ b) = false -> occurs Regex.match_tag z = false.
Proof.
  induction z as [|c z IH]; [reflexivity|].
  cbn [String.append occurs Regex.match_tag].
  destruct (Ascii.eqb c "<"%char).
  - destruct (Regex.after_gt (z +:+ b)) eqn:E; [discriminate|].
    rewrite (after_gt_prefix z b E). exact IH.
  - exact IH.
Qed.

Lemma trim_clean (s : string) :
  occurs Regex.match_tag s = false -> occurs Regex.match_tag (Text.trim s) = false.
Proof.
  intros H. destruct (trim_split s) as (a & b & Hs & Hy & _).
  rewrite Hs, Hy in H. now apply occurs_suffix, occurs_tag_prefix in H.
Qed.

(** The description made of an excerpt holds no tag and has no white space
    at either end. *)
Lemma clean_excerpt_spec (e : option string) :
  occurs Regex.match_tag (clean_excerpt e) = false
  /\ Text.skip_ws (clean_excerpt e) = clean_excerpt e
  /\ ends_ws (clean_excerpt e) = false.
Proof.
  unfold clean_excerpt. destruct (Text.truthy e); [|now repeat split].
  split; [apply trim_clean, strip_tags_clean|].
  split; [apply trim_starts | apply trim_ends].
Qed.

(** ** The matches of the image pattern *)

Lemma strip_prefix_ci_take (p s r : string) :
  Text.strip_prefix_ci p s = Some r ->
  s = Text.take (String.length p) s +:+ r
  /\ Text.equal_ci p (Text.take (String.length p) s) = true.
Proof.
  revert s. induction p as [|a p IH]; intros s.
  - intros [= <-]. split; [|reflexivity]. now destruct s.
  - destruct s as [|c s]; [discriminate|]. cbn [Text.strip_prefix_ci].
    destruct (Text.eqb_ci a c) eqn:E; [|discriminate].
    intros H. apply IH in H as [H1 H2].
    cbn [String.length Text.take String.append Text.equal_ci].
    split; [now rewrite <- H1 | now rewrite E, H2].
Qed.

Lemma until_quote_spec (s x r : string) :
  Text.until_quote s = Some (x, r) ->
  s = x +:+ Text.DQ +:+ r /\ quote_free x = true.
Proof.
  revert x. induction s as [|c s IH]; intros x; [discriminate|].
  cbn [Text.until_quote]. destruct (Ascii.eqb c Text.dquote) eqn:E.
  - intros [= <- <-]. apply Ascii.eqb_eq in E. subst c. now split.
  - destruct (Text.until_quote s) as [[v q]|]; [|discriminate].
    intros [= <- <-]. destruct (IH v eq_refl) as [H1 H2].
    split; [cbn [String.append]; now rewrite <- H1|].
    rewrite quote_free_cons, H2. unfold not_quote. now rewrite E.
Qed.

Lemma match_image_spec (s f u r : string) :
  Regex.match_image s = Some (f, u, r) -> s = f +:+ r /\ reference f u.
Proof.
  rewrite match_image_unfold.
  destruct (Text.strip_prefix_ci _ s) as [r0|] eqn:E; [|discriminate].
  destruct (Text.until_quote r0) as [[x rest]|] eqn:U; [|discriminate].
  destruct (Regex.url_shape x) eqn:S; [|discriminate].
  intros [= <- <- <-].
  apply strip_prefix_ci_take in E as [E1 E2].
  apply until_quote_spec in U as [U1 U2].
  change (String.length ("src=" +:+ Text.DQ)) with 5%nat in *.
  split.
  - rewrite E1 at 1. rewrite U1. now rewrite !append_assoc.
  - split; [exact S|]. split; [exact U2|]. now exists (Text.take 5 s).
Qed.

Lemma matchAll_empty : Regex.matchAll EmptyString = [].
Proof. reflexivity. Qed.

(** X6. The matches Array.from(content.matchAll(imageRegex)) yields.  Each is a
    part of the content, of the form src= (in any letter case), double
    quote, URL, double quote, and its URL, the captured group, holds no
    double quote, begins with http:// or https:// and ends with .jpg,
    .jpeg, .png, .gif or .webp, all up to letter case. *)
Theorem matchAll_shape (s : string) :
  Forall (fun m => reference (fst m) (snd m)
                   /\ exists before after, s = before +:+ fst m +:+ after)
    (Regex.matchAll s).
Proof.
  remember (String.length s) as k eqn:Hk. revert s Hk.
  induction k as [k IH] using lt_wf_ind. intros s ->.
  destruct (Regex.match_image s) as [[[f u] r]|] eqn:E.
  - rewrite (matchAll_hit s f u r E).
    destruct (match_image_spec s f u r E) as [Hs Hr].
    constructor.
    + split; [exact Hr|]. exists EmptyString, r. exact Hs.
    + pose proof (IH _ (match_image_consuming s f u r E) r eq_refl) as H.
      eapply List.Forall_impl; [|exact H].
      intros [f' u'] [H1 (a & b & H2)]. split; [exact H1|].
      exists (f +:+ a), b. rewrite Hs, H2. now rewrite !append_assoc.
  - destruct s as [|c s]; [rewrite matchAll_empty; constructor|].
    rewrite (matchAll_miss c s E).
    pose proof (IH (String.length s) (Nat.lt_succ_diag_r _) s eq_refl) as H.
    eapply List.Forall_impl; [|exact H].
    intros [f' u'] [H1 (a & b & H2)]. split; [exact H1|].
    exists (String c a), b. cbn [String.append]. now rewrite <- H2.
Qed.

(** X5. The description of a transformed post.  It is the excerpt without its
    tags, trimmed, or the empty text when the excerpt is missing or empty:
    no text from a [<] to the next [>] is left in it, and it neither begins
    nor ends with white space. *)
Theorem description_clean (W : Platform) (wpPost : WpPost) (st : State) :
  exists post st',
    WordPress.transformWordPressPost W wpPost st = (Val post, st')
    /\ description (data post) = clean_excerpt (wp_excerpt wpPost)
    /\ occurs Regex.match_tag (description (data post)) = false
    /\ Text.skip_ws (description (data post)) = description (data post)
    /\ ends_ws (description (data post)) = false.
Proof.
  destruct (transformWordPressPost_total W wpPost st) as (post & st' & E).
  destruct (transformWordPressPost_carries W wpPost st st' post E) as (_ & Hd & _).
  exists post, st'. split; [exact E|]. split; [exact Hd|].
  rewrite Hd. apply clean_excerpt_spec.
Qed.

(** ** The posts served from posts.json *)

Lemma lower_unit_idem (c : ascii) :
  PostsStatic.lower_unit (PostsStatic.lower_unit c) = PostsStatic.lower_unit c.
Proof. destruct c as [[] [] [] [] [] [] [] []]; reflexivity. Qed.

Lemma toLowerCase_idem (s : string) :
  PostsStatic.toLowerCase (PostsStatic.toLowerCase s) = PostsStatic.toLowerCase s.
Proof.
  induction s as [|c s IH]; [reflexivity|].
  cbn [PostsStatic.toLowerCase]. now rewrite lower_unit_idem, IH.
Qed.

Lemma find_split {A : Type} (f : A -> bool) (l : list A) (x : A) :
  List.find f l = Some x ->
  f x = true /\ exists l1 l2, l = l1 ++ x :: l2 /\ Forall (fun y => f y = false) l1.
Proof.
  induction l as [|a l IH]; [discriminate|].
  cbn [List.find]. destruct (f a) eqn:E.
  - intros [= <-]. split; [exact E|]. exists [], l. split; [reflexivity | constructor].
  - intros H. destruct (IH H) as (Hx & l1 & l2 & -> & F).
    split; [exact Hx|]. exists (a :: l1), l2. split; [reflexivity | now constructor].
Qed.

Lemma find_none {A : Type} (f : A -> bool) (l : list A) :
  List.find f l = None -> Forall (fun y => f y = false) l.
Proof.
  induction l as [|a l IH]; [constructor|].
  cbn [List.find]. destruct (f a) eqn:E; [discriminate|].
  intros H. constructor; [exact E | exact (IH H)].
Qed.

Lemma getStaticPosts_slugs {PostRest DataRest : Type}
    (postsData : list (PostsStatic.Post PostRest DataRest string)) :
  map PostsStatic.slug (PostsStatic.getStaticPosts postsData) = map PostsStatic.slug postsData.
Proof.
  unfold PostsStatic.getStaticPosts. rewrite map_map. reflexivity.
Qed.

Lemma in_category_spec {PostRest DataRest : Type} (category : string)
    (post : PostsStatic.Post PostRest DataRest PostsStatic.JsDate) :
  PostsStatic.in_category category post = true
  <-> exists cats cat,
        PostsStatic.categories (PostsStatic.data post) = Some cats
        /\ In cat cats
        /\ PostsStatic.toLowerCase (term_name cat) = PostsStatic.toLowerCase category.
Proof.
  unfold PostsStatic.in_category.
  destruct (PostsStatic.categories (PostsStatic.data post)) as [cats|].
  - rewrite existsb_exists. split.
    + intros (cat & Hin & E). apply String.eqb_eq in E. now exists cats, cat.
    + intros (cats' & cat & [= <-] & Hin & E). exists cat. split; [exact Hin|].
      now apply String.eqb_eq.
  - split; [discriminate|]. now intros (cats & cat & [= ] & _).
Qed.

(** X17. getStaticPostBySlug.  The result is the first of the served posts
    whose slug is the given text, compared exactly; it is null precisely
    when no post of posts.json has that slug. *)
Theorem static_post_by_slug {PostRest DataRest : Type}
    (postsData : list (PostsStatic.Post PostRest DataRest string)) (s : string) :
  match PostsStatic.getStaticPostBySlug postsData s with
  | Some post =>
      PostsStatic.slug post = s
      /\ exists before after,
           PostsStatic.getStaticPosts postsData = before ++ post :: after
           /\ Forall (fun q => PostsStatic.slug q <> s) before
  | None => ~ In s (map PostsStatic.slug postsData)
  end.
Proof.
  unfold PostsStatic.getStaticPostBySlug.
  destruct (List.find _ _) as [post|] eqn:E.
  - apply find_split in E as (Hx & l1 & l2 & Hl & F).
    split; [now apply String.eqb_eq|]. exists l1, l2. split; [exact Hl|].
    eapply List.Forall_impl; [|exact F]. intros q Hq. now apply String.eqb_neq.
  - apply find_none in E. rewrite <- getStaticPosts_slugs.
    intros Hin. apply in_map_iff in Hin as (q & Hq & Hin).
    rewrite List.Forall_forall in E. specialize (E q Hin).
    apply String.eqb_neq in E. contradiction.
Qed.

(** X18. getStaticPostsByCategory.  A served post is in the result exactly when
    one of its categories has the given name up to toLowerCase; a post
    without the key categories never is.  The result depends on the
    category only through its lower-case form. *)
Theorem static_posts_by_category {PostRest DataRest : Type}
    (postsData : list (PostsStatic.Post PostRest DataRest string)) (category : string) :
  (forall post,
     In post (PostsStatic.getStaticPostsByCategory postsData category)
     <-> In post (PostsStatic.getStaticPosts postsData)
         /\ exists cats cat,
              PostsStatic.categories (PostsStatic.data post) = Some cats
              /\ In cat cats
              /\ PostsStatic.toLowerCase (term_name cat) = PostsStatic.toLowerCase category)
  /\ (forall other,
        PostsStatic.toLowerCase other = PostsStatic.toLowerCase category ->
        PostsStatic.getStaticPostsByCategory postsData other
        = PostsStatic.getStaticPostsByCategory postsData category)
  /\ PostsStatic.getStaticPostsByCategory postsData (PostsStatic.toLowerCase category)
     = PostsStatic.getStaticPostsByCategory postsData category.
Proof.
  assert (Hsame : forall other,
             PostsStatic.toLowerCase other = PostsStatic.toLowerCase category ->
             PostsStatic.getStaticPostsByCategory postsData other
             = PostsStatic.getStaticPostsByCategory postsData category).
  { intros other Ho. unfold PostsStatic.getStaticPostsByCategory.
    apply List.filter_ext. intros post. unfold PostsStatic.in_category. now rewrite Ho. }
  split; [|split; [exact Hsame | apply Hsame, toLowerCase_idem]].
  intros post. unfold PostsStatic.getStaticPostsByCategory.
  rewrite List.filter_In, in_category_spec. reflexivity.
Qed.

(** ** The feed *)

Lemma append_cancel_l (p a b : string) : p +:+ a = p +:+ b -> a = b.
Proof. induction p as [|c p IH]; [easy|]. cbn [String.append]. intros [= H]. now apply IH. Qed.

Lemma append_cancel_r (a b c : string) : a +:+ c = b +:+ c -> a = b.
Proof.
  intros H. apply (f_equal String.rev) in H. rewrite !rev_append in H.
  apply append_cancel_l in H. apply (f_equal String.rev) in H.
  now rewrite !rev_involutive in H.
Qed.

Lemma link_of_inj (a b : string) : Rss.link_of a = Rss.link_of b -> a = b.
Proof.
  unfold Rss.link_of. intros H. apply append_cancel_l in H. now apply append_cancel_r in H.
Qed.

Lemma NoDup_map_inj {A B : Type} (f : A -> B) (l : list A) :
  (forall x y, f x = f y -> x = y) -> List.NoDup l -> List.NoDup (map f l).
Proof.
  intros Hf. induction l as [|a l IH]; intros H; [constructor|].
  inversion H as [|? ? Ha Hl]; subst. cbn [map]. constructor; [|now apply IH].
  intros Hin. apply in_map_iff in Hin as (y & Hy & Hin). apply Hf in Hy. now subst y.
Qed.

(** X19. The items of the feed built from posts.json.  There is one item per
    post of the file, in the order of the file; its link is /archive/, the
    slug and a slash, and its date is new Date of the stored text.  Posts
    with different slugs have different links. *)
Theorem static_feed_items {PostRest DataRest : Type}
    (postsData : list (PostsStatic.Post PostRest DataRest string)) :
  map Rss.link (Rss.items postsData)
  = map (fun post => Rss.link_of (PostsStatic.slug post)) postsData
  /\ map Rss.item_pubDate (Rss.items postsData)
     = map (fun post => PostsStatic.NewDate (PostsStatic.pubDate (PostsStatic.data post)))
         postsData
  /\ map Rss.item_title (Rss.items postsData)
     = map (fun post => PostsStatic.title (PostsStatic.data post)) postsData
  /\ (List.NoDup (map PostsStatic.slug postsData)
      -> List.NoDup (map Rss.link (Rss.items postsData))).
Proof.
  assert (Hl : map Rss.link (Rss.items postsData)
               = map Rss.link_of (map PostsStatic.slug postsData)).
  { unfold Rss.items, PostsStatic.getStaticPosts. now rewrite !map_map. }
  split; [rewrite Hl; now rewrite map_map|].
  split; [unfold Rss.items, PostsStatic.getStaticPosts; now rewrite !map_map|].
  split; [unfold Rss.items, PostsStatic.getStaticPosts; now rewrite !map_map|].
  intros Hnd. rewrite Hl. apply NoDup_map_inj; [exact link_of_inj | exact Hnd].
Qed.

Lemma carries_fields (posts : list WpPost) (out : list AstroPost) :
  Forall2 carries posts out ->
  map slug out = map wp_slug posts
  /\ map (fun post => title (data post)) out = map wp_title posts
  /\ map (fun post => pubDate (data post)) out = map wp_date posts.
Proof.
  induction 1 as [|wp post posts out (_ & H1 & H2 & H3 & _) _ (I1 & I2 & I3)];
    [now repeat split|].
  cbn [map]. now rewrite H1, H2, H3, I1, I2, I3.
Qed.

Lemma description_fields (posts : list WpPost) (out : list AstroPost) :
  Forall2 (fun wp post => description (data post) = clean_excerpt (wp_excerpt wp)) posts out ->
  map (fun post => description (data post)) out
  = map (fun wp => clean_excerpt (wp_excerpt wp)) posts.
Proof.
  induction 1 as [|wp post posts out H _ IH]; [reflexivity|].
  cbn [map]. now rewrite H, IH.
Qed.

(** X20. The items of the feed that asks WordPress.  Every request returns a
    list with one item per post of the answer, in the order of the answer:
    link /archive/, slug and a slash, the title, the cleaned excerpt as
    description and the date of the post.  When the content query fails the
    answer is empty and so is the feed; the request does not fail. *)
Theorem live_feed_items (W : Platform) (st : State) :
  exists items st',
    Rss.live_items W st = (Val items, st')
    /\ map Rss.link items = map (fun wp => Rss.link_of (wp_slug wp)) (answered W)
    /\ map Rss.item_title items = map wp_title (answered W)
    /\ map Rss.item_description items
       = map (fun wp => clean_excerpt (wp_excerpt wp)) (answered W)
    /\ map Rss.item_pubDate items = map wp_date (answered W).
Proof.
  destruct (transform_all_run W (answered W) (log EvQuery st)) as (posts & st' & E & F & G).
  assert (Hrun : WordPress.getWordPressPosts W st = (Val posts, st')).
  { unfold WordPress.getWordPressPosts.
    now rewrite (bind_val _ _ _ _ _ (fetchWordPressPosts_run W st)). }
  destruct (carries_fields _ _ F) as (H1 & H2 & H3).
  pose proof (description_fields _ _ G) as H4.
  eexists _, st'. split.
  { unfold Rss.live_items. rewrite (bind_val _ _ _ _ _ Hrun). reflexivity. }
  rewrite !map_map. cbn [Rss.link Rss.item_title Rss.item_description Rss.item_pubDate].
  split; [|split; [exact H2 | split; [exact H4 | exact H3]]].
  rewrite <- (map_map slug Rss.link_of), H1. now rewrite map_map.
Qed.

(** ** Paths and colours *)

Lemma downloadImage_null (W : Platform) (url : option string) (st st' : State)
    (r : ImageResult) :
  WordPress.downloadImage W url st = (Val r, st') ->
  localPath r = None -> resultColor r = None.
Proof.
  unfold WordPress.downloadImage.
  destruct (not_local url); [now intros [= <- <-]|].
  intros H. apply try_catch_inv in H as [H|(st1 & _ & [= <- <-])]; [|easy].
  inv_bind H.
  destruct (negb (fst a)); [now injection H as <- <-|].
  do 6 inv_bind H. injection H as <- <-. discriminate.
Qed.

Lemma downloadAndConvertImage_null (W : Platform) (url : option string) (st st' : State)
    (r : ImageResult) :
  SyncImages.downloadAndConvertImage W url st = (Val r, st') ->
  localPath r = None -> resultColor r = None.
Proof.
  unfold SyncImages.downloadAndConvertImage.
  destruct (not_local url); [now intros [= <- <-]|].
  intros H. apply try_catch_inv in H as [H|(st1 & _ & [= <- <-])]; [|easy].
  do 2 inv_bind H. destruct a0.
  - do 2 inv_bind H. injection H as <- <-. discriminate.
  - inv_bind H.
    destruct (negb (fst a0)); [now injection H as <- <-|].
    do 6 inv_bind H.
    destruct (negb a6); [now injection H as <- <-|].
    do 2 inv_bind H. injection H as <- <-. discriminate.
Qed.

(** X9. No colour without a path.  Whatever a resolution of sync-images.js or
    of wordpress.js returns, a null path comes with a null colour. *)
Theorem colour_needs_path (W : Platform) (url : option string) (st st' : State)
    (r : ImageResult) :
  SyncImages.downloadAndConvertImage W url st = (Val r, st')
  \/ WordPress.downloadImage W url st = (Val r, st') ->
  localPath r = None ->
  resultColor r = None.
Proof.
  intros [H|H] Hnull.
  - exact (downloadAndConvertImage_null W url st st' r H Hnull).
  - exact (downloadImage_null W url st st' r H Hnull).
Qed.

Lemma colour_needs_path_witness :
  resultColor (mkImageResult None None) = None.
Proof.
  apply (colour_needs_path Demo.offline (Some Demo.rocket) Demo.empty
           (log (EvFetch Demo.rocket) Demo.empty) (mkImageResult None None)).
  - right. vm_compute. reflexivity.
  - reflexivity.
Defined.

(** X4. The hero image of a transformed post.  For a featured image URL that
    holds '.local' or 'localhost' it is null, with a null colour, or
    /images/ followed by the final segment of the URL path; any other
    non-empty URL is kept as it is, with a null colour; without a URL both
    are null. *)
Theorem hero_image (W : Platform) (wpPost : WpPost) (st : State) :
  exists post st',
    WordPress.transformWordPressPost W wpPost st = (Val post, st')
    /\ match featured_url wpPost with
       | Some u =>
           if eligible u
           then (heroImage (data post) = None /\ dominantColor (data post) = None)
                \/ (exists p, url_pathname W u = Some p
                              /\ heroImage (data post)
                                 = Some ("/images/" +:+ Path.basename p))
           else heroImage (data post) = (if String.eqb u EmptyString then None else Some u)
                /\ dominantColor (data post) = None
       | None => heroImage (data post) = None /\ dominantColor (data post) = None
       end.
Proof.
  destruct (transformWordPressPost_total W wpPost st) as (post & st' & E).
  exists post, st'. split; [exact E|].
  unfold WordPress.transformWordPressPost in E. cbv zeta in E.
  do 2 inv_bind E. injection E as <-. cbn [data heroImage dominantColor].
  fold (featured_url wpPost) in E0. unfold WordPress.js_or in E0.
  destruct (featured_url wpPost) as [u|]; cbn [Text.truthy] in E0.
  2:{ now injection E0 as <- _. }
  destruct (eligible u) eqn:He.
  - assert (Hu : negb (String.eqb u EmptyString) = true).
    { destruct u; [discriminate He | reflexivity]. }
    rewrite Hu in E0. cbn [Text.truthy] in E0. rewrite Hu in E0.
    destruct (downloadImage_path W u st st0 a He E0) as [Hn|(p & Hp & Hr)].
    + left. split; [exact Hn | exact (downloadImage_null W _ _ _ _ E0 Hn)].
    + right. now exists p.
  - destruct (String.eqb u EmptyString) eqn:Hu; cbn [negb] in E0.
    + now injection E0 as <- _.
    + cbn [Text.truthy] in E0. rewrite Hu in E0. cbn [negb] in E0.
      rewrite (downloadImage_same W u st He) in E0. now injection E0 as <- _.
Qed.

(** ** A resolution that finds the cached file *)

Lemma color_of_truthy (W : Platform) (content : option string) (c : string) :
  color_of W content = Some c -> Text.truthy (Some c) = true.
Proof.
  unfold color_of. destruct content as [d|]; [|discriminate].
  destruct (sharp_dominant W d) as [[[r g] b]|]; [|discriminate].
  now intros [= <-].
Qed.



(** ** Posts without images at the origin *)

Lemma substitute_external (W : Platform) (images : list (string * string)) :
  Forall (fun m => eligible (snd m) = false) images ->
  forall content st, exists c, WordPress.substitute W images content st = (Val c, st).
Proof.
  induction 1 as [|[f u] rest Hu _ IH]; intros content st.
  - now exists content.
  - cbn [WordPress.substitute]. cbn [snd] in Hu.
    rewrite (bind_val _ _ st st _ (downloadImage_same W u st Hu)). apply IH.
Qed.

(** X22. A post whose images are elsewhere.  When the featured image URL and
    every URL the image pattern finds in the content hold neither '.local'
    nor 'localhost', transformWordPressPost returns without any effect: no
    fetch, no directory, no file. *)
Theorem external_post_untouched (W : Platform) (wpPost : WpPost) (st : State) :
  (forall u, featured_url wpPost = Some u -> eligible u = false) ->
  Forall (fun m => eligible (snd m) = false)
    (Regex.matchAll (default EmptyString (wp_content wpPost))) ->
  exists post, WordPress.transformWordPressPost W wpPost st = (Val post, st).
Proof.
  intros Hf Hc. unfold WordPress.transformWordPressPost. cbv zeta.
  fold (featured_url wpPost).
  assert (H1 : exists r,
             (if Text.truthy (WordPress.js_or (featured_url wpPost) None)
              then WordPress.downloadImage W (WordPress.js_or (featured_url wpPost) None)
              else ret SyncImages.no_result) st = (Val r, st)).
  { destruct (featured_url wpPost) as [u|] eqn:Eu; [|now eexists].
    unfold WordPress.js_or. destruct (Text.truthy (Some u)) eqn:Et.
    - rewrite Et. eexists. apply downloadImage_same. now apply Hf.
    - cbn [Text.truthy]. now eexists. }
  destruct H1 as (r & H1). rewrite (bind_val _ _ st st r H1).
  destruct (Text.truthy (wp_content wpPost)).
  - unfold WordPress.rewrite.
    destruct (substitute_external W _ Hc (default EmptyString (wp_content wpPost)) st)
      as (c & Hs).
    rewrite (bind_val _ _ st st _ (bind_val _ _ st st _ (bind_val _ _ st st c Hs))).
    now eexists.
  - now eexists.
Qed.

Lemma external_post_untouched_witness :
  exists post,
    WordPress.transformWordPressPost Demo.online Abroad.post Demo.published
    = (Val post, Demo.published).
Proof.
  apply (external_post_untouched Demo.online Abroad.post Demo.published).
  - intros u [= <-]. vm_compute. reflexivity.
  - vm_compute. repeat constructor.
Defined.

(** ** The run of the revision without colours *)

Lemma downloadAndConvertImage0_total (W : Platform) (url : option string) (st : State) :
  exists r st', SyncImages0.downloadAndConvertImage W url st = (Val r, st').
Proof.
  unfold SyncImages0.downloadAndConvertImage. destruct (not_local url).
  - now eexists _, _.
  - apply try_catch_total.
Qed.

Lemma each_inline0_run (W : Platform) (images : list (string * string)) :
  forall st, exists st',
    SyncImages0Main.each_inline W images st = (Val tt, st') /\ adds sync_event st st'.
Proof.
  induction images as [|[full url] rest IH]; intros st.
  - exists st. split; [reflexivity | apply adds_refl].
  - destruct (downloadAndConvertImage0_total W (Some url) st) as (r & st1 & E).
    destruct (IH st1) as (st2 & E2 & A2).
    exists st2. cbn [SyncImages0Main.each_inline]. rewrite (bind_val _ _ _ _ _ E).
    split; [exact E2|].
    exact (adds_trans _ _ _ _ (downloadAndConvertImage0_adds W _ _ _ _ E) A2).
Qed.

Lemma tally0_total (r : option string) (c : SyncImages.Counters) :
  counted c ->
  total (SyncImages0Main.tally r c) = total c + 1 /\ counted (SyncImages0Main.tally r c).
Proof.
  intros (H1 & H2 & H3). unfold SyncImages0Main.tally, total, counted.
  destruct (Text.truthy r); [destruct (Text.includes _ _)|];
    cbn [andb SyncImages.processed SyncImages.skipped SyncImages.failed]; lia.
Qed.

Lemma each_post0_run (W : Platform) (posts : list WpPost) :
  forall c st,
    counted c ->
    exists c' st',
      SyncImages0Main.each_post W posts c st = (Val c', st')
      /\ total c' = total c + Z.of_nat (length (heroes posts))
      /\ counted c'
      /\ adds sync_event st st'.
Proof.
  induction posts as [|p rest IH]; intros c st Hc.
  - exists c, st. unfold heroes. simpl. split; [reflexivity|]. split; [lia|].
    split; [exact Hc | apply adds_refl].
  - cbn [SyncImages0Main.each_post]. unfold heroes. cbn [List.filter]. fold (heroes rest).
    assert (H1 : exists c1 st1,
               (if Text.truthy (SyncImages.heroUrl p)
                then let* result := SyncImages0.downloadAndConvertImage W (SyncImages.heroUrl p) in
                     ret (SyncImages0Main.tally result c)
                else ret c) st = (Val c1, st1)
               /\ total c1 = total c + (if Text.truthy (SyncImages.heroUrl p) then 1 else 0)
               /\ counted c1 /\ adds sync_event st st1).
    { destruct (Text.truthy (SyncImages.heroUrl p)).
      - destruct (downloadAndConvertImage0_total W (SyncImages.heroUrl p) st) as (r & st1 & E).
        destruct (tally0_total r c Hc) as [T1 T2].
        exists (SyncImages0Main.tally r c), st1. rewrite (bind_val _ _ _ _ _ E).
        split; [reflexivity|]. split; [exact T1|]. split; [exact T2|].
        exact (downloadAndConvertImage0_adds W _ _ _ _ E).
      - exists c, st. split; [reflexivity|]. split; [lia|]. split; [exact Hc|].
        apply adds_refl. }
    destruct H1 as (c1 & st1 & E1 & T1 & C1 & A1). rewrite (bind_val _ _ _ _ _ E1).
    assert (H2 : exists st2,
               (if Text.truthy (wp_content p)
                then SyncImages0Main.each_inline W
                       (Regex.matchAll (default EmptyString (wp_content p)))
                else ret tt) st1 = (Val tt, st2)
               /\ adds sync_event st1 st2).
    { destruct (Text.truthy (wp_content p)); [apply each_inline0_run|].
      exists st1. split; [reflexivity | apply adds_refl]. }
    destruct H2 as (st2 & E2 & A2). rewrite (bind_val _ _ _ _ _ E2).
    destruct (IH c1 st2 C1) as (c' & st' & E3 & T3 & C3 & A3).
    exists c', st'. split; [exact E3|]. split; [|split; [exact C3|]].
    + rewrite T3, T1. destruct (Text.truthy (SyncImages.heroUrl p)); cbn [length]; lia.
    + exact (adds_trans _ _ _ _ A1 (adds_trans _ _ _ _ A2 A3)).
Qed.

